(** * snapshot-diff-library: the diff pipeline of [snapshot_diff.cpp]

    A shallow embedding of the five stages of [GetSnapshotDiff]
    (stream open with retries, pagination, bucketizing by level,
    serialization in level order, JSON event mapping) together with the
    properties of the design document that can be read off the code.

    Files are modelled by their contents, the file system and the upstream
    diff stream by explicit oracles (section variables), C++ stream state by
    records carrying the [eofbit]/[failbit] flags, and the ways in which a C++
    function can leave (return value, uncaught exception, undefined behaviour)
    by small result types. *)

From Stdlib Require Import ZArith Lia List Ascii String Permutation Sorted.
From stdpp Require Import gmap strings list sorting.

Local Open Scope Z_scope.

(* ===================================================================== *)
(** * Part I: definitions                                                 *)
(* ===================================================================== *)

(** ** The C++ library functions the pipeline relies on *)

Module Cxx.

(** [isspace] in the "C" locale: space, and the control characters
    HT, LF, VT, FF, CR. *)
Definition isspace (c : ascii) : bool :=
  let n := N_of_ascii c in
  (N.eqb n 32 || (N.leb 9 n && N.leb n 13))%bool.

Definition newline : ascii := ascii_of_N 10.
Definition tab : ascii := ascii_of_N 9.

(** *** [std::istringstream] and [operator>>(istream&, string&)] *)

Record istringstream := mk_iss
  { ibuf : string;    (* characters not yet consumed *)
    ieof : bool;      (* eofbit *)
    ifail : bool }.   (* failbit *)

Definition iss (s : string) : istringstream :=
  {| ibuf := s; ieof := false; ifail := false |}.

Definition good (ls : istringstream) : bool :=
  (negb (ieof ls) && negb (ifail ls))%bool.

Fixpoint skipws (s : string) : string :=
  match s with
  | EmptyString => EmptyString
  | String c r => if isspace c then skipws r else s
  end.

(** The maximal prefix without white space, and what follows it. *)
Fixpoint word (s : string) : string * string :=
  match s with
  | EmptyString => (EmptyString, EmptyString)
  | String c r =>
      if isspace c then (EmptyString, s)
      else let '(w, t) := word r in (String c w, t)
  end.

(** [lineStream >> s].  The sentry fails when the stream is not good or
    when only white space is left; in both cases [failbit] is set and the
    target string keeps its previous value (it is erased only after the
    sentry has succeeded).  A word that runs up to the end of the buffer
    sets [eofbit]. *)
Definition extract (ls : istringstream) (s : string) : istringstream * string :=
  if good ls then
    match skipws (ibuf ls) with
    | EmptyString => ({| ibuf := EmptyString; ieof := true; ifail := true |}, s)
    | String _ _ as rest =>
        let '(w, t) := word rest in
        ({| ibuf := t;
            ieof := match t with EmptyString => true | _ => false end;
            ifail := false |}, w)
    end
  else ({| ibuf := ibuf ls; ieof := ieof ls; ifail := true |}, s).

(** [while (lineStream >> token) v.push_back(token);] *)
Fixpoint read_all (fuel : nat) (ls : istringstream) (token : string) : list string :=
  match fuel with
  | O => []
  | S fuel' =>
      let '(ls', token') := extract ls token in
      if ifail ls' then [] else token' :: read_all fuel' ls' token'
  end.

(** Every successful extraction consumes a character, so the length of
    the line bounds the number of iterations. *)
Definition tokens (line : string) : list string :=
  read_all (S (String.length line)) (iss line) EmptyString.

(** *** [std::getline(f, line, '\n')] until it fails *)

Fixpoint getlines_from (cur : string) (nonempty : bool) (s : string) : list string :=
  match s with
  | EmptyString => if nonempty then [cur] else []
  | String c r =>
      if Ascii.eqb c newline then cur :: getlines_from EmptyString false r
      else getlines_from (cur +:+ String c EmptyString) true r
  end.

Definition getlines (content : string) : list string :=
  getlines_from EmptyString false content.

(** *** [std::stoi] *)

Definition INT_MIN : Z := - 2 ^ 31.
Definition INT_MAX : Z := 2 ^ 31 - 1.

Definition digit (c : ascii) : option Z :=
  let n := Z.of_N (N_of_ascii c) in
  if (48 <=? n) && (n <=? 57) then Some (n - 48) else None.

(** Value of the maximal prefix of decimal digits; [None] without one. *)
Fixpoint digits (acc : option Z) (s : string) : option Z :=
  match s with
  | EmptyString => acc
  | String c r =>
      match digit c with
      | Some d => digits (Some (10 * default 0 acc + d)) r
      | None => acc
      end
  end.

(** [stoi(s)]: leading white space, an optional sign, decimal digits;
    trailing characters are ignored.  [None] stands for the exceptions
    [std::invalid_argument] (no digits) and [std::out_of_range]. *)
Definition stoi (s : string) : option Z :=
  let body := skipws s in
  let '(neg, ds) :=
    match body with
    | String "-"%char r => (true, r)
    | String "+"%char r => (false, r)
    | _ => (false, body)
    end in
  match digits None ds with
  | None => None
  | Some v =>
      let v := if neg : bool then - v else v in
      if (INT_MIN <=? v) && (v <=? INT_MAX) then Some v else None
  end.

(** [int] arithmetic, written with its two's complement wrap-around. *)
Definition wrap_int (z : Z) : Z := (z + 2 ^ 31) mod 2 ^ 32 - 2 ^ 31.
Definition int_add (a b : Z) : Z := wrap_int (a + b).

(** *** [std::string::find] and [std::string::substr] *)

Definition npos : Z := 2 ^ 64 - 1.

(** Index of the first occurrence of a character, as a [size_t]. *)
Fixpoint find_from (c : ascii) (s : string) (i : Z) : Z :=
  match s with
  | EmptyString => npos
  | String d r => if Ascii.eqb d c then i else find_from c r (i + 1)
  end.

Definition find (s : string) (c : ascii) : Z := find_from c s 0.

(** Conversions between [size_t] and [int] on an LP64 platform. *)
Definition int_of_size_t (n : Z) : Z := wrap_int n.
Definition size_t_of_int (i : Z) : Z := i mod 2 ^ 64.

Fixpoint take (s : string) (count : Z) : string :=
  match s with
  | EmptyString => EmptyString
  | String c r => if count <=? 0 then EmptyString else String c (take r (count - 1))
  end.

(** [s.substr(pos, count)] with [pos] and [count] of type [size_t];
    [None] stands for [std::out_of_range] ([pos > size()]). *)
Fixpoint substr (s : string) (pos count : Z) : option string :=
  if pos <=? 0 then Some (take s count)
  else match s with
       | EmptyString => None
       | String _ r => substr r (pos - 1) count
       end.

End Cxx.

(** ** Stream Reader: [OpenStreamUnreliable] *)

Definition MAX_RETRIES : Z := 10.
Definition ENOENT : Z := 2.

(** Outcome of one call of [ifstream::open]: the stream is open, or it is
    not and [errno] holds the reason. *)
Inductive open_result :=
| Opened
| OpenFailed (errno : Z).

Module StreamReader.
Section OpenStream.

(** [try_open k] is what the [k]-th call of [snapDiffFile.open] on the
    page does (the page may appear between two calls). *)
Variable try_open : nat -> open_result.

(** The [do { ... } while (numRetries++ < MAX_RETRIES)] loop.  The state
    is [numRetries] and the number of [open] calls made so far; the result
    is [is_open()] after the loop and the total number of [open] calls. *)
Fixpoint open_loop (fuel : nat) (numRetries : Z) (calls : nat) : option (bool * nat) :=
  match fuel with
  | O => None
  | S fuel' =>
      match try_open calls with
      | Opened => Some (true, S calls)
      | OpenFailed errno =>
          if negb (errno =? ENOENT) then Some (false, S calls)
          else if numRetries <? MAX_RETRIES
               then open_loop fuel' (numRetries + 1) (S calls)
               else Some (false, S calls)
      end
  end.

(** Returns the status ([0] on success, [1] on failure) and the number
    of times [open] was called. *)
Definition OpenStreamUnreliable : option (Z * nat) :=
  match open_loop (S (Z.to_nat MAX_RETRIES)) 0 0 with
  | None => None
  | Some (is_open, calls) => Some (if is_open then 0 else 1, calls)
  end.

End OpenStream.
End StreamReader.

(** ** Pagination Driver: [ReadRawDiff] *)

Definition separator : string := "/".

Module Pagination.
Import Cxx.

(** What the environment does during one iteration of the page loop. *)
Record page_io := mk_page_io
  { opens : nat -> open_result;  (* the [open] calls on the page *)
    local_ok : bool;             (* [localFile.is_open()] *)
    data : string;               (* bytes copied to the local file *)
    statusBad : bool }.          (* [snapDiffFile.bad()] during the copy *)

(** The variables of [ReadRawDiff] that live across iterations. *)
Record state := mk_state
  { startPoint : string;
    readNum : Z;
    eof : bool;
    numRetryReads : Z }.

(** The state of the line loop: the variables above and whether
    [localFile] is still open. *)
Record scan := mk_scan
  { vars : state;
    localFile_open : bool }.

Definition diffFileName (snapDir snap1 snap2 cookie : string) : string :=
  snapDir +:+ separator +:+ snap1 +:+ "^" +:+ snap2 +:+ "^" +:+ cookie.

(** [for (int i = 0; i < 3; ++i) { currCookie = s; lineStream >> s; }],
    returning the final [s] and [currCookie]. *)
Fixpoint read3 (n : nat) (ls : istringstream) (s currCookie : string) : string * string :=
  match n with
  | O => (s, currCookie)
  | S n' => let '(ls', s') := extract ls s in read3 n' ls' s' s
  end.

(** The body of [while (getline(localFile, diffLine, '\n'))]. *)
Definition scan_line (st : scan) (diffLine : string) : scan :=
  let '(s, currCookie) := read3 3 (iss diffLine) EmptyString EmptyString in
  let v := vars st in
  if String.eqb s "EOB" then
    {| vars := {| startPoint := startPoint v; readNum := int_add (readNum v) 1;
                  eof := eof v; numRetryReads := numRetryReads v |};
       localFile_open := false |}
  else if String.eqb s "EOF" then
    {| vars := {| startPoint := startPoint v; readNum := int_add (readNum v) 1;
                  eof := true; numRetryReads := numRetryReads v |};
       localFile_open := false |}
  else
    {| vars := {| startPoint := currCookie; readNum := readNum v;
                  eof := eof v; numRetryReads := numRetryReads v |};
       localFile_open := localFile_open st |}.

(** Once [localFile] has been closed, [getline] fails (with [eofbit])
    and the loop is left. *)
Fixpoint scan_lines (st : scan) (lines : list string) : scan :=
  match lines with
  | [] => st
  | l :: rest => if localFile_open st then scan_lines (scan_line st l) rest else st
  end.

Inductive step :=
| Again (st : state)      (* next iteration of [while (!eof)] *)
| Return (ret : Z).

(** One iteration of [while (!eof)].  Reading back the local copy is
    taken to be reliable, so the line loop always ends at end of file. *)
Definition read_page (st : state) (io : page_io) : step :=
  match StreamReader.OpenStreamUnreliable (opens io) with
  | Some (0, _) =>
      if negb (local_ok io) then Return (-1)
      else if statusBad io then
        if numRetryReads st =? MAX_RETRIES then Return (-1)
        else Again {| startPoint := startPoint st; readNum := readNum st;
                      eof := eof st; numRetryReads := int_add (numRetryReads st) 1 |}
      else
        Again (vars (scan_lines {| vars := st; localFile_open := true |}
                                (getlines (data io))))
  | _ => Return (-1)
  end.

Section ReadRawDiff.
Variables snapDir snap1 snap2 : string.

(** [stream i name] is what happens in the [i]-th iteration, in which
    the page called [name] is requested. *)
Variable stream : nat -> string -> page_io.

(** The page loop; the names of the pages requested are collected, as
    the log does.  [None] when the fuel does not suffice (the upstream
    may never send [EOF]). *)
Fixpoint page_loop (fuel : nat) (i : nat) (st : state) (names : list string)
  : option (Z * list string) :=
  if eof st then Some (readNum st, names)
  else match fuel with
       | O => None
       | S fuel' =>
           let name := diffFileName snapDir snap1 snap2 (startPoint st) in
           match read_page st (stream i name) with
           | Return r => Some (r, names ++ [name])
           | Again st' => page_loop fuel' (S i) st' (names ++ [name])
           end
       end.

Definition initial : state :=
  {| startPoint := "0"; readNum := 0; eof := false; numRetryReads := 0 |}.

Definition ReadRawDiff (fuel : nat) : option (Z * list string) :=
  page_loop fuel 0 initial [].
End ReadRawDiff.
End Pagination.

(** ** The ways in which a function of the pipeline can leave *)

Inductive outcome (A : Type) :=
| Returned (a : A)
| Terminated     (* an exception nobody catches *)
| Undefined.     (* undefined behaviour *)
Arguments Returned {A} a.
Arguments Terminated {A}.
Arguments Undefined {A}.

(** ** Bucketizer: [BucketizeDiff] *)

(** A bucket file: whether the stream is open and the lines written to it
    (each one is followed by [endl] in the file). *)
Record fstream := mk_fstream
  { is_open : bool;
    contents : list string }.

(** [typedef map <int, fstream*> BucketFileMap]; [None] is [nullptr]. *)
Abbreviation BucketFileMap := (gmap Z (option fstream)).

(** The lines held by the bucket file of a level. *)
Definition bucket_lines (buckets : BucketFileMap) (level : Z) : list string :=
  match buckets !! level with
  | Some (Some f) => contents f
  | _ => []
  end.

(** All the lines held by the bucket files. *)
Definition all_bucket_lines (buckets : BucketFileMap) : list string :=
  map_to_list buckets ≫= (fun e => from_option contents [] e.2).

Module Bucketizer.
Import Cxx.

Inductive halt :=
| ReturnFalse      (* [return false] *)
| Uncaught         (* [stoi] threw *)
| NullDeref.       (* a null bucket pointer was dereferenced *)

(** How the body of the line loop ends. *)
Inductive ctl :=
| NextLine
| SeekEnd          (* [curFile.seekg(0, fstream::end)]: the next [getline] fails *)
| Halt (h : halt).

(** [while (lineStream >> s)] on what is left of the line. *)
Definition read_rest (ls : istringstream) (s : string) : list string :=
  read_all (S (String.length (ibuf ls))) ls s.

(** [outputLine]: the current [s], then each further token after a tab. *)
Definition output_line (ls : istringstream) (s : string) : string :=
  fold_left (fun acc t => acc +:+ String tab EmptyString +:+ t) (read_rest ls s) s.

(** [*buckets[level] << str << endl] *)
Definition write_line (buckets : BucketFileMap) (level : Z) (str : string)
  : option BucketFileMap :=
  match buckets !! level with
  | Some (Some f) =>
      Some (<[level := Some (if is_open f
                             then {| is_open := true; contents := contents f ++ [str] |}
                             else f)]> buckets)
  | _ => None
  end.

Section Stage.
(** Whether [MkDir] of the bucket directory succeeds, whether the bucket
    file of a level can be created, and the raw page files ([None]: the
    file cannot be opened). *)
Variable mkdir_status : Z.
Variable bucket_open_ok : Z -> bool.
Variable raw_file : nat -> option string.

(** The body of [while (getline(curFile, diffLine, '\n'))]. *)
Definition bucketize_line (buckets : BucketFileMap) (diffLine : string)
  : ctl * BucketFileMap :=
  let ls := iss diffLine in
  let '(ls, s) := extract ls EmptyString in
  match stoi s with
  | None => (Halt Uncaught, buckets)
  | Some n =>
      let level := int_add n 513 in
      let '(ls, s) := extract ls s in
      let present := bool_decide (is_Some (buckets !! level)) in
      if negb present && negb (bucket_open_ok level) then (Halt ReturnFalse, buckets)
      else
        let buckets :=
          if present then buckets
          else <[level := Some {| is_open := true; contents := [] |}]> buckets in
        let '(ls, s) := extract ls s in
        let str := output_line ls s in
        if negb (String.eqb str "EOB") && negb (String.eqb str "EOF") then
          match write_line buckets level str with
          | Some buckets' => (NextLine, buckets')
          | None => (Halt NullDeref, buckets)
          end
        else (SeekEnd, buckets)
  end.

(** The line loop over one raw file. *)
Fixpoint bucketize_lines (buckets : BucketFileMap) (lines : list string)
  : option halt * BucketFileMap :=
  match lines with
  | [] => (None, buckets)
  | l :: rest =>
      match bucketize_line buckets l with
      | (NextLine, b) => bucketize_lines b rest
      | (SeekEnd, b) => (None, b)
      | (Halt h, b) => (Some h, b)
      end
  end.

(** The loop over the raw files. *)
Fixpoint bucketize_files (buckets : BucketFileMap) (files : list (option string))
  : option halt * BucketFileMap :=
  match files with
  | [] => (None, buckets)
  | None :: _ => (Some ReturnFalse, buckets)
  | Some content :: rest =>
      match bucketize_lines buckets (getlines content) with
      | (None, b) => bucketize_files b rest
      | r => r
      end
  end.

Definition BucketizeDiff (buckets : BucketFileMap) (readNum : Z)
  : outcome bool * BucketFileMap :=
  if negb (mkdir_status =? 0) then (Returned false, buckets)
  else match bucketize_files buckets (map raw_file (seq 0 (Z.to_nat readNum))) with
       | (None, b) => (Returned true, b)
       | (Some ReturnFalse, b) => (Returned false, b)
       | (Some Uncaught, b) => (Terminated, b)
       | (Some NullDeref, b) => (Undefined, b)
       end.
End Stage.
End Bucketizer.

(** ** Serializer: [SerializeBuckets] *)

Module Serializer.

(** The output stream [SerialDiffFile]: the lines written and [failbit]. *)
Record ofstream := mk_ofstream
  { written : list string;
    failbit : bool }.

(** [SerialDiffFile << itr->second->rdbuf()] after [seekg(0, beg)].
    Nothing is inserted into a stream that is not good; inserting no
    character at all (an empty or closed bucket file) sets [failbit]. *)
Definition copy_rdbuf (out : ofstream) (f : fstream) : ofstream :=
  if failbit out then out
  else match (if is_open f then contents f else []) with
       | [] => {| written := written out; failbit := true |}
       | c => {| written := written out ++ c; failbit := false |}
       end.

Definition key_le (x y : Z * option fstream) : Prop := x.1 ≤ y.1.
#[global] Instance key_le_dec x y : Decision (key_le x y) := Z_le_dec _ _.

(** [buckets->begin()] to [buckets->end()]: ascending keys. *)
Definition entries (buckets : BucketFileMap) : list (Z * option fstream) :=
  merge_sort key_le (map_to_list buckets).

(** The [for] loop; [None] when a null pointer is dereferenced. *)
Fixpoint serialize_loop (its : list (Z * option fstream)) (out : ofstream)
    (buckets : BucketFileMap) : option (ofstream * BucketFileMap) :=
  match its with
  | [] => Some (out, buckets)
  | (_, None) :: _ => None
  | (level, Some f) :: rest =>
      (* close(); delete; itr->second = nullptr *)
      serialize_loop rest (copy_rdbuf out f) (<[level := None]> buckets)
  end.

(** [create_ok]: whether [serialized_diff] can be created.  The result is
    the return value, the bucket map afterwards and the contents of
    [serialized_diff] when it was created. *)
Definition SerializeBuckets (create_ok : bool) (buckets : BucketFileMap)
  : outcome bool * BucketFileMap * option (list string) :=
  if negb create_ok then (Returned false, buckets, None)
  else match serialize_loop (entries buckets) {| written := []; failbit := false |} buckets with
       | Some (out, buckets') => (Returned true, buckets', Some (written out))
       | None => (Undefined, buckets, None)
       end.

End Serializer.

(** ** The JSON value tree of [json_writer.h] *)

#[local] Set Warnings "-register-all".
Inductive JsonObject :=
| JsonNumber (val : Z)
| JsonBool (val : bool)
| JsonString (val : string)
| JsonMap (entries : list (string * JsonObject))   (* ascending keys *)
| JsonArray (items : list JsonObject).

Module Json.

(** [std::map::insert]: the entries stay sorted by key, and an entry
    whose key is already there is not replaced. *)
Fixpoint insert (key : string) (val : JsonObject) (m : list (string * JsonObject))
  : list (string * JsonObject) :=
  match m with
  | [] => [(key, val)]
  | (k, v) :: rest =>
      match String.compare key k with
      | Lt => (key, val) :: m
      | Eq => m
      | Gt => (k, v) :: insert key val rest
      end
  end.

(** [JsonMap::Add] *)
Definition Add (key : string) (val : JsonObject) (m : list (string * JsonObject)) :=
  insert key val m.

Fixpoint get (key : string) (m : list (string * JsonObject)) : option JsonObject :=
  match m with
  | [] => None
  | (k, v) :: rest => if String.eqb key k then Some v else get key rest
  end.

(** The field of an event; [None] when the value is not a map or has no
    such key. *)
Definition field (key : string) (o : JsonObject) : option JsonObject :=
  match o with
  | JsonMap m => get key m
  | _ => None
  end.

(** A value of type [const char*]. *)
Inductive c_str :=
| null
| literal (s : string).

(** The conversion of a pointer to [bool]: [JsonBool] has one constructor,
    taking a [bool], so a string literal handed to it is converted. *)
Definition bool_of_c_str (p : c_str) : bool :=
  match p with
  | null => false
  | literal _ => true
  end.

End Json.

(** ** Event Mapper: [MakeStatsJsonMap] and [GenerateJSON] *)

Record timespec := mk_timespec { tv_sec : Z; tv_nsec : Z }.

Record stat := mk_stat
  { st_size : Z;
    st_atim : timespec;
    st_ctim : timespec;
    st_mtim : timespec }.

Module EventMapper.
Import Cxx Json.

Section Stage.
(** [lstat] on the live file system, whether the [k]-th JSON document
    can be created, and the directory of the snapshot. *)
Variable lstat : string -> option stat.
Variable json_open_ok : Z -> bool.
Variable snapDir : string.

Definition time_map (t : timespec) : JsonObject :=
  JsonMap (Add "sec" (JsonNumber (tv_sec t)) (Add "nsec" (JsonNumber (tv_nsec t)) [])).

(** [MakeStatsJsonMap]: the new entries of [diffItem] and the result. *)
Definition MakeStatsJsonMap (diffItem : list (string * JsonObject)) (path : string)
  : list (string * JsonObject) * bool :=
  let absPath := snapDir +:+ "/../../" +:+ path in
  match lstat absPath with
  | Some s =>
      (Add "path" (JsonString path)
         (Add "mtime" (time_map (st_mtim s))
            (Add "ctime" (time_map (st_ctim s))
               (Add "atime" (time_map (st_atim s))
                  (Add "size" (JsonNumber (st_size s)) diffItem)))), true)
  | None => (diffItem, false)
  end.

(** [new JsonBool(optype.find(c) != string::npos ? "true" : "false")] *)
Definition flag (optype : string) (c : ascii) : JsonObject :=
  JsonBool (bool_of_c_str
              (if negb (find optype c =? npos) then literal "true" else literal "false")).

(** [entrytype] and [optype] of the first token. *)
Definition split_op (op : string) : option (string * string) :=
  let split := int_of_size_t (find op "_") in
  match substr op 0 (size_t_of_int split),
        substr op (size_t_of_int (int_add split 1)) (Z.of_nat (String.length op)) with
  | Some entrytype, Some optype => Some (entrytype, optype)
  | _, _ => None
  end.

(** The body of the inner loop after [getline]: the item pushed to
    [diffItems], if any.  [diffLineList[i]] is not checked: an index
    out of range is undefined behaviour. *)
Definition map_line (diffLine : string) : outcome (option JsonObject) :=
  let diffLineList := tokens diffLine in
  match diffLineList !! 0%nat, diffLineList !! 1%nat with
  | Some op, Some path =>
      match split_op op with
      | None => Terminated
      | Some (entrytype, optype) =>
          if String.eqb entrytype "FILE" || String.eqb entrytype "DIR" then
            if String.eqb optype "DELETE" then
              Returned (Some (JsonMap
                (Add "path" (JsonString path)
                   (Add "object_type"
                      (JsonString (if String.eqb entrytype "FILE" then "file" else "dir"))
                      (Add "type" (JsonString "delete") [])))))
            else if String.eqb optype "RENAME" then
              match diffLineList !! 2%nat with
              | Some path_new =>
                  Returned (Some (JsonMap
                    (Add "path_new" (JsonString path_new)
                       (Add "path_old" (JsonString path)
                          (Add "type" (JsonString "rename") [])))))
              | None => Undefined
              end
            else
              let diffItem := fst (MakeStatsJsonMap [] path) in
              Returned (Some (JsonMap
                (Add "xattr" (flag optype "X")
                   (Add "stat" (flag optype "S")
                      (Add "modified" (flag optype "M")
                         (Add "created" (flag optype "C")
                            (Add "type"
                               (JsonString (if String.eqb entrytype "FILE"
                                            then "file" else "dir"))
                               diffItem)))))))
          else if String.eqb entrytype "SYM" then
            if String.eqb optype "DELETE" then
              match diffLineList !! 1%nat with
              | Some p =>
                  Returned (Some (JsonMap
                    (Add "path" (JsonString p)
                       (Add "object_type" (JsonString "symlink")
                          (Add "type" (JsonString "delete") [])))))
              | None => Undefined
              end
            else
              let diffItem := fst (MakeStatsJsonMap [] path) in
              let diffItem := Add "type" (JsonString "symlink") diffItem in
              if negb (find optype "C" =? npos) then
                match diffLineList !! 2%nat with
                | Some target =>
                    Returned (Some (JsonMap
                      (Add "stat" (flag optype "S")
                         (Add "target" (JsonString target)
                            (Add "created" (JsonBool true) diffItem)))))
                | None => Undefined
                end
              else
                Returned (Some (JsonMap
                  (Add "stat" (flag optype "S")
                     (Add "created" (JsonBool false) diffItem))))
          else Returned None
      end
  | _, _ => Undefined
  end.

(** The inner loop [while (diffItems.size() < 1000)]: the batch, the
    lines not yet read and the value of [done]. *)
Fixpoint fill_batch (lines : list string) (diffItems : list JsonObject)
  : outcome (list JsonObject * list string * bool) :=
  match lines with
  | [] =>
      if (length diffItems <? 1000)%nat then Returned (diffItems, [], true)
      else Returned (diffItems, [], false)
  | diffLine :: rest =>
      if (length diffItems <? 1000)%nat then
        match map_line diffLine with
        | Returned (Some item) => fill_batch rest (diffItems ++ [item])
        | Returned None => fill_batch rest diffItems
        | Terminated => Terminated
        | Undefined => Undefined
        end
      else Returned (diffItems, lines, false)
  end.

(** The outer loop [while (!done)].  A document is the value of
    [jsonFileCount] in its name and the array dumped into it. *)
Fixpoint batch_loop (fuel : nat) (lines : list string) (jsonFileCount : Z)
    (docs : list (Z * JsonObject)) : option (outcome bool * list (Z * JsonObject)) :=
  match fuel with
  | O => None
  | S fuel' =>
      match fill_batch lines [] with
      | Returned (diffItems, rest, done) =>
          if (0 <? length diffItems)%nat then
            if json_open_ok jsonFileCount then
              let docs' := docs ++ [(jsonFileCount, JsonArray diffItems)] in
              if done then Some (Returned true, docs')
              else batch_loop fuel' rest (int_add jsonFileCount 1) docs'
            else Some (Returned false, docs)
          else
            if done then Some (Returned true, docs)
            else batch_loop fuel' rest (int_add jsonFileCount 1) docs
      | Terminated => Some (Terminated, docs)
      | Undefined => Some (Undefined, docs)
      end
  end.

(** [serial_file]: the contents of [serialized_diff], [None] when it
    cannot be opened. *)
Definition GenerateJSON (serial_file : option string)
  : option (outcome bool * list (Z * JsonObject)) :=
  match serial_file with
  | None => Some (Returned false, [])
  | Some content =>
      let lines := getlines content in
      batch_loop (S (length lines)) lines 0 []
  end.
End Stage.
End EventMapper.

(* ===================================================================== *)
(** * Part II: properties                                                 *)
(* ===================================================================== *)

#[local] Set Warnings "-clear-no-such-hyp".

(** Introduce an equation between constructor terms and substitute it. *)
Ltac intro_inj :=
  let E := fresh "E" in intros E; inversion E; subst; clear E.

(** ** Facts about the stream primitives *)

Module CxxFacts.
Import Cxx.

Lemma append_cons x (a b : string) : String x a +:+ b = String x (a +:+ b).
Proof. reflexivity. Qed.

Lemma append_assoc (a b c : string) : (a +:+ b) +:+ c = a +:+ b +:+ c.
Proof.
  induction a as [|x a IH]; [reflexivity|].
  now rewrite !append_cons, IH.
Qed.

Lemma skipws_length s : (String.length (skipws s) ≤ String.length s)%nat.
Proof.
  induction s as [|c r IH]; simpl; [lia|].
  destruct (isspace c); simpl; lia.
Qed.

Lemma word_length s w t :
  word s = (w, t) → (String.length w + String.length t = String.length s)%nat.
Proof.
  revert w t. induction s as [|c r IH]; simpl; intros w t H.
  - injection H as <- <-. reflexivity.
  - destruct (isspace c).
    + injection H as <- <-. reflexivity.
    + destruct (word r) as [w' t'] eqn:E. injection H as <- <-.
      simpl. specialize (IH _ _ eq_refl). lia.
Qed.

Lemma skipws_head c r s : skipws s = String c r → isspace c = false.
Proof.
  induction s as [|d s IH]; simpl; [discriminate|].
  destruct (isspace d) eqn:E; [assumption|].
  intros [= -> ->]. exact E.
Qed.

(** The three ways [operator>>] can go. *)
Inductive extract_spec (ls : istringstream) (s : string)
  : istringstream * string → Prop :=
| extract_bad :
    good ls = false →
    extract_spec ls s ({| ibuf := ibuf ls; ieof := ieof ls; ifail := true |}, s)
| extract_blank :
    good ls = true → skipws (ibuf ls) = EmptyString →
    extract_spec ls s ({| ibuf := EmptyString; ieof := true; ifail := true |}, s)
| extract_word w t :
    good ls = true → word (skipws (ibuf ls)) = (w, t) →
    w ≠ EmptyString →
    (String.length t < String.length (ibuf ls))%nat →
    extract_spec ls s
      ({| ibuf := t; ieof := match t with EmptyString => true | _ => false end;
          ifail := false |}, w).

Lemma extract_cases ls s : extract_spec ls s (extract ls s).
Proof.
  unfold extract. destruct (good ls) eqn:Hg; [|now constructor].
  destruct (skipws (ibuf ls)) as [|c r] eqn:Hs; [now constructor|].
  destruct (word (String c r)) as [w t] eqn:Hw.
  pose proof (skipws_head _ _ _ Hs) as Hc.
  pose proof (skipws_length (ibuf ls)) as Hl. rewrite Hs in Hl.
  pose proof (word_length _ _ _ Hw) as Hwl.
  assert (w ≠ EmptyString).
  { simpl in Hw. rewrite Hc in Hw. destruct (word r). now injection Hw as <- <-. }
  apply extract_word; try assumption.
  - now rewrite Hs.
  - destruct w; [congruence|]. simpl in *. lia.
Qed.

(** One iteration of the token loop. *)
Lemma read_all_cons fuel ls s t r :
  (String.length (ibuf ls) < fuel)%nat →
  read_all fuel ls s = t :: r →
  ∃ ls' fuel',
    fuel = S fuel' ∧ extract ls s = (ls', t) ∧ ifail ls' = false ∧
    (String.length (ibuf ls') < fuel')%nat ∧ read_all fuel' ls' t = r.
Proof.
  intros Hf H. destruct fuel as [|fuel]; [discriminate|]. simpl in H.
  destruct (extract_cases ls s) as [| |w u Hg Hw Hne Hlen]; simpl in H; try discriminate.
  injection H as <- <-. eexists _, fuel. repeat split; simpl; lia.
Qed.

(** More fuel than characters left is always enough. *)
Lemma read_all_fuel f1 : ∀ f2 ls s,
  (String.length (ibuf ls) < f1)%nat → (String.length (ibuf ls) < f2)%nat →
  read_all f1 ls s = read_all f2 ls s.
Proof.
  induction f1 as [|f1 IH]; intros f2 ls s H1 H2; [lia|].
  destruct f2 as [|f2]; [lia|]. simpl.
  destruct (extract_cases ls s) as [| |w u Hg Hw Hne Hlen]; simpl; try reflexivity.
  f_equal. apply IH; simpl; lia.
Qed.

(** The fuel given to the token loop in [tokens] is enough: more fuel
    gives the same tokens. *)
Lemma tokens_fuel line fuel :
  (String.length line < fuel)%nat →
  read_all fuel (iss line) EmptyString = tokens line.
Proof. intros H. apply read_all_fuel; simpl; lia. Qed.

(** Tokens are not empty and hold no white space, in particular no tab. *)
Lemma word_no_space s w t c :
  word s = (w, t) → In c (list_ascii_of_string w) → isspace c = false.
Proof.
  revert w t. induction s as [|d r IH]; simpl; intros w t H Hin.
  - injection H as <- <-. destruct Hin.
  - destruct (isspace d) eqn:E.
    + injection H as <- <-. destruct Hin.
    + destruct (word r) as [w' t'] eqn:Ew. injection H as <- <-.
      simpl in Hin. destruct Hin as [<-|Hin]; [exact E | eauto].
Qed.

Lemma read_all_tokens_ok fuel : ∀ ls s t,
  In t (read_all fuel ls s) →
  t ≠ EmptyString ∧ ∀ c, In c (list_ascii_of_string t) → isspace c = false.
Proof.
  induction fuel as [|fuel IH]; intros ls s t Hin; [destruct Hin|].
  simpl in Hin.
  destruct (extract_cases ls s) as [| |w u Hg Hw Hne Hlen]; simpl in Hin;
    try destruct Hin.
  - subst t. split; [exact Hne|]. intros c. eapply word_no_space; eauto.
  - eapply IH; eauto.
Qed.

Lemma tokens_ok line t :
  In t (tokens line) →
  t ≠ EmptyString ∧ ∀ c, In c (list_ascii_of_string t) → isspace c = false.
Proof. apply read_all_tokens_ok. Qed.

End CxxFacts.

(** ** Stream Reader *)

Module StreamReaderFacts.
Import StreamReader.

Lemma open_loop_decisive try_open k : ∀ fuel numRetries calls,
  (k < fuel)%nat →
  numRetries + Z.of_nat k ≤ MAX_RETRIES →
  (∀ j, (j < k)%nat → try_open (calls + j)%nat = OpenFailed ENOENT) →
  try_open (calls + k)%nat ≠ OpenFailed ENOENT ∨ numRetries + Z.of_nat k = MAX_RETRIES →
  open_loop try_open fuel numRetries calls =
    Some (match try_open (calls + k)%nat with Opened => true | _ => false end,
          S (calls + k)).
Proof.
  induction k as [|k IH]; intros fuel n calls Hf Hn Hpre Hk;
    (destruct fuel as [|fuel]; [lia|]); simpl.
  - rewrite Nat.add_0_r in *.
    destruct (try_open calls) as [|e] eqn:E; [reflexivity|].
    destruct (Z.eqb_spec e ENOENT) as [->|Hne]; simpl; [|reflexivity].
    destruct Hk as [Hk|Hk]; [congruence|].
    replace (n <? MAX_RETRIES) with false by (symmetry; apply Z.ltb_ge; lia).
    reflexivity.
  - assert (E0 : try_open calls = OpenFailed ENOENT).
    { rewrite <- (Nat.add_0_r calls). apply Hpre. lia. }
    rewrite E0. simpl.
    replace (n <? MAX_RETRIES) with true by (symmetry; apply Z.ltb_lt; lia).
    rewrite <- Nat.add_succ_comm. apply IH; try lia.
    + intros j Hj. rewrite Nat.add_succ_comm. apply Hpre. lia.
    + rewrite Nat.add_succ_comm.
      destruct Hk as [Hk|Hk]; [left; exact Hk | right; lia].
Qed.

Lemma OpenStreamUnreliable_total try_open : is_Some (OpenStreamUnreliable try_open).
Proof.
  unfold OpenStreamUnreliable.
  assert (H : ∀ fuel n calls,
             0 ≤ n → (Z.to_nat (MAX_RETRIES - n) < fuel)%nat →
             is_Some (open_loop try_open fuel n calls)).
  { induction fuel as [|fuel IH]; intros n calls Hn Hf; [lia|]. simpl.
    destruct (try_open calls) as [|e]; [eauto|].
    destruct (negb (e =? ENOENT)); [eauto|].
    destruct (Z.ltb_spec n MAX_RETRIES); [|eauto].
    apply IH; [lia|]. unfold MAX_RETRIES in *. lia. }
  destruct (H (S (Z.to_nat MAX_RETRIES)) 0 0%nat) as [[o c] ->];
    [lia | unfold MAX_RETRIES; simpl; lia | eauto].
Qed.

(** C4 (as amended): the page open makes at most eleven [open] calls, the
    first attempt and [MAX_RETRIES] = 10 retries.  If the attempts before
    attempt [k] (counted from 0, [k <= 10]) all fail with [ENOENT], and
    attempt [k] either does not fail with [ENOENT] or is the eleventh,
    then the function returns right after attempt [k], with 0 if it
    opened the page and 1 otherwise.  So not-found on every attempt fails
    after exactly 11 attempts, and any other failure fails at once. *)
Theorem open_retry_bound (try_open : nat → open_result) (k : nat) :
  (k ≤ 10)%nat →
  (∀ j, (j < k)%nat → try_open j = OpenFailed ENOENT) →
  try_open k ≠ OpenFailed ENOENT ∨ k = 10%nat →
  OpenStreamUnreliable try_open =
    Some (match try_open k with Opened => 0 | OpenFailed _ => 1 end, S k).
Proof.
  intros Hk Hpre Hdec. unfold OpenStreamUnreliable.
  rewrite (open_loop_decisive try_open k); simpl; try assumption.
  - destruct (try_open k); reflexivity.
  - unfold MAX_RETRIES; simpl; lia.
  - unfold MAX_RETRIES; lia.
  - destruct Hdec; [left; assumption | right; unfold MAX_RETRIES; lia].
Qed.

Lemma open_retry_bound_witness :
  OpenStreamUnreliable (fun _ => OpenFailed ENOENT) = Some (1, 11%nat) ∧
  OpenStreamUnreliable (fun j => if (j <? 3)%nat then OpenFailed ENOENT else OpenFailed 13)
    = Some (1, 4%nat).
Proof.
  split.
  - apply (open_retry_bound (fun _ => OpenFailed ENOENT) 10);
      [lia | reflexivity | right; reflexivity].
  - apply (open_retry_bound
             (fun j => if (j <? 3)%nat then OpenFailed ENOENT else OpenFailed 13) 3).
    + lia.
    + intros j Hj. destruct j as [|[|[|j]]]; [reflexivity..|lia].
    + left. simpl. discriminate.
Defined.

(** Not-found on every attempt: the page open has not failed after ten
    attempts; an eleventh attempt is made, and if the page is there by
    then the open succeeds. *)
Lemma open_ten_attempts_counterexample :
  OpenStreamUnreliable (fun _ => OpenFailed ENOENT) ≠ Some (1, 10%nat) ∧
  OpenStreamUnreliable (fun j => if (j <? 10)%nat then OpenFailed ENOENT else Opened)
    = Some (0, 11%nat).
Proof. split; [discriminate | reflexivity]. Qed.

End StreamReaderFacts.

(** ** Pagination Driver *)

(** A file made of the given lines, each one ended by a newline. *)
Definition unlines (lines : list string) : string :=
  fold_right (fun l acc => l +:+ String Cxx.newline acc) EmptyString lines.

Module PaginationFacts.
Import Cxx CxxFacts Pagination.

(** On a line with at least three tokens the loop of three extractions
    leaves the third token in [s] and the second one in [currCookie]. *)
Lemma read3_tokens line t1 t2 t3 rest :
  tokens line = t1 :: t2 :: t3 :: rest →
  read3 3 (iss line) EmptyString EmptyString = (t3, t2).
Proof.
  unfold tokens. intros H.
  apply read_all_cons in H as (l1 & f1 & _ & E1 & _ & L1 & H); [|simpl; lia].
  apply read_all_cons in H as (l2 & f2 & _ & E2 & _ & L2 & H); [|assumption].
  apply read_all_cons in H as (l3 & f3 & _ & E3 & _ & L3 & H); [|assumption].
  simpl. now rewrite E1, E2, E3.
Qed.

(** A line that carries a record: three tokens at least, the third of
    which is no sentinel. *)
Definition record_line (line : string) : Prop :=
  ∃ t1 t2 t3 rest,
    tokens line = t1 :: t2 :: t3 :: rest ∧ t3 ≠ "EOB" ∧ t3 ≠ "EOF".

Definition set_cookie (v : state) (c : string) : state :=
  {| startPoint := c; readNum := readNum v; eof := eof v;
     numRetryReads := numRetryReads v |}.

Lemma scan_line_record st line t1 t2 t3 rest :
  tokens line = t1 :: t2 :: t3 :: rest → t3 ≠ "EOB" → t3 ≠ "EOF" →
  scan_line st line =
    {| vars := set_cookie (vars st) t2; localFile_open := localFile_open st |}.
Proof.
  intros H Hb Hf. unfold scan_line. rewrite (read3_tokens _ _ _ _ _ H).
  apply String.eqb_neq in Hb, Hf. now rewrite Hb, Hf.
Qed.

Lemma scan_line_EOB st line t1 t2 rest :
  tokens line = t1 :: t2 :: "EOB" :: rest →
  scan_line st line =
    {| vars := {| startPoint := startPoint (vars st);
                  readNum := int_add (readNum (vars st)) 1;
                  eof := eof (vars st);
                  numRetryReads := numRetryReads (vars st) |};
       localFile_open := false |}.
Proof.
  intros H. unfold scan_line. now rewrite (read3_tokens _ _ _ _ _ H).
Qed.

Lemma scan_lines_records pre : ∀ st rest,
  Forall record_line pre → localFile_open st = true →
  ∃ st', scan_lines st (pre ++ rest) = scan_lines st' rest ∧
         localFile_open st' = true ∧
         readNum (vars st') = readNum (vars st) ∧
         eof (vars st') = eof (vars st) ∧
         numRetryReads (vars st') = numRetryReads (vars st).
Proof.
  induction pre as [|l pre IH]; intros st rest Hall Ho.
  - exists st. now repeat split.
  - inversion Hall as [|? ? (t1 & t2 & t3 & r & Ht & Hb & Hf) Hall']; subst.
    simpl. rewrite Ho, (scan_line_record st l _ _ _ _ Ht Hb Hf).
    destruct (IH {| vars := set_cookie (vars st) t2;
                    localFile_open := localFile_open st |} rest Hall' Ho)
      as (st' & E & ? & ? & ? & ?).
    exists st'. now repeat split.
Qed.

(** C8 (as amended): a line whose third token is no sentinel sets the
    running cookie to its second token, and a line whose third token is
    [EOB] leaves the cookie alone and ends the page.  So when the lines of
    a page up to the first sentinel are records, the last of them having
    [c] as second token, and the sentinel is [EOB], the next iteration
    requests the page addressed by [c], with one more page counted. *)
Theorem next_page_cookie (st : state) (io : page_io)
    (pre post : list string) (d e t1 c t3 u1 u2 : string) (rest urest : list string) :
  (∃ calls, StreamReader.OpenStreamUnreliable (opens io) = Some (0, calls)) →
  local_ok io = true → statusBad io = false →
  getlines (data io) = pre ++ d :: e :: post →
  Forall record_line pre →
  tokens d = t1 :: c :: t3 :: rest → t3 ≠ "EOB" → t3 ≠ "EOF" →
  tokens e = u1 :: u2 :: "EOB" :: urest →
  scan_line {| vars := st; localFile_open := true |} d
    = {| vars := set_cookie st c; localFile_open := true |} ∧
  read_page st io =
    Again {| startPoint := c; readNum := int_add (readNum st) 1;
             eof := eof st; numRetryReads := numRetryReads st |}.
Proof.
  intros [calls Ho] Hl Hb Hlines Hpre Hd Hd1 Hd2 He. split.
  - now rewrite (scan_line_record _ d _ _ _ _ Hd Hd1 Hd2).
  - unfold read_page. rewrite Ho, Hl, Hb.
    simpl. rewrite Hlines.
    destruct (scan_lines_records pre {| vars := st; localFile_open := true |}
                (d :: e :: post) Hpre eq_refl) as (st' & -> & Hop & Hr & Hf & Hn).
    simpl. rewrite Hop, (scan_line_record st' d _ _ _ _ Hd Hd1 Hd2). simpl.
    rewrite Hop, (scan_line_EOB _ e _ _ _ He). simpl.
    destruct post; simpl; now rewrite Hr, Hf, Hn.
Qed.

Definition sample_page : page_io :=
  {| opens := fun _ => Opened; local_ok := true;
     data := unlines ["3 ck7 FILE_RENAME /a /b"; "0 ck9 EOB"];
     statusBad := false |}.

Lemma next_page_cookie_witness :
  read_page (initial) sample_page =
    Again {| startPoint := "ck7"; readNum := 1; eof := false; numRetryReads := 0 |}.
Proof.
  refine (proj2 (next_page_cookie initial sample_page [] [] "3 ck7 FILE_RENAME /a /b"
                   "0 ck9 EOB" "3" "ck7" "FILE_RENAME" "0" "ck9" ["/a"; "/b"] []
                   _ _ _ _ _ _ _ _ _));
    try reflexivity; try discriminate; try (now constructor).
  exists 1%nat. reflexivity.
Defined.

(** On the page made of the lines [3 ck7 FILE_RENAME /a /b] and
    [0 ck9 EOB] the next page is addressed by [ck7].  That value is not
    in the last parsed line, in which the sentinel is the third token and
    nothing stands three tokens before it; and reading the two lines as
    one token sequence, the token three places before the sentinel is
    [/b]. *)
Lemma cookie_three_before_counterexample :
  let parsed := getlines (data sample_page) in
  let stream_tokens := concat (map tokens parsed) in
  read_page initial sample_page =
    Again {| startPoint := "ck7"; readNum := 1; eof := false; numRetryReads := 0 |} ∧
  last parsed = Some "0 ck9 EOB" ∧
  tokens "0 ck9 EOB" = ["0"; "ck9"; "EOB"] ∧
  ¬ In "ck7" (tokens "0 ck9 EOB") ∧
  stream_tokens !! 7%nat = Some "EOB" ∧
  stream_tokens !! (7 - 3)%nat = Some "/b" ∧
  "/b" ≠ "ck7".
Proof.
  repeat split; try reflexivity; try discriminate.
  vm_compute. intros [H|[H|[H|[]]]]; discriminate.
Qed.

End PaginationFacts.

(** ** Bucketizer *)

Module BucketizerFacts.
Import Cxx CxxFacts Bucketizer.

(** *** The words of the design document *)

(** Tokens joined by tabs. *)
Fixpoint tab_join (toks : list string) : string :=
  match toks with
  | [] => EmptyString
  | t :: ts =>
      match ts with
      | [] => t
      | _ :: _ => t +:+ String tab EmptyString +:+ tab_join ts
      end
  end.

(** The payload of a raw line: its tokens after level and objectId,
    joined by tabs. *)
Definition payload (line : string) : string := tab_join (drop 2 (tokens line)).

Definition sentinel (str : string) : Prop := str = "EOB" ∨ str = "EOF".

(** The lines of a raw file before its first sentinel line. *)
Fixpoint before_sentinel (lines : list string) : list string :=
  match lines with
  | [] => []
  | l :: rest =>
      if String.eqb (payload l) "EOB" || String.eqb (payload l) "EOF" then []
      else l :: before_sentinel rest
  end.

(** The lines of a raw file up to its first sentinel line, included. *)
Fixpoint upto_sentinel (lines : list string) : list string :=
  match lines with
  | [] => []
  | l :: rest =>
      if String.eqb (payload l) "EOB" || String.eqb (payload l) "EOF" then [l]
      else l :: upto_sentinel rest
  end.

(** A record line: a level that [stoi] reads, an objectId and a payload. *)
Definition well_formed (line : string) : Prop :=
  ∃ t1 t2 t3 rest n, tokens line = t1 :: t2 :: t3 :: rest ∧ stoi t1 = Some n.

(** *** What the body of the line loop computes *)

(** The normalized level of a line; [None] when [stoi] throws. *)
Definition line_level (line : string) : option Z :=
  match stoi (extract (iss line) EmptyString).2 with
  | Some n => Some (int_add n 513)
  | None => None
  end.

(** The reconstructed line [outputLine.str()]. *)
Definition line_str (line : string) : string :=
  let '(l1, s1) := extract (iss line) EmptyString in
  let '(l2, s2) := extract l1 s1 in
  let '(l3, s3) := extract l2 s2 in
  output_line l3 s3.

Definition is_sentinel (str : string) : bool :=
  String.eqb str "EOB" || String.eqb str "EOF".

(** The bucket map once the bucket of [level] is there; [None] when its
    file cannot be created. *)
Definition ensure (bucket_open_ok : Z → bool) (buckets : BucketFileMap) (level : Z)
  : option BucketFileMap :=
  if bool_decide (is_Some (buckets !! level)) then Some buckets
  else if bucket_open_ok level
       then Some (<[level := Some {| is_open := true; contents := [] |}]> buckets)
       else None.

Lemma bucketize_line_eq ok (b : BucketFileMap) line :
  bucketize_line ok b line =
    match line_level line with
    | None => (Halt Uncaught, b)
    | Some level =>
        match ensure ok b level with
        | None => (Halt ReturnFalse, b)
        | Some b1 =>
            if is_sentinel (line_str line) then (SeekEnd, b1)
            else match write_line b1 level (line_str line) with
                 | Some b2 => (NextLine, b2)
                 | None => (Halt NullDeref, b1)
                 end
        end
    end.
Proof.
  unfold bucketize_line, line_level, line_str, ensure, is_sentinel.
  destruct (extract (iss line) EmptyString) as [l1 s1]; simpl.
  destruct (stoi s1) as [n|]; [|reflexivity].
  destruct (extract l1 s1) as [l2 s2].
  destruct (bool_decide (is_Some (b !! int_add n 513))), (ok (int_add n 513));
    simpl; try reflexivity;
    destruct (extract l2 s2) as [l3 s3];
    destruct (String.eqb (output_line l3 s3) "EOB"),
             (String.eqb (output_line l3 s3) "EOF"); reflexivity.
Qed.

Lemma is_sentinel_spec str : is_sentinel str = true ↔ sentinel str.
Proof.
  unfold is_sentinel, sentinel. rewrite orb_true_iff, !String.eqb_eq. tauto.
Qed.

(** *** The reconstructed line and the payload *)

Lemma tab_join_prefix a b r : tab_join ((a +:+ b) :: r) = a +:+ tab_join (b :: r).
Proof. destruct r; simpl; [reflexivity | apply append_assoc]. Qed.

Lemma fold_tab_join rest : ∀ s,
  fold_left (fun acc t => acc +:+ String tab EmptyString +:+ t) rest s
  = tab_join (s :: rest).
Proof.
  induction rest as [|t r IH]; intros s; [reflexivity|].
  simpl fold_left. rewrite IH, !tab_join_prefix. reflexivity.
Qed.

Lemma line_parts line t1 t2 t3 rest :
  tokens line = t1 :: t2 :: t3 :: rest →
  (extract (iss line) EmptyString).2 = t1 ∧ line_str line = tab_join (t3 :: rest).
Proof.
  unfold tokens, line_str. intros H.
  apply read_all_cons in H as (l1 & f1 & _ & E1 & _ & L1 & H); [|simpl; lia].
  apply read_all_cons in H as (l2 & f2 & _ & E2 & _ & L2 & H); [|assumption].
  apply read_all_cons in H as (l3 & f3 & _ & E3 & _ & L3 & H); [|assumption].
  rewrite E1, E2, E3. split; [reflexivity|].
  unfold output_line, read_rest. rewrite (read_all_fuel _ f3) by lia.
  rewrite H. apply fold_tab_join.
Qed.

Lemma line_str_payload line :
  (3 ≤ length (tokens line))%nat → line_str line = payload line.
Proof.
  intros H. unfold payload.
  destruct (tokens line) as [|t1 [|t2 [|t3 rest]]] eqn:E; simpl in H; try lia.
  now destruct (line_parts _ _ _ _ _ E) as [_ ->].
Qed.

Lemma sentinel_payload_line_str line :
  sentinel (payload line) → line_str line = payload line.
Proof.
  intros H. apply line_str_payload. unfold payload in H.
  destruct (tokens line) as [|t1 [|t2 [|t3 rest]]]; simpl; try lia;
    destruct H as [H|H]; discriminate H.
Qed.

Lemma well_formed_level line :
  well_formed line → is_Some (line_level line) ∧ line_str line = payload line.
Proof.
  intros (t1 & t2 & t3 & rest & n & Ht & Hn). split.
  - unfold line_level. destruct (line_parts _ _ _ _ _ Ht) as [-> _].
    rewrite Hn. eauto.
  - apply line_str_payload. rewrite Ht. simpl. lia.
Qed.

(** *** Invariants of the bucket map *)

(** Every pointer in the map points to an open stream. *)
Definition live (b : BucketFileMap) : Prop :=
  ∀ level p, b !! level = Some p → ∃ f, p = Some f ∧ is_open f = true.

(** No bucket file holds a sentinel. *)
Definition clean (b : BucketFileMap) : Prop :=
  ∀ level r, r ∈ bucket_lines b level → ¬ sentinel r.

Lemma bucket_lines_insert (b : BucketFileMap) level f level' :
  bucket_lines (<[level := Some f]> b) level' =
    if decide (level = level') then contents f else bucket_lines b level'.
Proof. unfold bucket_lines. rewrite lookup_insert. now case_decide. Qed.

Lemma all_bucket_lines_insert_new (b : BucketFileMap) level f :
  b !! level = None →
  all_bucket_lines (<[level := Some f]> b) ≡ₚ contents f ++ all_bucket_lines b.
Proof.
  intros H. unfold all_bucket_lines. now rewrite (map_to_list_insert _ _ _ H).
Qed.

Lemma all_bucket_lines_append (b : BucketFileMap) level f o extra :
  b !! level = Some (Some f) →
  all_bucket_lines
    (<[level := Some {| is_open := o; contents := contents f ++ extra |}]> b)
    ≡ₚ all_bucket_lines b ++ extra.
Proof.
  intros H. unfold all_bucket_lines.
  rewrite <- (map_to_list_delete b level (Some f) H).
  rewrite <- insert_delete_eq.
  rewrite map_to_list_insert by apply lookup_delete_eq.
  simpl. rewrite <- !app_assoc.
  apply Permutation_app_head, Permutation_app_comm.
Qed.

Lemma ensure_Some ok (b b1 : BucketFileMap) level :
  ensure ok b level = Some b1 →
  (∀ level', bucket_lines b1 level' = bucket_lines b level') ∧
  dom b1 = dom b ∪ {[level]} ∧
  (b !! level = None →
   b1 !! level = Some (Some {| is_open := true; contents := [] |})) ∧
  (live b → live b1) ∧
  all_bucket_lines b1 ≡ₚ all_bucket_lines b.
Proof.
  unfold ensure. case_bool_decide as Hp.
  - intro_inj. repeat split; auto.
    + apply elem_of_dom in Hp. set_solver.
    + intros Hn. rewrite Hn in Hp. now destruct Hp.
  - destruct (ok level); [|discriminate]. intro_inj.
    assert (Hn : b !! level = None) by now apply eq_None_not_Some.
    repeat split.
    + intros level'. rewrite bucket_lines_insert. case_decide; [|reflexivity].
      subst. unfold bucket_lines. now rewrite Hn.
    + rewrite dom_insert_L. set_solver.
    + intros _. apply lookup_insert_eq.
    + intros Hl L p. rewrite lookup_insert. case_decide; [|apply Hl].
      intro_inj. eauto.
    + now rewrite all_bucket_lines_insert_new.
Qed.

Lemma write_line_Some (b1 b2 : BucketFileMap) level str :
  write_line b1 level str = Some b2 →
  dom b2 = dom b1 ∧
  (∀ level' r, r ∈ bucket_lines b2 level' → r ∈ bucket_lines b1 level' ∨ r = str) ∧
  (live b1 →
   live b2 ∧
   (∀ level', bucket_lines b2 level' =
                if decide (level = level') then bucket_lines b1 level ++ [str]
                else bucket_lines b1 level') ∧
   all_bucket_lines b2 ≡ₚ all_bucket_lines b1 ++ [str]).
Proof.
  unfold write_line. destruct (b1 !! level) as [[f|]|] eqn:E; try discriminate.
  intro_inj. split; [|split].
  - rewrite dom_insert_L. apply elem_of_dom_2 in E. set_solver.
  - intros level' r. rewrite bucket_lines_insert. case_decide; [|auto].
    subst level'. unfold bucket_lines. rewrite E.
    destruct (is_open f); simpl; [|auto].
    rewrite elem_of_app, list_elem_of_singleton. auto.
  - intros Hl. destruct (Hl _ _ E) as (f0 & [= <-] & Ho). rewrite Ho.
    split; [|split].
    + intros L p. rewrite lookup_insert. case_decide; [|apply Hl].
      intro_inj. eauto.
    + intros level'. rewrite bucket_lines_insert. simpl.
      case_decide; [|reflexivity]. unfold bucket_lines. now rewrite E.
    + now apply all_bucket_lines_append.
Qed.

Lemma write_line_live (b1 : BucketFileMap) level str :
  live b1 → is_Some (b1 !! level) → is_Some (write_line b1 level str).
Proof.
  intros Hl [p Hp]. destruct (Hl _ _ Hp) as (f & -> & _).
  unfold write_line. rewrite Hp. eauto.
Qed.

(** What one line does to the bucket files, whatever the line. *)
Lemma bucketize_line_step ok (b : BucketFileMap) line :
  ∃ c b', bucketize_line ok b line = (c, b') ∧
    (is_sentinel (line_str line) = true →
       c ≠ NextLine ∧ ∀ level, bucket_lines b' level = bucket_lines b level) ∧
    (∀ level r, r ∈ bucket_lines b' level →
       r ∈ bucket_lines b level ∨ (r = line_str line ∧ is_sentinel r = false)).
Proof.
  rewrite bucketize_line_eq.
  destruct (line_level line) as [level|].
  2:{ eexists _, _. split; [reflexivity|]. split; [now split | auto]. }
  destruct (ensure ok b level) as [b1|] eqn:E.
  2:{ eexists _, _. split; [reflexivity|]. split; [now split | auto]. }
  destruct (ensure_Some _ _ _ _ E) as (Hsame & _).
  destruct (is_sentinel (line_str line)) eqn:S.
  { eexists _, _. split; [reflexivity|]. split; [now split|].
    intros L r. rewrite Hsame. auto. }
  destruct (write_line b1 level (line_str line)) as [b2|] eqn:W.
  - eexists _, _. split; [reflexivity|]. split; [discriminate|].
    intros L r Hr. destruct (write_line_Some _ _ _ _ W) as (_ & Hin & _).
    destruct (Hin _ _ Hr) as [H| ->]; [left; now rewrite <- Hsame | right; auto].
  - eexists _, _. split; [reflexivity|]. split; [discriminate|].
    intros L r. rewrite Hsame. auto.
Qed.

Lemma clean_step ok (b : BucketFileMap) line :
  clean b → clean (bucketize_line ok b line).2.
Proof.
  intros Hc. destruct (bucketize_line_step ok b line) as (c & b' & -> & _ & Hin).
  intros L r Hr. destruct (Hin _ _ Hr) as [H|[-> H]]; [eauto|].
  rewrite <- is_sentinel_spec. now rewrite H.
Qed.

Lemma clean_lines ok lines : ∀ b : BucketFileMap,
  clean b → clean (bucketize_lines ok b lines).2.
Proof.
  induction lines as [|l lines IH]; intros b Hc; [exact Hc|].
  simpl. pose proof (clean_step ok b l Hc) as H.
  destruct (bucketize_line ok b l) as [[| |h] b']; simpl in *; auto.
Qed.

Lemma clean_files ok files : ∀ b : BucketFileMap,
  clean b → clean (bucketize_files ok b files).2.
Proof.
  induction files as [|[content|] files IH]; intros b Hc; try exact Hc.
  simpl. pose proof (clean_lines ok (getlines content) b Hc) as H.
  destruct (bucketize_lines ok b (getlines content)) as [[h|] b']; simpl in *; auto.
Qed.

Lemma clean_BucketizeDiff mk ok raw readNum :
  clean (BucketizeDiff mk ok raw ∅ readNum).2.
Proof.
  assert (H0 : clean ∅).
  { intros L r. unfold bucket_lines. rewrite lookup_empty. now rewrite elem_of_nil. }
  unfold BucketizeDiff. destruct (negb (mk =? 0)); [exact H0|].
  pose proof (clean_files ok (map raw (seq 0 (Z.to_nat readNum))) ∅ H0) as H.
  destruct (bucketize_files _ _ _) as [[[| |]|] b']; exact H.
Qed.

(** C5: in a raw file, a line whose payload (the tokens after level and
    objectId, joined by tabs) is exactly [EOB] or [EOF] ends the processing
    of the file, so the lines after it are not bucketed, and it leaves the
    lines of every bucket file as they were before it; moreover no run of
    the Bucketizer ever leaves [EOB] or [EOF] as a line of a bucket file. *)
Theorem sentinel_line_dropped ok (b : BucketFileMap) (pre post : list string) (l : string) :
  sentinel (payload l) →
  bucketize_lines ok b (pre ++ l :: post) = bucketize_lines ok b (pre ++ [l]) ∧
  (∀ level, bucket_lines (bucketize_lines ok b (pre ++ l :: post)).2 level
            = bucket_lines (bucketize_lines ok b pre).2 level) ∧
  (∀ mk raw readNum level r,
     r ∈ bucket_lines (BucketizeDiff mk ok raw ∅ readNum).2 level → ¬ sentinel r).
Proof.
  intros Hs. pose proof (sentinel_payload_line_str l Hs) as Hstr.
  assert (S : is_sentinel (line_str l) = true)
    by (apply is_sentinel_spec; now rewrite Hstr).
  split; [|split].
  - revert b. induction pre as [|x pre IH]; intros b; simpl.
    + destruct (bucketize_line_step ok b l) as (c & b' & -> & Hc & _).
      destruct (Hc S) as [Hn _]. destruct c; [congruence|reflexivity..].
    + destruct (bucketize_line ok b x) as [[| |h] b']; auto.
  - revert b. induction pre as [|x pre IH]; intros b level; simpl.
    + destruct (bucketize_line_step ok b l) as (c & b' & -> & Hc & _).
      destruct (Hc S) as [Hn Hsame]. destruct c; [congruence|apply Hsame..].
    + destruct (bucketize_line ok b x) as [[| |h] b']; auto.
  - intros mk raw readNum. apply clean_BucketizeDiff.
Qed.

Definition sample_raw : list string :=
  ["1 o1 FILE_C /a"; "0 c EOB"; "2 o2 FILE_C /a/b"].

Lemma sentinel_line_dropped_witness :
  bucketize_lines (fun _ => true) ∅ sample_raw
  = bucketize_lines (fun _ => true) ∅ ["1 o1 FILE_C /a"; "0 c EOB"] ∧
  bucket_lines (bucketize_lines (fun _ => true) ∅ sample_raw).2 513 = [] ∧
  bucket_lines (bucketize_lines (fun _ => true) ∅ sample_raw).2 514
  = [tab_join ["FILE_C"; "/a"]].
Proof.
  destruct (sentinel_line_dropped (fun _ => true) ∅ ["1 o1 FILE_C /a"]
              ["2 o2 FILE_C /a/b"] "0 c EOB") as (H1 & H2 & _).
  - left. reflexivity.
  - split; [exact H1|]. split; [exact (H2 513) | exact (H2 514)].
Defined.

(** *** One bucket per level *)

#[local] Arguments line_level : simpl never.
#[local] Arguments line_str : simpl never.
#[local] Arguments is_sentinel : simpl never.
#[local] Arguments payload : simpl never.
#[local] Arguments bucketize_line : simpl never.

(** The lines of a raw file that the line loop reads: those up to the
    first one whose reconstructed line is a sentinel, included. *)
Fixpoint consumed (lines : list string) : list string :=
  match lines with
  | [] => []
  | l :: rest => if is_sentinel (line_str l) then [l] else l :: consumed rest
  end.

(** The normalized levels of the lines read in a sequence of raw files. *)
Definition levels_seen (files : list (option string)) : list Z :=
  files ≫= (fun file =>
    match file with
    | Some content => omap line_level (consumed (getlines content))
    | None => []
    end).

Lemma lines_dom ok lines : ∀ b b' : BucketFileMap,
  bucketize_lines ok b lines = (None, b') →
  dom b' = dom b ∪ list_to_set (omap line_level (consumed lines)).
Proof.
  induction lines as [|l lines IH]; intros b b' H; simpl in *.
  - injection H as <-. set_solver.
  - rewrite bucketize_line_eq in H.
    destruct (line_level l) as [level|] eqn:Hl; [|discriminate].
    destruct (ensure ok b level) as [b1|] eqn:E; [|discriminate].
    destruct (ensure_Some _ _ _ _ E) as (_ & Hd & _).
    destruct (is_sentinel (line_str l)).
    + injection H as <-. simpl. rewrite Hd, Hl. set_solver.
    + destruct (write_line b1 level (line_str l)) as [b2|] eqn:W; [|discriminate].
      destruct (write_line_Some _ _ _ _ W) as (Hd2 & _).
      rewrite (IH _ _ H), Hd2, Hd. simpl. rewrite Hl. set_solver.
Qed.

Lemma files_dom ok files : ∀ b b' : BucketFileMap,
  bucketize_files ok b files = (None, b') →
  dom b' = dom b ∪ list_to_set (levels_seen files).
Proof.
  induction files as [|[content|] files IH]; intros b b' H; simpl in *.
  - injection H as <-. set_solver.
  - destruct (bucketize_lines ok b (getlines content)) as [[h|] b1] eqn:E;
      [discriminate|].
    rewrite (IH _ _ H), (lines_dom _ _ _ _ E).
    unfold levels_seen. simpl. rewrite list_to_set_app_L. set_solver.
  - discriminate.
Qed.

Lemma first_line_creates ok (b : BucketFileMap) line level :
  line_level line = Some level → b !! level = None → ok level = true →
  (bucketize_line ok b line).2 !! level =
    Some (Some {| is_open := true;
                  contents := if is_sentinel (line_str line) then []
                              else [line_str line] |}).
Proof.
  intros Hl Hn Ho. rewrite bucketize_line_eq, Hl.
  unfold ensure. rewrite Hn, Ho.
  rewrite bool_decide_eq_false_2 by (intros [? ?]; discriminate).
  destruct (is_sentinel (line_str line)); simpl; [apply lookup_insert_eq|].
  unfold write_line. rewrite lookup_insert_eq. simpl.
  now rewrite lookup_insert_eq.
Qed.

(** C9 (as amended): when [BucketizeDiff], started on an empty map,
    returns [true], the map holds exactly one bucket file per distinct
    normalized level among the lines read, the sentinel lines included; and
    the bucket file of a level is created by the first line read that
    carries the level, before the payload is looked at: it is created empty
    when that line is a sentinel, and holds the line's payload otherwise. *)
Theorem one_bucket_per_level mk ok raw readNum :
  (BucketizeDiff mk ok raw ∅ readNum).1 = Returned true →
  dom (BucketizeDiff mk ok raw ∅ readNum).2
    = list_to_set (levels_seen (map raw (seq 0 (Z.to_nat readNum)))) ∧
  (∀ (b : BucketFileMap) line level,
     line_level line = Some level → b !! level = None → ok level = true →
     (bucketize_line ok b line).2 !! level =
       Some (Some {| is_open := true;
                     contents := if is_sentinel (line_str line) then []
                                 else [line_str line] |})).
Proof.
  intros H. split; [|apply first_line_creates].
  unfold BucketizeDiff in *. destruct (negb (mk =? 0)); [discriminate|].
  destruct (bucketize_files ok ∅ _) as [[[| |]|] b'] eqn:E; try discriminate.
  simpl. rewrite (files_dom _ _ _ _ E). set_solver.
Qed.

Definition sentinel_only_run : outcome bool * BucketFileMap :=
  BucketizeDiff 0 (fun _ => true) (fun _ => Some (unlines ["7 c EOB"])) ∅ 1.

Lemma one_bucket_per_level_witness :
  dom sentinel_only_run.2 = ({[ 520 ]} : gset Z).
Proof.
  destruct (one_bucket_per_level 0 (fun _ => true)
              (fun _ => Some (unlines ["7 c EOB"])) 1 eq_refl) as [H _].
  unfold sentinel_only_run. rewrite H. vm_compute. reflexivity.
Defined.

(** The raw file made of the single line [7 c EOB], whose payload is a
    sentinel: the Bucketizer succeeds and the map holds a bucket file for
    level 520, although no payload was observed, for that level or any
    other (every bucket file is empty). *)
Lemma bucket_for_sentinel_counterexample :
  sentinel_only_run.1 = Returned true ∧
  sentinel (payload "7 c EOB") ∧
  sentinel_only_run.2 !! 520 = Some (Some {| is_open := true; contents := [] |}) ∧
  all_bucket_lines sentinel_only_run.2 = [].
Proof.
  split; [reflexivity|]. split; [left; reflexivity|]. split; reflexivity.
Qed.

(** *** Lossless bucketing *)

Lemma ensure_all_ok ok (b : BucketFileMap) level :
  (∀ l, ok l = true) → is_Some (ensure ok b level).
Proof.
  intros Hok. unfold ensure. case_bool_decide; [eauto|]. rewrite Hok. eauto.
Qed.

Lemma step_well_formed ok (b : BucketFileMap) l :
  live b → (∀ level, ok level = true) → well_formed l →
  ∃ b', live b' ∧
    if is_sentinel (payload l)
    then bucketize_line ok b l = (SeekEnd, b') ∧
         all_bucket_lines b' ≡ₚ all_bucket_lines b
    else bucketize_line ok b l = (NextLine, b') ∧
         all_bucket_lines b' ≡ₚ all_bucket_lines b ++ [payload l].
Proof.
  intros Hl Hok Hwf. destruct (well_formed_level l Hwf) as [[level Hlev] Hstr].
  rewrite bucketize_line_eq, Hlev, Hstr.
  destruct (ensure_all_ok ok b level Hok) as [b1 E]. rewrite E.
  destruct (ensure_Some _ _ _ _ E) as (_ & Hd & _ & Hl1 & Hp1).
  specialize (Hl1 Hl).
  destruct (is_sentinel (payload l)); [now exists b1|].
  destruct (write_line_live b1 level (payload l) Hl1) as [b2 W].
  { apply elem_of_dom. rewrite Hd. set_solver. }
  rewrite W. destruct (write_line_Some _ _ _ _ W) as (_ & _ & H2).
  destruct (H2 Hl1) as (Hl2 & _ & Hp2).
  exists b2. repeat split; [assumption|]. now rewrite Hp2, Hp1.
Qed.

Lemma lines_lossless ok lines : ∀ b : BucketFileMap,
  live b → (∀ level, ok level = true) →
  Forall well_formed (upto_sentinel lines) →
  ∃ b', bucketize_lines ok b lines = (None, b') ∧ live b' ∧
        all_bucket_lines b' ≡ₚ all_bucket_lines b ++ map payload (before_sentinel lines).
Proof.
  induction lines as [|l lines IH]; intros b Hl Hok Hwf.
  - exists b. simpl. rewrite app_nil_r. auto.
  - simpl in Hwf. simpl bucketize_lines. simpl before_sentinel.
    fold (is_sentinel (payload l)) in *.
    assert (Hw : well_formed l).
    { destruct (is_sentinel (payload l)); now inversion Hwf. }
    destruct (step_well_formed ok b l Hl Hok Hw) as (b1 & Hl1 & H1).
    destruct (is_sentinel (payload l)).
    + destruct H1 as [-> Hp]. exists b1. simpl. rewrite app_nil_r. auto.
    + destruct H1 as [-> Hp]. inversion Hwf as [|? ? _ Hwf']; subst.
      destruct (IH b1 Hl1 Hok Hwf') as (b' & -> & Hl' & Hp').
      exists b'. repeat split; [assumption|].
      rewrite Hp', Hp. simpl. now rewrite <- app_assoc.
Qed.

Lemma files_lossless ok (files : list string) : ∀ b : BucketFileMap,
  live b → (∀ level, ok level = true) →
  Forall (fun content => Forall well_formed (upto_sentinel (getlines content))) files →
  ∃ b', bucketize_files ok b (map Some files) = (None, b') ∧ live b' ∧
        all_bucket_lines b' ≡ₚ
          all_bucket_lines b ++
          concat (map (fun content => map payload (before_sentinel (getlines content)))
                      files).
Proof.
  induction files as [|c files IH]; intros b Hl Hok Hwf.
  - exists b. simpl. rewrite app_nil_r. auto.
  - inversion Hwf as [|? ? Hc Hwf']; subst. simpl.
    destruct (lines_lossless ok (getlines c) b Hl Hok Hc) as (b1 & -> & Hl1 & Hp1).
    destruct (IH b1 Hl1 Hok Hwf') as (b' & -> & Hl' & Hp').
    exists b'. repeat split; [assumption|].
    now rewrite Hp', Hp1, <- app_assoc.
Qed.

(** C6 (as amended): let every raw page file open, every bucket file be
    creatable, and let the lines of each raw file up to its first sentinel
    line be records with a level that [stoi] reads, an objectId and a
    payload.  Then the Bucketizer returns [true], and the multiset of the
    lines of all bucket files equals the multiset of the payloads (tokens
    after level and objectId, joined by tabs) of the raw lines that come
    before the first sentinel line of their file. *)
Theorem lossless_bucketing mk ok raw readNum (files : list string) :
  mk = 0 → (∀ level, ok level = true) →
  map raw (seq 0 (Z.to_nat readNum)) = map Some files →
  Forall (fun content => Forall well_formed (upto_sentinel (getlines content))) files →
  ∃ b, BucketizeDiff mk ok raw ∅ readNum = (Returned true, b) ∧
       all_bucket_lines b ≡ₚ
         concat (map (fun content => map payload (before_sentinel (getlines content)))
                     files).
Proof.
  intros -> Hok Hraw Hwf. unfold BucketizeDiff. simpl. rewrite Hraw.
  destruct (files_lossless ok files ∅) as (b & -> & _ & Hp); try assumption.
  { intros level p. rewrite lookup_empty. discriminate. }
  exists b. split; [reflexivity|].
  rewrite Hp. unfold all_bucket_lines. now rewrite map_to_list_empty.
Qed.

Definition sample_file : string := unlines sample_raw.

Lemma lossless_bucketing_witness :
  ∃ b, BucketizeDiff 0 (fun _ => true) (fun _ => Some sample_file) ∅ 1
       = (Returned true, b) ∧
       all_bucket_lines b ≡ₚ [tab_join ["FILE_C"; "/a"]].
Proof.
  apply (lossless_bucketing 0 (fun _ => true) (fun _ => Some sample_file) 1 [sample_file]).
  - reflexivity.
  - reflexivity.
  - reflexivity.
  - repeat constructor.
    + exists "1", "o1", "FILE_C", ["/a"], 1. split; reflexivity.
    + exists "0", "c", "EOB", [], 0. split; reflexivity.
Defined.

(** The raw file [sample_file] has a record after its sentinel line.  The
    bucket files hold one line, whereas the raw file has two lines whose
    payload is no sentinel (three lines in all): the multisets differ. *)
Lemma lossless_bucketing_counterexample :
  let run := BucketizeDiff 0 (fun _ => true) (fun _ => Some sample_file) ∅ 1 in
  let payloads := map payload (getlines sample_file) in
  run.1 = Returned true ∧
  ¬ all_bucket_lines run.2 ≡ₚ payloads ∧
  ¬ all_bucket_lines run.2 ≡ₚ List.filter (fun p => negb (is_sentinel p)) payloads.
Proof.
  split; [reflexivity|].
  split; intros H%Permutation_length; vm_compute in H; discriminate.
Qed.

(** *** Each bucket holds the records of its level *)

Lemma step_by_level ok (b : BucketFileMap) l :
  live b → (∀ level, ok level = true) → well_formed l →
  ∀ level,
    bucket_lines (bucketize_line ok b l).2 level =
      bucket_lines b level ++
      (if is_sentinel (payload l) then []
       else if decide (line_level l = Some level) then [payload l] else []).
Proof.
  intros Hl Hok Hwf level. destruct (well_formed_level l Hwf) as [[lv Hlev] Hstr].
  rewrite bucketize_line_eq, Hlev, Hstr.
  destruct (ensure_all_ok ok b lv Hok) as [b1 E]. rewrite E.
  destruct (ensure_Some _ _ _ _ E) as (Hsame & Hd & _ & Hl1 & _).
  specialize (Hl1 Hl).
  destruct (is_sentinel (payload l)); [simpl; now rewrite app_nil_r, Hsame|].
  destruct (write_line_live b1 lv (payload l) Hl1) as [b2 W].
  { apply elem_of_dom. rewrite Hd. set_solver. }
  rewrite W. destruct (write_line_Some _ _ _ _ W) as (_ & _ & H2).
  destruct (H2 Hl1) as (_ & Hb2 & _). simpl. rewrite Hb2, !Hsame.
  destruct (decide (lv = level)) as [->|Hne].
  - now rewrite decide_True.
  - rewrite decide_False by congruence. now rewrite app_nil_r.
Qed.

(** The bucket file of a level receives, in the order of the raw file,
    the payloads of the lines of that level that come before the first
    sentinel line. *)
Lemma lines_by_level ok lines : ∀ b : BucketFileMap,
  live b → (∀ level, ok level = true) →
  Forall well_formed (upto_sentinel lines) →
  ∀ level,
    bucket_lines (bucketize_lines ok b lines).2 level =
      bucket_lines b level ++
      map payload (filter (fun l => line_level l = Some level) (before_sentinel lines)).
Proof.
  induction lines as [|l lines IH]; intros b Hl Hok Hwf level.
  - simpl. now rewrite app_nil_r.
  - simpl in Hwf. simpl bucketize_lines. simpl before_sentinel.
    fold (is_sentinel (payload l)) in *.
    assert (Hw : well_formed l).
    { destruct (is_sentinel (payload l)); now inversion Hwf. }
    pose proof (step_by_level ok b l Hl Hok Hw level) as Hstep.
    destruct (step_well_formed ok b l Hl Hok Hw) as (b1 & Hl1 & H1).
    destruct (is_sentinel (payload l)).
    + destruct H1 as [E _]. rewrite E in Hstep |- *. simpl in *. exact Hstep.
    + destruct H1 as [E _]. rewrite E in Hstep |- *. simpl in Hstep.
      inversion Hwf as [|? ? _ Hwf']; subst.
      rewrite (IH b1 Hl1 Hok Hwf' level), Hstep, filter_cons.
      destruct (decide (line_level l = Some level)); simpl;
        now rewrite <- app_assoc.
Qed.

(** *** The bucket map handed to the Serializer *)

Lemma live_step ok (b : BucketFileMap) line :
  live b → live (bucketize_line ok b line).2.
Proof.
  intros Hl. rewrite bucketize_line_eq.
  destruct (line_level line) as [level|]; [|exact Hl].
  destruct (ensure ok b level) as [b1|] eqn:E; [|exact Hl].
  destruct (ensure_Some _ _ _ _ E) as (_ & _ & _ & Hl1 & _). specialize (Hl1 Hl).
  destruct (is_sentinel (line_str line)); [exact Hl1|].
  destruct (write_line b1 level (line_str line)) as [b2|] eqn:W; [|exact Hl1].
  destruct (write_line_Some _ _ _ _ W) as (_ & _ & H2). now destruct (H2 Hl1).
Qed.

Lemma live_lines ok lines : ∀ b : BucketFileMap,
  live b → live (bucketize_lines ok b lines).2.
Proof.
  induction lines as [|l lines IH]; intros b Hl; [exact Hl|].
  simpl. pose proof (live_step ok b l Hl) as H.
  destruct (bucketize_line ok b l) as [[| |h] b']; simpl in *; auto.
Qed.

Lemma live_files ok files : ∀ b : BucketFileMap,
  live b → live (bucketize_files ok b files).2.
Proof.
  induction files as [|[content|] files IH]; intros b Hl; try exact Hl.
  simpl. pose proof (live_lines ok (getlines content) b Hl) as H.
  destruct (bucketize_lines ok b (getlines content)) as [[h|] b']; simpl in *; auto.
Qed.

(** Whatever the raw files, the map built from an empty one holds open
    streams only. *)
Lemma live_BucketizeDiff mk ok raw readNum :
  live (BucketizeDiff mk ok raw ∅ readNum).2.
Proof.
  assert (H0 : live ∅) by (intros level p; rewrite lookup_empty; discriminate).
  unfold BucketizeDiff. destruct (negb (mk =? 0)); [exact H0|].
  pose proof (live_files ok (map raw (seq 0 (Z.to_nat readNum))) ∅ H0) as H.
  destruct (bucketize_files _ _ _) as [[[| |]|] b']; exact H.
Qed.

End BucketizerFacts.

(** ** Serializer *)

Module SerializerFacts.
Import Serializer.
Import BucketizerFacts.

(** *** The iteration order of the map *)

#[local] Instance key_le_total : Total key_le.
Proof. intros x y. unfold key_le. lia. Qed.

#[local] Instance key_le_trans : Transitive key_le.
Proof. intros x y z. unfold key_le. lia. Qed.

Definition key_lt {A} (x y : Z * A) : Prop := x.1 < y.1.

Lemma elem_of_entries (b : BucketFileMap) level p :
  (level, p) ∈ entries b ↔ b !! level = Some p.
Proof.
  unfold entries. rewrite merge_sort_Permutation. apply elem_of_map_to_list.
Qed.

Lemma strictly_sorted (l : list (Z * option fstream)) :
  StronglySorted key_le l → NoDup l.*1 → StronglySorted key_lt l.
Proof.
  induction 1 as [|x l Hs IH Hx]; intros Hn; [constructor|].
  rewrite fmap_cons in Hn. apply NoDup_cons in Hn as [Hx' Hn].
  constructor; [auto|].
  rewrite Forall_forall in Hx |- *. intros y Hy.
  specialize (Hx y Hy). unfold key_le, key_lt in *.
  assert (x.1 ≠ y.1); [|lia].
  intros E. apply Hx'. rewrite E. apply list_elem_of_fmap. eauto.
Qed.

Lemma entries_sorted (b : BucketFileMap) : StronglySorted key_lt (entries b).
Proof.
  apply strictly_sorted.
  - apply StronglySorted_merge_sort; apply _.
  - unfold entries. rewrite merge_sort_Permutation. apply NoDup_fst_map_to_list.
Qed.

(** *** What the loop copies *)

(** What [rdbuf()] of a bucket file yields. *)
Definition readable (f : fstream) : list string :=
  if is_open f then contents f else [].

(** The bucket files copied to the output, with their levels: those met
    before the first bucket file that yields nothing. *)
Fixpoint chunks (its : list (Z * option fstream)) : list (Z * list string) :=
  match its with
  | (level, Some f) :: rest =>
      match readable f with
      | [] => []
      | c => (level, c) :: chunks rest
      end
  | _ => []
  end.

Lemma serialize_loop_written its : ∀ out (b : BucketFileMap) out' b',
  serialize_loop its out b = Some (out', b') →
  written out' = written out ++ (if failbit out then [] else concat (chunks its).*2).
Proof.
  induction its as [|[level [f|]] its IH]; intros out b out' b' H; simpl in H.
  - injection H as <- <-. destruct (failbit out); now rewrite app_nil_r.
  - apply IH in H. rewrite H. clear H. unfold copy_rdbuf. simpl.
    fold (readable f).
    destruct (failbit out) eqn:F; [now rewrite F|].
    destruct (readable f) as [|x c]; simpl; [now rewrite app_nil_r|].
    now rewrite <- app_assoc.
  - discriminate.
Qed.

Lemma serialize_loop_map its : ∀ out (b : BucketFileMap) out' b',
  serialize_loop its out b = Some (out', b') →
  ∀ level, b' !! level =
           if decide (level ∈ its.*1) then Some None else b !! level.
Proof.
  induction its as [|[l [f|]] its IH]; intros out b out' b' H level; simpl in H.
  - injection H as <- <-. now rewrite decide_False by set_solver.
  - rewrite (IH _ _ _ _ H level). rewrite fmap_cons. simpl.
    destruct (decide (level ∈ its.*1)) as [Hin|Hin].
    + rewrite decide_True by set_solver. reflexivity.
    + rewrite lookup_insert. case_decide; subst.
      * rewrite decide_True by set_solver. reflexivity.
      * rewrite decide_False by set_solver. reflexivity.
  - discriminate.
Qed.

Lemma serialize_loop_total its : ∀ out (b : BucketFileMap),
  Forall (fun e => is_Some e.2) its → is_Some (serialize_loop its out b).
Proof.
  induction its as [|[l p] its IH]; intros out b H; simpl; [eauto|].
  inversion H as [|? ? [f Hf] H']; subst. simpl in Hf. subst p. now apply IH.
Qed.

Lemma chunks_elem its level c :
  (level, c) ∈ chunks its →
  ∃ f, (level, Some f) ∈ its ∧ readable f = c ∧ c ≠ [].
Proof.
  induction its as [|[l [f|]] its IH]; simpl; try (intros H; now apply elem_of_nil in H).
  destruct (readable f) as [|x r] eqn:E; [intros H; now apply elem_of_nil in H|].
  rewrite elem_of_cons. intros [H|H].
  - injection H as -> ->. exists f. rewrite elem_of_cons. now auto.
  - destruct (IH H) as (g & ? & ? & ?). exists g. rewrite elem_of_cons. auto.
Qed.

Lemma chunks_sorted its :
  StronglySorted key_lt its → StronglySorted key_lt (chunks its).
Proof.
  intros Hs. induction its as [|[l [f|]] its IH]; simpl; try constructor.
  apply StronglySorted_cons in Hs as [Hx Hs].
  destruct (readable f) as [|x r]; [constructor|].
  constructor; [now apply IH|].
  rewrite Forall_forall in Hx. rewrite Forall_forall. intros [l' c] Hin.
  destruct (chunks_elem _ _ _ Hin) as (g & Hg & _). exact (Hx _ Hg).
Qed.

Lemma chunks_complete its level f :
  (∀ l g, (l, Some g) ∈ its → readable g ≠ []) →
  Forall (fun e => is_Some e.2) its →
  (level, Some f) ∈ its → (level, readable f) ∈ chunks its.
Proof.
  induction its as [|[l p] its IH]; intros Hne Hs Hin; [now apply elem_of_nil in Hin|].
  inversion Hs as [|? ? [g Hg] Hs']; subst. simpl in Hg. subst p. simpl.
  pose proof (Hne l g (list_elem_of_here _ _)) as Hg.
  destruct (readable g) as [|x r] eqn:E; [congruence|].
  apply elem_of_cons in Hin as [Hin|Hin].
  - injection Hin as -> ->. rewrite E. apply list_elem_of_here.
  - apply list_elem_of_further, IH; auto.
    intros l' g' Hin'. apply (Hne l' g'). now apply list_elem_of_further.
Qed.

(** Two chunks of a sequence sorted by level, the first with the smaller
    level, split the concatenation. *)
Lemma sorted_chunks_split (cs : list (Z * list string)) L1 L2 c1 c2 :
  StronglySorted key_lt cs → (L1, c1) ∈ cs → (L2, c2) ∈ cs → L1 < L2 →
  ∃ pre mid post, concat cs.*2 = pre ++ c1 ++ mid ++ c2 ++ post.
Proof.
  intros Hs H1 H2 Hlt.
  apply list_elem_of_split in H1 as (A & R & ->).
  apply StronglySorted_app in Hs as (Hcross & _ & HsR).
  apply StronglySorted_cons in HsR as [_ _].
  apply elem_of_app in H2 as [H2|H2].
  { specialize (Hcross _ _ H2 (list_elem_of_here _ _)). unfold key_lt in Hcross.
    simpl in Hcross. lia. }
  apply elem_of_cons in H2 as [H2|H2]; [injection H2 as -> ->; lia|].
  apply list_elem_of_split in H2 as (B & C & ->).
  exists (concat A.*2), (concat B.*2), (concat C.*2).
  repeat (rewrite fmap_app || rewrite fmap_cons).
  repeat (rewrite concat_app || rewrite concat_cons). reflexivity.
Qed.

Lemma live_entries (b : BucketFileMap) :
  live b → Forall (fun e => is_Some e.2) (entries b).
Proof.
  intros Hl. apply Forall_forall. intros [level p] Hin.
  apply elem_of_entries in Hin. destruct (Hl _ _ Hin) as (f & -> & _). simpl. eauto.
Qed.

Lemma live_chunk (b : BucketFileMap) level c :
  live b → (level, c) ∈ chunks (entries b) → c = bucket_lines b level ∧ c ≠ [].
Proof.
  intros Hl Hin. destruct (chunks_elem _ _ _ Hin) as (f & Hf & <- & Hne).
  apply elem_of_entries in Hf. destruct (Hl _ _ Hf) as (g & Hg & Ho).
  injection Hg as <-. split; [|exact Hne].
  unfold bucket_lines, readable. now rewrite Hf, Ho.
Qed.

(** What is copied is copied in level order: the serialized file is the
    concatenation of bucket files, each
    taken whole, in strictly ascending order of level.  Hence for two bucket
    files copied with levels [L1 < L2], the output splits into a part that
    holds all the records of [L1] followed, later on, by a part that holds
    all the records of [L2]: every record of level [L1] stands before every
    record of level [L2].  (The copy stops at the first bucket file that
    holds no line; when no bucket file is empty, every one is copied.) *)
Theorem serialized_in_level_order (b : BucketFileMap) :
  live b →
  ∃ b' (cs : list (Z * list string)),
    SerializeBuckets true b = (Returned true, b', Some (concat cs.*2)) ∧
    StronglySorted key_lt cs ∧
    (∀ level c, (level, c) ∈ cs → c = bucket_lines b level ∧ c ≠ []) ∧
    (∀ L1 L2 c1 c2,
       (L1, c1) ∈ cs → (L2, c2) ∈ cs → L1 < L2 →
       ∃ pre mid post, concat cs.*2 = pre ++ c1 ++ mid ++ c2 ++ post) ∧
    ((∀ level, level ∈ dom b → bucket_lines b level ≠ []) →
     ∀ level, level ∈ dom b → (level, bucket_lines b level) ∈ cs).
Proof.
  intros Hl. unfold SerializeBuckets. simpl.
  destruct (serialize_loop_total (entries b) {| written := []; failbit := false |} b
              (live_entries b Hl)) as [[out b'] E].
  rewrite E. pose proof (serialize_loop_written _ _ _ _ _ E) as Hw. simpl in Hw.
  exists b', (chunks (entries b)). rewrite Hw.
  pose proof (chunks_sorted _ (entries_sorted b)) as Hs.
  split; [reflexivity|]. split; [exact Hs|]. split; [|split].
  - intros level c. now apply live_chunk.
  - intros L1 L2 c1 c2. now apply sorted_chunks_split.
  - intros Hne level Hin. apply elem_of_dom in Hin as [p Hp].
    destruct (Hl _ _ Hp) as (f & -> & Ho).
    assert (Hr : bucket_lines b level = readable f).
    { unfold bucket_lines, readable. now rewrite Hp, Ho. }
    rewrite Hr. apply chunks_complete.
    + intros l g Hg. apply elem_of_entries in Hg.
      destruct (Hl _ _ Hg) as (g' & Hg' & Ho'). injection Hg' as <-.
      specialize (Hne l (elem_of_dom_2 _ _ _ Hg)).
      unfold bucket_lines in Hne. rewrite Hg in Hne.
      unfold readable. now rewrite Ho'.
    + now apply live_entries.
    + now apply elem_of_entries.
Qed.

(** The same for the map that the Bucketizer builds from any raw page
    files, whatever the interleaving of the levels in them. *)
Lemma pipeline_in_level_order mk ok raw readNum :
  let b := (Bucketizer.BucketizeDiff mk ok raw ∅ readNum).2 in
  ∃ b' (cs : list (Z * list string)),
    SerializeBuckets true b = (Returned true, b', Some (concat cs.*2)) ∧
    StronglySorted key_lt cs ∧
    (∀ level c, (level, c) ∈ cs → c = bucket_lines b level ∧ c ≠ []).
Proof.
  intros b. pose proof (live_BucketizeDiff mk ok raw readNum) as Hl. fold b in Hl.
  unfold SerializeBuckets. simpl.
  destruct (serialize_loop_total (entries b) {| written := []; failbit := false |} b
              (live_entries b Hl)) as [[out b'] E].
  rewrite E. pose proof (serialize_loop_written _ _ _ _ _ E) as Hw. simpl in Hw.
  exists b', (chunks (entries b)). rewrite Hw.
  split; [reflexivity|]. split; [exact (chunks_sorted _ (entries_sorted b))|].
  intros level c. now apply live_chunk.
Qed.

Definition sample_buckets : BucketFileMap :=
  <[516 := Some {| is_open := true; contents := ["DIR_C"; "FILE_C"] |}]>
    (<[514 := Some {| is_open := true; contents := ["DIR_DELETE"] |}]> ∅).

Lemma sample_buckets_live : live sample_buckets.
Proof.
  intros level p. unfold sample_buckets.
  rewrite !lookup_insert, lookup_empty.
  repeat case_decide; intros E; inversion E; subst; eauto.
Defined.

Lemma serialized_in_level_order_witness :
  ∃ b' (cs : list (Z * list string)),
    SerializeBuckets true sample_buckets = (Returned true, b', Some (concat cs.*2)) ∧
    StronglySorted key_lt cs ∧
    (∀ level c, (level, c) ∈ cs → c = bucket_lines sample_buckets level ∧ c ≠ []) ∧
    (∀ L1 L2 c1 c2,
       (L1, c1) ∈ cs → (L2, c2) ∈ cs → L1 < L2 →
       ∃ pre mid post, concat cs.*2 = pre ++ c1 ++ mid ++ c2 ++ post) ∧
    ((∀ level, level ∈ dom sample_buckets → bucket_lines sample_buckets level ≠ []) →
     ∀ level, level ∈ dom sample_buckets →
              (level, bucket_lines sample_buckets level) ∈ cs).
Proof. exact (serialized_in_level_order sample_buckets sample_buckets_live). Defined.

(** *** Closing and releasing the bucket files *)

(** When the output file is created, every pointer of the map has been
    closed, deleted and set to null on return. *)
Lemma released_on_success (b : BucketFileMap) :
  live b →
  ∃ b' out, SerializeBuckets true b = (Returned true, b', Some out) ∧
            ∀ level, level ∈ dom b → b' !! level = Some None.
Proof.
  intros Hl. unfold SerializeBuckets. simpl.
  destruct (serialize_loop_total (entries b) {| written := []; failbit := false |} b
              (live_entries b Hl)) as [[out b'] E].
  rewrite E. exists b', (written out). split; [reflexivity|].
  intros level Hin. rewrite (serialize_loop_map _ _ _ _ _ E level).
  apply elem_of_dom in Hin as [p Hp].
  rewrite decide_True; [reflexivity|].
  apply list_elem_of_fmap. exists (level, p). split; [reflexivity|].
  now apply elem_of_entries.
Qed.

(** The Serializer returns [false] only when the output file cannot be
    created. *)
Lemma fails_only_on_create (create_ok : bool) (b : BucketFileMap) :
  live b →
  ((SerializeBuckets create_ok b).1.1 = Returned false ↔ create_ok = false).
Proof.
  intros Hl. destruct create_ok; simpl.
  - destruct (released_on_success b Hl) as (b' & out & -> & _). simpl.
    split; discriminate.
  - split; reflexivity.
Qed.

(** C3 (what the code does when the output file cannot be created): the
    Serializer returns [false] at once and the bucket map is what it was;
    a bucket file that was open is still open and its pointer is still in
    the map, neither closed nor released. *)
Theorem buckets_left_open_on_failure (b : BucketFileMap) (level : Z) (f : fstream) :
  b !! level = Some (Some f) → is_open f = true →
  (SerializeBuckets false b).1.1 = Returned false ∧
  (SerializeBuckets false b).1.2 !! level = Some (Some f) ∧
  (SerializeBuckets false b).2 = None.
Proof. intros Hb Ho. simpl. auto. Qed.

Lemma buckets_left_open_on_failure_witness :
  (SerializeBuckets false sample_buckets).1.1 = Returned false ∧
  (SerializeBuckets false sample_buckets).1.2 !! 514
    = Some (Some {| is_open := true; contents := ["DIR_DELETE"] |}) ∧
  (SerializeBuckets false sample_buckets).2 = None.
Proof.
  apply (buckets_left_open_on_failure sample_buckets 514
           {| is_open := true; contents := ["DIR_DELETE"] |}); reflexivity.
Defined.

End SerializerFacts.

(** ** Event Mapper *)

Module EventMapperFacts.
Import Cxx Json EventMapper.

Section Facts.
Variable lstat : string → option stat.
Variable json_open_ok : Z → bool.
Variable snapDir : string.

(** *** The boolean fields *)

(** Both string literals are non-null pointers: the flag is [true]
    whether or not the character occurs in [optype]. *)
Lemma flag_true optype c : flag optype c = JsonBool true.
Proof. unfold flag. destruct (negb (find optype c =? npos)); reflexivity. Qed.

(** C1 (what the code does on the record of the scenario): the line
    [SYM_CM /a/link /a/target] of the serialized file, which the raw line
    [-2 obj9 SYM_CM /a/link /a/target] becomes, is mapped to a symlink event
    with [created] true and the target, and with [stat] true although [S]
    does not occur in the opType [CM]. *)
Theorem symlink_stat_reported_true :
  ∃ item,
    map_line lstat snapDir "SYM_CM /a/link /a/target" = Returned (Some item) ∧
    field "type" item = Some (JsonString "symlink") ∧
    field "created" item = Some (JsonBool true) ∧
    field "target" item = Some (JsonString "/a/target") ∧
    field "stat" item = Some (JsonBool true) ∧
    split_op "SYM_CM" = Some ("SYM", "CM") ∧
    find "CM" "S" = npos.
Proof.
  assert (E : map_line lstat snapDir "SYM_CM /a/link /a/target" =
              Returned (Some (JsonMap
                (Add "stat" (flag "CM" "S")
                   (Add "target" (JsonString "/a/target")
                      (Add "created" (JsonBool true)
                         (Add "type" (JsonString "symlink")
                            (MakeStatsJsonMap lstat snapDir [] "/a/link").1)))))))
    by reflexivity.
  rewrite E. eexists. split; [reflexivity|].
  unfold MakeStatsJsonMap. cbv zeta.
  destruct (lstat _); repeat split; reflexivity.
Qed.

(** A file or directory record that is neither a deletion nor a rename
    has its four flags [true], whatever its opType. *)
Lemma file_flags_true line op path rest entrytype optype :
  tokens line = op :: path :: rest →
  split_op op = Some (entrytype, optype) →
  entrytype = "FILE" ∨ entrytype = "DIR" →
  optype ≠ "DELETE" → optype ≠ "RENAME" →
  ∃ item, map_line lstat snapDir line = Returned (Some item) ∧
          field "created" item = Some (JsonBool true) ∧
          field "modified" item = Some (JsonBool true) ∧
          field "stat" item = Some (JsonBool true) ∧
          field "xattr" item = Some (JsonBool true).
Proof.
  intros Ht Hs He Hd Hr. unfold map_line. rewrite Ht. cbv zeta.
  change ((op :: path :: rest) !! 0%nat) with (Some op).
  change ((op :: path :: rest) !! 1%nat) with (Some path).
  cbv beta iota. rewrite Hs.
  apply String.eqb_neq in Hd, Hr. rewrite Hd, Hr, !flag_true.
  unfold MakeStatsJsonMap. cbv zeta.
  destruct He as [-> | ->]; simpl;
    destruct (lstat _);
    (eexists; split; [reflexivity|]); repeat split; reflexivity.
Qed.

(** *** Token indexing *)

(** A rename of a file or directory; the creation of a symlink. *)
Definition rename_record (op : string) : Prop :=
  ∃ entrytype,
    split_op op = Some (entrytype, "RENAME") ∧ (entrytype = "FILE" ∨ entrytype = "DIR").

Definition symlink_creation (op : string) : Prop :=
  ∃ optype,
    split_op op = Some ("SYM", optype) ∧ optype ≠ "DELETE" ∧ find optype "C" ≠ npos.

(** At least two tokens, and at least three for a rename and for a
    symlink creation. *)
Definition indexing_precondition (toks : list string) : Prop :=
  (2 ≤ length toks)%nat ∧
  ∀ op, toks !! 0%nat = Some op →
        rename_record op ∨ symlink_creation op → (3 ≤ length toks)%nat.

Lemma map_line_short line :
  (length (tokens line) < 2)%nat → map_line lstat snapDir line = Undefined.
Proof.
  intros H. unfold map_line.
  destruct (tokens line) as [|op [|path rest]]; simpl in H; try lia; reflexivity.
Qed.

Lemma map_line_two line op path :
  tokens line = [op; path] →
  (map_line lstat snapDir line = Undefined ↔ rename_record op ∨ symlink_creation op).
Proof.
  intros Ht. unfold map_line, rename_record, symlink_creation. rewrite Ht. cbv zeta.
  change ([op; path] !! 0%nat) with (Some op).
  change ([op; path] !! 1%nat) with (Some path).
  change ([op; path] !! 2%nat) with (@None string).
  cbv beta iota.
  destruct (split_op op) as [[e o]|].
  2:{ split; [discriminate|]. intros [(? & ? & _)|(? & ? & _)]; discriminate. }
  destruct (String.eqb_spec e "FILE"), (String.eqb_spec e "DIR"),
    (String.eqb_spec e "SYM"), (String.eqb_spec o "DELETE"),
    (String.eqb_spec o "RENAME"), (Z.eqb_spec (find o "C") npos);
    subst; try discriminate; cbn [orb negb];
    (split;
     [ intros H; try discriminate H;
       first [ left; eexists; split; [reflexivity|]; now auto
             | right; eexists; split; [reflexivity|]; now auto ]
     | intros [(e' & Hs & He)|(o' & Hs & Hd & Hc)];
       inversion Hs; subst; try reflexivity; try congruence;
       destruct He; congruence ]).
Qed.

Lemma map_line_three line op path third rest :
  tokens line = op :: path :: third :: rest →
  map_line lstat snapDir line ≠ Undefined.
Proof.
  intros Ht. unfold map_line. rewrite Ht. cbv zeta.
  change ((op :: path :: third :: rest) !! 0%nat) with (Some op).
  change ((op :: path :: third :: rest) !! 1%nat) with (Some path).
  change ((op :: path :: third :: rest) !! 2%nat) with (Some third).
  cbv beta iota.
  destruct (split_op op) as [[e o]|]; [|discriminate].
  destruct (_ || _); [destruct (String.eqb o "DELETE"), (String.eqb o "RENAME")|
                      destruct (String.eqb e "SYM"), (String.eqb o "DELETE"),
                        (negb (find o "C" =? npos))]; discriminate.
Qed.

(** C10: the accesses [diffLineList[0]], [diffLineList[1]] and
    [diffLineList[2]] of the Event Mapper stay in bounds exactly when the
    line has at least two tokens, and at least three when the record is a
    rename of a file or directory or the creation of a symlink; an empty
    line has no token, so that the very first access is out of bounds. *)
Theorem token_indexing_in_bounds (line : string) :
  (map_line lstat snapDir line ≠ Undefined ↔ indexing_precondition (tokens line)) ∧
  tokens EmptyString = [] ∧
  map_line lstat snapDir EmptyString = Undefined.
Proof.
  split; [|split; reflexivity].
  unfold indexing_precondition.
  destruct (tokens line) as [|op [|path [|third rest]]] eqn:Ht.
  - rewrite map_line_short by (rewrite Ht; simpl; lia).
    split; [congruence | simpl; lia].
  - rewrite map_line_short by (rewrite Ht; simpl; lia).
    split; [congruence | simpl; lia].
  - pose proof (map_line_two line op path Ht) as H2. split.
    + intros Hne. split; [simpl; lia|].
      intros op' Hop Hneed. simpl in Hop. injection Hop as <-.
      apply H2 in Hneed. congruence.
    + intros [_ H] Hu. apply H2 in Hu. specialize (H op eq_refl Hu). simpl in H. lia.
  - split; [intros _; simpl; split; intros; lia|].
    intros _. exact (map_line_three line op path third rest Ht).
Qed.

(** *** Batches *)

(** A line that the Event Mapper processes without an exception and
    without undefined behaviour. *)
Definition in_bounds (line : string) : Prop :=
  ∃ r, map_line lstat snapDir line = Returned r.

(** The event of a line, if it is classified. *)
Definition line_item (line : string) : option JsonObject :=
  match map_line lstat snapDir line with
  | Returned r => r
  | _ => None
  end.

(** The events of the classifiable records, in the order of the file. *)
Definition items (lines : list string) : list JsonObject := omap line_item lines.

Definition doc_items (d : Z * JsonObject) : list JsonObject :=
  match d.2 with
  | JsonArray a => a
  | _ => []
  end.

Definition batch_size (d : Z * JsonObject) : nat := length (doc_items d).

#[local] Arguments map_line : simpl never.

Lemma batch_size_array count a : batch_size (count, JsonArray a) = length a.
Proof. reflexivity. Qed.

Lemma items_cons l lines :
  items (l :: lines) =
    match line_item l with
    | Some item => item :: items lines
    | None => items lines
    end.
Proof. reflexivity. Qed.

Lemma fill_batch_spec lines : ∀ acc,
  Forall in_bounds lines → (length acc ≤ 1000)%nat →
  ∃ batch rest done,
    fill_batch lstat snapDir lines acc = Returned (batch, rest, done) ∧
    Forall in_bounds rest ∧
    acc ++ items lines = batch ++ items rest ∧
    (length rest ≤ length lines)%nat ∧
    (done = true → rest = [] ∧ (length batch < 1000)%nat) ∧
    (done = false →
     length batch = 1000%nat ∧
     ((length acc < 1000)%nat → (length rest < length lines)%nat)).
Proof.
  induction lines as [|l lines IH]; intros acc Hb Hacc.
  - cbn [fill_batch]. destruct (Nat.ltb_spec (length acc) 1000).
    + exists acc, [], true. repeat split; auto; discriminate.
    + exists acc, [], false. repeat split; auto; try discriminate; lia.
  - cbn [fill_batch]. destruct (Nat.ltb_spec (length acc) 1000) as [Hlt|Hge].
    + inversion Hb as [|? ? [r Hr] Hb']; subst.
      rewrite items_cons. unfold line_item. rewrite Hr.
      destruct r as [item|].
      * destruct (IH (acc ++ [item]) Hb') as (batch & rest & done & -> & ? & E & ? & ? & Hf).
        { rewrite length_app. simpl. lia. }
        exists batch, rest, done.
        split; [reflexivity|]. split; [assumption|].
        split; [rewrite <- E, <- app_assoc; reflexivity|].
        split; [simpl; lia|]. split; [assumption|].
        intros Hd. destruct (Hf Hd) as [? _]. split; [assumption|].
        intros _. simpl. lia.
      * destruct (IH acc Hb' Hacc) as (batch & rest & done & -> & ? & E & ? & ? & Hf).
        exists batch, rest, done.
        split; [reflexivity|]. split; [assumption|]. split; [assumption|].
        split; [simpl; lia|]. split; [assumption|].
        intros Hd. destruct (Hf Hd) as [? _]. split; [assumption|].
        intros _. simpl. lia.
    + exists acc, (l :: lines), false. repeat split; auto; try discriminate; lia.
Qed.

(** The documents written from a given point on, [N] being the number of
    classifiable records left: none when [N = 0]; otherwise [k + 1]
    documents, the last of which holds what the [k] full ones leave. *)
Definition batches_of (N : nat) (docs : list (Z * JsonObject)) : Prop :=
  Forall (fun d => (0 < batch_size d ≤ 1000)%nat) docs ∧
  ((N = 0%nat ∧ docs = []) ∨
   (∃ k d, length docs = S k ∧ last docs = Some d ∧
           (N = 1000 * k + batch_size d)%nat)).

Lemma batch_loop_spec fuel : ∀ lines count docs,
  (∀ k, json_open_ok k = true) →
  (length lines < fuel)%nat → Forall in_bounds lines →
  ∃ newdocs,
    batch_loop lstat json_open_ok snapDir fuel lines count docs
      = Some (Returned true, docs ++ newdocs) ∧
    batches_of (length (items lines)) newdocs ∧
    concat (map doc_items newdocs) = items lines.
Proof.
  induction fuel as [|fuel IH]; intros lines count docs Hok Hf Hb; [lia|].
  cbn [batch_loop].
  destruct (fill_batch_spec lines [] Hb) as
    (batch & rest & done & -> & Hb' & E & Hle & Ht & Hfalse); [simpl; lia|].
  simpl in E. rewrite Hok.
  destruct done.
  - destruct (Ht eq_refl) as [-> Hlt]. simpl in E. rewrite app_nil_r in E. subst batch.
    destruct (Nat.ltb_spec 0 (length (items lines))) as [Hpos|Hz].
    + exists [(count, JsonArray (items lines))]. split; [reflexivity|]. split.
      * split; [constructor; [rewrite batch_size_array; lia | constructor]|].
        right. exists 0%nat, (count, JsonArray (items lines)).
        repeat split; try (rewrite batch_size_array; lia).
      * simpl. now rewrite app_nil_r.
    + exists []. rewrite app_nil_r. split; [reflexivity|].
      assert (Hn : items lines = []) by (destruct (items lines); [easy|simpl in Hz; lia]).
      rewrite Hn. split; [|reflexivity]. split; [constructor | left; auto].
  - destruct (Hfalse eq_refl) as [Hlen Hshort].
    specialize (Hshort ltac:(simpl; lia)).
    rewrite Hlen. cbn [Nat.ltb Nat.leb].
    destruct (IH rest (int_add count 1) (docs ++ [(count, JsonArray batch)]) Hok)
      as (newdocs & -> & [Hall Hlast] & Hcat); [lia | assumption |].
    exists ((count, JsonArray batch) :: newdocs).
    split; [now rewrite <- app_assoc|].
    rewrite E, length_app, Hlen. split; [split|].
    + constructor; [rewrite batch_size_array; lia | exact Hall].
    + right. destruct Hlast as [[Hz ->]|(k & d & Hk & Hd & HN)].
      * exists 0%nat, (count, JsonArray batch).
        repeat split; try (rewrite batch_size_array; simpl; lia).
      * exists (S k), d. repeat split; [simpl; now rewrite Hk | |lia].
        destruct newdocs; [discriminate | exact Hd].
    + simpl. now rewrite Hcat.
Qed.





End Facts.

(** A serialized file with two classifiable records and a record of an
    unknown entity type. *)
Definition sample_serialized : string :=
  unlines ["FILE_C /a"; "BLK_C /b"; "SYM_DELETE /c"].




End EventMapperFacts.

(** ** The scenarios of the design document, run on the model *)

Module Scenarios.
Import Cxx Json.

Definition always_opened : nat → open_result := fun _ => Opened.
Definition no_lstat : string → option stat := fun _ => None.

(** A level token of [-513] gives bucket key [0], a level token of [0]
    gives [513]. *)
Example level_normalization :
  BucketizerFacts.line_level "-513 obj FILE_C /a" = Some 0 ∧
  BucketizerFacts.line_level "0 obj FILE_C /a" = Some 513.
Proof. split; reflexivity. Qed.

(** Two pages, the first ending with [EOB] and the second with [EOF]:
    two raw files, and the second page is requested with the cookie of the
    last record of the first. *)
Example two_pages :
  Pagination.ReadRawDiff "/snap" "s1" "s2"
    (fun i _ =>
       {| Pagination.opens := always_opened; Pagination.local_ok := true;
          Pagination.data :=
            match i with
            | O => unlines ["1 ck1 DIR_C /d"; "0 ck2 EOB"]
            | _ => unlines ["2 ck3 FILE_C /d/f"; "0 ck4 EOF"]
            end;
          Pagination.statusBad := false |}) 2
  = Some (2, ["/snap/s1^s2^0"; "/snap/s1^s2^ck1"]).
Proof. reflexivity. Qed.

(** The raw line [5 obj123 FILE_DELETE /a/b.txt] through the three last
    stages: bucket 518, the serialized line, the delete event. *)
Example delete_record :
  let run := Bucketizer.BucketizeDiff 0 (fun _ => true)
               (fun _ => Some (unlines ["5 obj123 FILE_DELETE /a/b.txt"; "5 c EOF"])) ∅ 1 in
  run.1 = Returned true ∧
  bucket_lines run.2 518 = [BucketizerFacts.tab_join ["FILE_DELETE"; "/a/b.txt"]] ∧
  (Serializer.SerializeBuckets true run.2).2
    = Some [BucketizerFacts.tab_join ["FILE_DELETE"; "/a/b.txt"]] ∧
  EventMapper.map_line no_lstat "/snap" (BucketizerFacts.tab_join ["FILE_DELETE"; "/a/b.txt"])
    = Returned (Some (JsonMap [("object_type", JsonString "file");
                               ("path", JsonString "/a/b.txt");
                               ("type", JsonString "delete")])).
Proof. repeat split; reflexivity. Qed.

(** The raw line [-2 obj9 SYM_CM /a/link /a/target] through the pipeline:
    the event has [created] and the target, and [stat] is [true]. *)
Example symlink_record :
  let run := Bucketizer.BucketizeDiff 0 (fun _ => true)
               (fun _ => Some (unlines ["-2 obj9 SYM_CM /a/link /a/target"; "-2 c EOF"])) ∅ 1 in
  (Serializer.SerializeBuckets true run.2).2
    = Some [BucketizerFacts.tab_join ["SYM_CM"; "/a/link"; "/a/target"]] ∧
  EventMapper.GenerateJSON no_lstat (fun _ => true) "/snap"
    (Some (unlines [BucketizerFacts.tab_join ["SYM_CM"; "/a/link"; "/a/target"]]))
  = Some (Returned true,
          [(0, JsonArray [JsonMap [("created", JsonBool true);
                                   ("stat", JsonBool true);
                                   ("target", JsonString "/a/target");
                                   ("type", JsonString "symlink")]])]).
Proof. split; reflexivity. Qed.

(** A sentinel line with a level of its own leaves an empty bucket file;
    copying it sets [failbit] on the output, and the bucket files of the
    higher levels are not copied. *)
Example empty_bucket_stops_the_copy :
  let run := Bucketizer.BucketizeDiff 0 (fun _ => true)
               (fun _ => Some (unlines ["1 o1 DIR_C /d"; "3 o3 FILE_C /d/f"; "2 c EOF"])) ∅ 1 in
  map fst (Serializer.entries run.2) = [514; 515; 516] ∧
  bucket_lines run.2 515 = [] ∧
  (Serializer.SerializeBuckets true run.2).2
    = Some [BucketizerFacts.tab_join ["DIR_C"; "/d"]].
Proof. repeat split; reflexivity. Qed.

(** A line with two tokens only: the third extraction fails and leaves
    the objectId in [s], which is what gets written, whereas the payload of
    the line is empty. *)
Example stale_token :
  BucketizerFacts.line_str "5 obj" = "obj" ∧
  BucketizerFacts.payload "5 obj" = EmptyString.
Proof. split; reflexivity. Qed.

End Scenarios.

(* ===================================================================== *)
(** * Part III: the rest of the code                                      *)
(* ===================================================================== *)

(** The directory checks, the raw directory that the Pagination Driver
    fills, and [GetSnapshotDiff] itself, which chains the stages; then what
    the code shows of them and of the stages together. *)

(** ** The directory checks of [GetSnapshotDiff] *)

Module DirChecks.

(** The file type bits of [st_mode], [<sys/stat.h>] on Linux. *)
Definition S_IFMT : Z := 61440.    (* 0170000 *)
Definition S_IFSOCK : Z := 49152.  (* 0140000 *)
Definition S_IFLNK : Z := 40960.   (* 0120000 *)
Definition S_IFREG : Z := 32768.   (* 0100000 *)
Definition S_IFBLK : Z := 24576.   (* 0060000 *)
Definition S_IFDIR : Z := 16384.   (* 0040000 *)
Definition S_IFCHR : Z := 8192.    (* 0020000 *)
Definition S_IFIFO : Z := 4096.    (* 0010000 *)

(** [IsDir]; the argument is [st_mode] when [stat] succeeds. *)
Definition IsDir (st : option Z) : bool :=
  match st with
  | Some st_mode => negb (Z.land st_mode S_IFDIR =? 0)
  | None => false
  end.

(** [readdir]: the next entry of the directory stream, [None] for [NULL]. *)
Definition readdir (dir : list string) : option string * list string :=
  match dir with
  | [] => (None, [])
  | e :: rest => (Some e, rest)
  end.

(** [for (dircount = 0; dircount < 3; ++dircount) dp = readdir(dir);] *)
Fixpoint readdirs (n : nat) (dir : list string) (dp : option string) : option string :=
  match n with
  | O => dp
  | S n' => let '(dp', dir') := readdir dir in readdirs n' dir' dp'
  end.

(** [IsDirEmpty]; the argument is the directory stream that [opendir]
    gives, [None] when it returns [NULL], which [readdir] must not get. *)
Definition IsDirEmpty (dir : option (list string)) : outcome bool :=
  match dir with
  | None => Undefined
  | Some entries =>
      Returned (match readdirs 3 entries None with None => true | Some _ => false end)
  end.

End DirChecks.

(** ** Pagination Driver: the page loop and the raw directory *)

Module RawDir.
Import Cxx Pagination.

Section ReadRawDiff.
Variables snapDir snap1 snap2 : string.
Variable stream : nat → string → page_io.

(** The local file that an iteration creates or truncates, with what is
    copied into it: [rawDir/<readNum>], when the page was opened and the
    local file too. *)
Definition local_write (st : state) (io : page_io) (files : gmap Z string)
  : gmap Z string :=
  match StreamReader.OpenStreamUnreliable (opens io) with
  | Some (0, _) => if local_ok io then <[readNum st := data io]> files else files
  | _ => files
  end.

(** [page_loop] with the files of the raw directory. *)
Fixpoint page_loop_fs (fuel : nat) (i : nat) (st : state) (names : list string)
    (files : gmap Z string) : option (Z * list string * gmap Z string) :=
  if eof st then Some (readNum st, names, files)
  else match fuel with
       | O => None
       | S fuel' =>
           let name := diffFileName snapDir snap1 snap2 (startPoint st) in
           let io := stream i name in
           match read_page st io with
           | Return r => Some (r, names ++ [name], local_write st io files)
           | Again st' =>
               page_loop_fs fuel' (S i) st' (names ++ [name]) (local_write st io files)
           end
       end.

(** [ReadRawDiff]: the result, the pages requested and the raw directory. *)
Definition ReadRawDiff_fs (fuel : nat) : option (Z * list string * gmap Z string) :=
  page_loop_fs fuel 0 initial [] ∅.

End ReadRawDiff.
End RawDir.

(** ** The whole run: [GetSnapshotDiff] and [main] *)

Module Driver.
Import Cxx DirChecks RawDir.

(** What the file system and the upstream do during a run. *)
Record world := mk_world
  { result_stat : option Z;               (* [stat(resultDir)]: [st_mode] *)
    result_dir : option (list string);    (* [opendir(resultDir)] *)
    log_open_ok : bool;                   (* [out.log] can be created *)
    snap_stat : option Z;                 (* [stat(snapDir)]: [st_mode] *)
    mkdir_raw : Z;                        (* [MkDir(resultDir/raw)] *)
    stream : nat → string → Pagination.page_io;
    mkdir_buckets : Z;                    (* [MkDir(resultDir/parallel_diff)] *)
    bucket_open_ok : Z → bool;
    serial_create_ok : bool;              (* [serialized_diff] can be created *)
    mkdir_json : Z;                       (* [MkDir(resultDir/serialized_json)] *)
    serial_open_ok : bool;                (* [serialized_diff] can be read back *)
    lstat : string → option stat;
    json_open_ok : Z → bool }.

(** What a run leaves: how it ended, the lines of [serialized_diff] and
    the JSON documents. *)
Record report := mk_report
  { status : outcome Z;
    serialized_diff : option (list string);
    json_documents : list (Z * JsonObject) }.

Definition stop (r : outcome Z) : option report :=
  Some {| status := r; serialized_diff := None; json_documents := [] |}.

(** [GetSnapshotDiff]; the raw file [rawDir/i] that the Bucketizer opens
    is the one the Pagination Driver wrote under that name. *)
Definition GetSnapshotDiff (w : world) (fuel : nat) (snapDir snap1 snap2 : string)
    (genJsonOutput : bool) : option report :=
  if negb (IsDir (result_stat w)) then stop (Returned 1)
  else
    match IsDirEmpty (result_dir w) with
    | Undefined => stop Undefined
    | Terminated => stop Terminated
    | Returned false => stop (Returned 1)
    | Returned true =>
        if negb (log_open_ok w) then stop (Returned 1)
        else if negb (IsDir (snap_stat w)) then stop (Returned 1)
        else if negb (mkdir_raw w =? 0) then stop (Returned 1)
        else
          match ReadRawDiff_fs snapDir snap1 snap2 (stream w) fuel with
          | None => None
          | Some (readNum, _, files) =>
              if readNum <? 0 then stop (Returned 1)
              else
                match Bucketizer.BucketizeDiff (mkdir_buckets w) (bucket_open_ok w)
                        (fun i => files !! Z.of_nat i) ∅ readNum with
                | (Returned true, buckets) =>
                    match Serializer.SerializeBuckets (serial_create_ok w) buckets with
                    | (Returned true, _, out) =>
                        let done r docs :=
                          Some {| status := r; serialized_diff := out;
                                  json_documents := docs |} in
                        if negb (mkdir_json w =? 0) then done (Returned 1) []
                        else if genJsonOutput then
                          match EventMapper.GenerateJSON (lstat w) (json_open_ok w) snapDir
                                  (if serial_open_ok w then unlines <$> out else None) with
                          | None => None
                          | Some (Returned true, docs) => done (Returned 0) docs
                          | Some (Returned false, docs) => done (Returned 1) docs
                          | Some (Terminated, docs) => done Terminated docs
                          | Some (Undefined, docs) => done Undefined docs
                          end
                        else done (Returned 0) []
                    | (Returned false, _, _) => stop (Returned 1)
                    | (Terminated, _, _) => stop Terminated
                    | (Undefined, _, _) => stop Undefined
                    end
                | (Returned false, _) => stop (Returned 1)
                | (Terminated, _) => stop Terminated
                | (Undefined, _) => stop Undefined
                end
          end
    end.

(** [main]: [argv] with the name of the program first. *)
Definition main (w : world) (fuel : nat) (argv : list string) : option (outcome Z) :=
  match argv with
  | [_; snapDir; snap1; snap2; _] =>
      match GetSnapshotDiff w fuel snapDir snap1 snap2 true with
      | None => None
      | Some r =>
          Some match status r with
               | Returned s => Returned (if negb (s =? 0) then 1 else 0)
               | Terminated => Terminated
               | Undefined => Undefined
               end
      end
  | _ => Some (Returned 1)
  end.

End Driver.

(** ** The ordered map behind [JsonMap] *)

Module JsonMapFacts.
Import Json.

Lemma ascii_compare_refl c : Ascii.compare c c = Eq.
Proof. unfold Ascii.compare. apply N.compare_refl. Qed.

Lemma compare_refl s : String.compare s s = Eq.
Proof.
  induction s as [|c s IH]; [reflexivity|].
  simpl. now rewrite ascii_compare_refl.
Qed.

Lemma compare_Eq s t : String.compare s t = Eq ↔ s = t.
Proof.
  split; [apply String.compare_eq_iff | intros ->; apply compare_refl].
Qed.

Lemma compare_Gt s t : String.compare s t = Gt ↔ String.compare t s = Lt.
Proof.
  rewrite (String.compare_antisym t s).
  destruct (String.compare s t); simpl; split; congruence.
Qed.

Lemma compare_trans s : ∀ t u,
  String.compare s t = Lt → String.compare t u = Lt → String.compare s u = Lt.
Proof.
  induction s as [|a s IH]; intros [|b t] [|c u]; simpl; try congruence.
  unfold Ascii.compare.
  destruct (N.compare_spec (N_of_ascii a) (N_of_ascii b)) as [E1|L1|G1];
    destruct (N.compare_spec (N_of_ascii b) (N_of_ascii c)) as [E2|L2|G2];
    try congruence; intros H1 H2.
  - rewrite E1, E2, N.compare_refl. eauto.
  - rewrite E1, (proj2 (N.compare_lt_iff _ _) L2). reflexivity.
  - rewrite <- E2, (proj2 (N.compare_lt_iff _ _) L1). reflexivity.
  - rewrite (proj2 (N.compare_lt_iff (N_of_ascii a) (N_of_ascii c))) by lia. reflexivity.
Qed.

Lemma eqb_compare s t : String.eqb s t = true ↔ String.compare s t = Eq.
Proof. now rewrite String.eqb_eq, compare_Eq. Qed.

(** The keys stand in strictly ascending order. *)
Definition entry_lt (x y : string * JsonObject) : Prop := String.compare x.1 y.1 = Lt.
Definition ordered (m : list (string * JsonObject)) : Prop := StronglySorted entry_lt m.

Lemma get_below key v (m : list (string * JsonObject)) :
  Forall (entry_lt (key, v)) m → get key m = None.
Proof.
  induction 1 as [|[k w] m Hk _ IH]; [reflexivity|].
  simpl. unfold entry_lt in Hk. simpl in Hk.
  destruct (String.eqb key k) eqn:E; [|exact IH].
  apply eqb_compare in E. congruence.
Qed.

Lemma insert_elem key val (m : list (string * JsonObject)) e :
  e ∈ insert key val m → e = (key, val) ∨ e ∈ m.
Proof.
  induction m as [|[k w] m IH]; simpl.
  - rewrite list_elem_of_singleton. auto.
  - destruct (String.compare key k); rewrite ?elem_of_cons; [auto | tauto |].
    intros [->|H]; [auto|]. destruct (IH H); auto.
Qed.

Lemma insert_ordered key val m : ordered m → ordered (insert key val m).
Proof.
  induction 1 as [|[k w] m Hs IH Hk]; simpl; [repeat constructor|].
  destruct (String.compare key k) eqn:C.
  - now constructor.
  - constructor; [now constructor|]. constructor; [exact C|].
    eapply Forall_impl; [exact Hk|]. intros [k' w'] H. unfold entry_lt in *. simpl in *.
    eapply compare_trans; eauto.
  - constructor; [exact IH|]. apply Forall_forall. intros e He.
    apply insert_elem in He as [->|He].
    + now apply compare_Gt.
    + rewrite Forall_forall in Hk. now apply Hk.
Qed.

Lemma get_insert_other key val key' (m : list (string * JsonObject)) :
  key' ≠ key → get key' (insert key val m) = get key' m.
Proof.
  intros Hne. induction m as [|[k w] m IH]; simpl.
  - now apply String.eqb_neq in Hne as ->.
  - destruct (String.compare key k); simpl; [reflexivity| |now rewrite IH].
    now apply String.eqb_neq in Hne as ->.
Qed.

Lemma get_insert_same key val m :
  ordered m → get key (insert key val m) = Some (default val (get key m)).
Proof.
  induction 1 as [|[k w] m Hs IH Hk]; simpl.
  - now rewrite String.eqb_refl.
  - destruct (String.compare key k) eqn:C; simpl.
    + apply compare_Eq in C as ->. now rewrite String.eqb_refl.
    + rewrite String.eqb_refl.
      destruct (String.eqb key k) eqn:E; [apply eqb_compare in E; congruence|].
      rewrite (get_below key val); [reflexivity|].
      eapply Forall_impl; [exact Hk|]. intros [k' w'] H. unfold entry_lt in *. simpl in *.
      eapply compare_trans; eauto.
    + destruct (String.eqb key k) eqn:E; [apply eqb_compare in E; congruence|].
      exact IH.
Qed.

Lemma insert_present key val m :
  ordered m → is_Some (get key m) → insert key val m = m.
Proof.
  induction 1 as [|[k w] m Hs IH Hk]; simpl; intros [x Hx]; [discriminate|].
  destruct (String.compare key k) eqn:C; [reflexivity| |].
  - destruct (String.eqb key k) eqn:E; [apply eqb_compare in E; congruence|].
    rewrite (get_below key val) in Hx; [discriminate|].
    eapply Forall_impl; [exact Hk|]. intros [k' w'] H. unfold entry_lt in *. simpl in *.
    eapply compare_trans; eauto.
  - destruct (String.eqb key k) eqn:E; [apply eqb_compare in E; congruence|].
    rewrite IH; eauto.
Qed.

Lemma insert_absent key val (m : list (string * JsonObject)) :
  get key m = None → insert key val m ≡ₚ (key, val) :: m.
Proof.
  induction m as [|[k w] m IH]; simpl; [reflexivity|].
  destruct (String.eqb key k) eqn:E; [discriminate|]. intros H.
  destruct (String.compare key k) eqn:C.
  - apply eqb_compare in C. congruence.
  - reflexivity.
  - rewrite (IH H). apply perm_swap.
Qed.

#[local] Instance entry_lt_antisym : AntiSymm (=) entry_lt.
Proof.
  intros x y H1 H2. unfold entry_lt in *. apply compare_Gt in H2. congruence.
Qed.

(** [JsonMap::Add] never replaces: after [Add (key, val)] the map is still
    in key order, [key] is bound to the value it had before if it had one and
    to [val] otherwise, and the other keys are bound as before. *)
Theorem Add_keeps_first (key key' : string) (val : JsonObject)
    (m : list (string * JsonObject)) :
  ordered m →
  ordered (Add key val m) ∧
  get key' (Add key val m) =
    if String.eqb key' key then Some (default val (get key m)) else get key' m.
Proof.
  intros Ho. unfold Add. split; [now apply insert_ordered|].
  destruct (String.eqb_spec key' key) as [->|Hne].
  - now apply get_insert_same.
  - now apply get_insert_other.
Qed.

Lemma Add_keeps_first_witness :
  get "type" (Add "type" (JsonString "rename") (Add "type" (JsonString "delete") []))
  = Some (JsonString "delete").
Proof.
  refine (proj2 (Add_keeps_first "type" "type" (JsonString "rename")
                   (Add "type" (JsonString "delete") []) _)).
  repeat constructor.
Defined.

(** Adding two different keys gives the same map in either order: the
    entries of an event do not depend on the order of the [Add] calls. *)
Theorem Add_commutes (k1 k2 : string) (v1 v2 : JsonObject)
    (m : list (string * JsonObject)) :
  ordered m → k1 ≠ k2 →
  Add k1 v1 (Add k2 v2 m) = Add k2 v2 (Add k1 v1 m).
Proof.
  intros Ho Hne. unfold Add.
  destruct (get k1 m) as [x1|] eqn:G1; destruct (get k2 m) as [x2|] eqn:G2.
  - rewrite (insert_present k2 v2 m), (insert_present k1 v1 m); eauto.
    rewrite (insert_present k2 v2 m); eauto.
  - rewrite (insert_present k1 v1 m Ho) by eauto.
    apply insert_present; [now apply insert_ordered|].
    rewrite get_insert_other by exact Hne. eauto.
  - rewrite (insert_present k2 v2 m Ho) by eauto. symmetry.
    apply insert_present; [now apply insert_ordered|].
    rewrite get_insert_other by congruence. eauto.
  - apply (StronglySorted_unique entry_lt); try (now repeat apply insert_ordered).
    rewrite (insert_absent k1 v1 (insert k2 v2 m))
      by (rewrite get_insert_other by exact Hne; exact G1).
    rewrite (insert_absent k2 v2 (insert k1 v1 m))
      by (rewrite get_insert_other by congruence; exact G2).
    rewrite (insert_absent k2 v2 m G2), (insert_absent k1 v1 m G1).
    apply perm_swap.
Qed.

Lemma Add_commutes_witness :
  Add "stat" (JsonBool true) (Add "created" (JsonBool false) [])
  = Add "created" (JsonBool false) (Add "stat" (JsonBool true) []).
Proof.
  apply (Add_commutes "stat" "created" (JsonBool true) (JsonBool false) []);
    [constructor | discriminate].
Defined.

End JsonMapFacts.

(** ** The directory checks *)

Module DirChecksFacts.
Import DirChecks.

Lemma land_type_bit st_mode :
  Z.land st_mode S_IFDIR = Z.land (Z.land st_mode S_IFMT) S_IFDIR.
Proof. now rewrite <- Z.land_assoc. Qed.

(** [IsDir] tests one bit of the file type instead of comparing the
    type: among the file types it answers [true] for a directory, and also
    for a block device and for a socket, and [false] for the others. *)
Theorem IsDir_accepts (st_mode : Z) :
  In (Z.land st_mode S_IFMT)
     [S_IFSOCK; S_IFLNK; S_IFREG; S_IFBLK; S_IFDIR; S_IFCHR; S_IFIFO] →
  (IsDir (Some st_mode) = true ↔
   Z.land st_mode S_IFMT = S_IFDIR ∨
   Z.land st_mode S_IFMT = S_IFBLK ∨
   Z.land st_mode S_IFMT = S_IFSOCK).
Proof.
  intros Hin. unfold IsDir. rewrite land_type_bit.
  simpl in Hin. destruct Hin as [H|[H|[H|[H|[H|[H|[H|[]]]]]]]]; rewrite <- H;
    vm_compute; split; intros; try discriminate; auto;
    repeat match goal with H : _ ∨ _ |- _ => destruct H end; discriminate.
Qed.

Lemma IsDir_accepts_witness :
  IsDir (Some (S_IFBLK + 432)) = true ↔
  Z.land (S_IFBLK + 432) S_IFMT = S_IFDIR ∨
  Z.land (S_IFBLK + 432) S_IFMT = S_IFBLK ∨
  Z.land (S_IFBLK + 432) S_IFMT = S_IFSOCK.
Proof.
  apply (IsDir_accepts (S_IFBLK + 432)). right; right; right; left. reflexivity.
Defined.

(** [IsDirEmpty] answers [true] exactly when the directory stream has
    fewer than three entries: for a stream made of [.], [..] and the names
    in the directory, in any order, exactly when the directory holds no
    name. *)
Theorem IsDirEmpty_counts (entries files : list string) :
  entries ≡ₚ "." :: ".." :: files →
  (IsDirEmpty (Some entries) = Returned true ↔ files = []).
Proof.
  intros Hp. apply Permutation_length in Hp. simpl in Hp.
  unfold IsDirEmpty.
  destruct entries as [|e1 [|e2 [|e3 rest]]]; simpl in *; try lia.
  - destruct files; [tauto | simpl in Hp; lia].
  - destruct files; [simpl in Hp; lia|]. split; [discriminate | discriminate].
Qed.

Lemma IsDirEmpty_counts_witness :
  IsDirEmpty (Some [".."; "out.log"; "."]) = Returned true ↔ ["out.log"] = [].
Proof.
  apply (IsDirEmpty_counts [".."; "out.log"; "."] ["out.log"]).
  apply Permutation_sym. apply perm_trans with ("." :: "out.log" :: [".."]).
  - apply perm_skip. apply perm_swap.
  - change ("." :: "out.log" :: [".."]) with (["."] ++ ["out.log"; ".."]).
    apply perm_trans with (".." :: "." :: ["out.log"]);
      [|apply perm_skip; apply perm_swap].
    apply perm_trans with ("." :: ".." :: ["out.log"]);
      [apply perm_skip; apply perm_swap | apply perm_swap].
Defined.

End DirChecksFacts.

(** ** Pagination Driver: pages, retries and raw files *)

Module RawDirFacts.
Import Cxx CxxFacts Pagination PaginationFacts RawDir.

(** The loop with the raw directory returns what [page_loop] returns and
    requests the same pages. *)
Lemma page_loop_fs_result snapDir snap1 snap2 stream fuel : ∀ i st names files,
  page_loop snapDir snap1 snap2 stream fuel i st names =
    (fun r => (r.1.1, r.1.2)) <$> page_loop_fs snapDir snap1 snap2 stream fuel i st names files.
Proof.
  induction fuel as [|fuel IH]; intros i st names files; simpl.
  - destruct (eof st); reflexivity.
  - destruct (eof st); [reflexivity|].
    destruct (read_page st _); [apply IH | reflexivity].
Qed.

(** *** Lines with fewer than three tokens *)

Lemma extract_failed ls s ls' s' :
  extract ls s = (ls', s') → ifail ls' = true → s' = s ∧ good ls' = false.
Proof.
  intros E F. destruct (extract_cases ls s); injection E as <- <-;
    simpl in *; try discriminate; split; try reflexivity.
  unfold good; simpl. now rewrite andb_false_r.
Qed.

Lemma extract_not_good ls s :
  good ls = false →
  ∃ ls', extract ls s = (ls', s) ∧ good ls' = false.
Proof.
  intros Hg. unfold extract. rewrite Hg. eexists. split; [reflexivity|].
  unfold good. simpl. now rewrite andb_false_r.
Qed.

Lemma read_all_empty fuel ls s :
  (String.length (ibuf ls) < fuel)%nat → read_all fuel ls s = [] →
  ∃ ls', extract ls s = (ls', s) ∧ good ls' = false.
Proof.
  intros Hf H. destruct fuel as [|fuel]; [lia|]. simpl in H.
  destruct (extract ls s) as [ls' s'] eqn:E.
  destruct (ifail ls') eqn:F; [|discriminate].
  destruct (extract_failed _ _ _ _ E F) as [-> Hg]. eauto.
Qed.

(** The loop of three extractions on a line with fewer than three tokens
    leaves the last token of the line in [s] and in [currCookie], the empty
    string when the line has no token. *)
Lemma read3_short line :
  (length (tokens line) < 3)%nat →
  read3 3 (iss line) EmptyString EmptyString
  = (default EmptyString (last (tokens line)), default EmptyString (last (tokens line))).
Proof.
  unfold tokens. intros Hlen.
  destruct (read_all _ _ _) as [|t1 [|t2 [|t3 rest]]] eqn:H; simpl in Hlen; try lia.
  - apply read_all_empty in H as (l1 & E1 & G1); [|simpl; lia].
    destruct (extract_not_good l1 EmptyString G1) as (l2 & E2 & G2).
    destruct (extract_not_good l2 EmptyString G2) as (l3 & E3 & G3).
    simpl. now rewrite E1, E2, E3.
  - apply read_all_cons in H as (l1 & f1 & _ & E1 & _ & L1 & H); [|simpl; lia].
    apply read_all_empty in H as (l2 & E2 & G2); [|assumption].
    destruct (extract_not_good l2 t1 G2) as (l3 & E3 & G3).
    simpl. now rewrite E1, E2, E3.
  - apply read_all_cons in H as (l1 & f1 & _ & E1 & _ & L1 & H); [|simpl; lia].
    apply read_all_cons in H as (l2 & f2 & _ & E2 & _ & L2 & H); [|assumption].
    apply read_all_empty in H as (l3 & E3 & G3); [|assumption].
    simpl. now rewrite E1, E2, E3.
Qed.

(** A line with fewer than three tokens is judged by its last token: it
    ends the page when that token is a sentinel, and otherwise makes it the
    running cookie; a line without any token makes the cookie empty. *)
Theorem short_line_scanned (st : scan) (line : string) :
  (length (tokens line) < 3)%nat →
  let t := default EmptyString (last (tokens line)) in
  scan_line st line =
    if String.eqb t "EOB" || String.eqb t "EOF" then
      {| vars := {| startPoint := startPoint (vars st);
                    readNum := int_add (readNum (vars st)) 1;
                    eof := eof (vars st) || String.eqb t "EOF";
                    numRetryReads := numRetryReads (vars st) |};
         localFile_open := false |}
    else {| vars := set_cookie (vars st) t; localFile_open := localFile_open st |}.
Proof.
  intros Hlen t. unfold scan_line. rewrite (read3_short line Hlen). fold t.
  destruct (String.eqb t "EOB") eqn:B; simpl.
  - apply String.eqb_eq in B. rewrite B. simpl. now rewrite orb_false_r.
  - destruct (String.eqb t "EOF"); simpl; [now rewrite orb_true_r | reflexivity].
Qed.

Lemma short_line_scanned_witness :
  scan_line {| vars := initial; localFile_open := true |} "7 EOB"
  = {| vars := {| startPoint := "0"; readNum := 1; eof := false; numRetryReads := 0 |};
       localFile_open := false |} ∧
  startPoint (vars (scan_line {| vars := initial; localFile_open := true |} EmptyString))
  = EmptyString.
Proof.
  split.
  - apply (short_line_scanned {| vars := initial; localFile_open := true |} "7 EOB").
    vm_compute. lia.
  - rewrite (short_line_scanned {| vars := initial; localFile_open := true |} EmptyString);
      [reflexivity | vm_compute; lia].
Defined.

(** *** The line loop of a page *)

(** What the line loop tests: the string left in [s] by the three
    extractions is a sentinel. *)
Definition sentinel_read (line : string) : Prop :=
  (read3 3 (iss line) EmptyString EmptyString).1 = "EOB" ∨
  (read3 3 (iss line) EmptyString EmptyString).1 = "EOF".

Lemma scan_line_sentinel st line :
  sentinel_read line →
  localFile_open (scan_line st line) = false ∧
  startPoint (vars (scan_line st line)) = startPoint (vars st) ∧
  readNum (vars (scan_line st line)) = int_add (readNum (vars st)) 1.
Proof.
  unfold sentinel_read, scan_line.
  destruct (read3 3 (iss line) EmptyString EmptyString) as [s c]. simpl.
  intros [-> | ->]; simpl; auto.
Qed.

Lemma scan_lines_closed lines : ∀ st,
  localFile_open st = false → scan_lines st lines = st.
Proof. destruct lines; intros st H; simpl; [reflexivity | now rewrite H]. Qed.

Lemma scan_line_counts st line :
  (readNum (vars (scan_line st line)) = readNum (vars st) ∧
   localFile_open (scan_line st line) = localFile_open st) ∨
  (readNum (vars (scan_line st line)) = int_add (readNum (vars st)) 1 ∧
   localFile_open (scan_line st line) = false).
Proof.
  unfold scan_line.
  destruct (read3 3 (iss line) EmptyString EmptyString) as [s c].
  destruct (String.eqb s "EOB"); [right; now split|].
  destruct (String.eqb s "EOF"); [right; now split | left; now split].
Qed.

(** In a page the lines after the first sentinel line are not looked at:
    they change neither the cookie nor the count; and whatever the lines of
    a page are, the page is counted once at most. *)
Theorem page_scan_stops_at_sentinel (st : scan) (pre post : list string) (e : string) :
  sentinel_read e →
  scan_lines st (pre ++ e :: post) = scan_lines st (pre ++ [e]) ∧
  (∀ lines,
     readNum (vars (scan_lines st lines)) = readNum (vars st) ∨
     readNum (vars (scan_lines st lines)) = int_add (readNum (vars st)) 1).
Proof.
  intros He. split.
  - revert st. induction pre as [|l pre IH]; intros st; simpl.
    + destruct (localFile_open st); [|reflexivity].
      destruct (scan_line_sentinel st e He) as (Hc & _).
      now rewrite !scan_lines_closed.
    + destruct (localFile_open st); [apply IH | reflexivity].
  - intros lines. revert st. induction lines as [|l lines IH]; intros st; simpl; [auto|].
    destruct (localFile_open st) eqn:Ho; [|auto].
    destruct (scan_line_counts st l) as [[Hr Hl]|[Hr Hl]].
    + rewrite <- Hr. apply IH.
    + rewrite scan_lines_closed by exact Hl. auto.
Qed.

Lemma page_scan_stops_at_sentinel_witness :
  scan_lines {| vars := initial; localFile_open := true |}
    ["1 ck1 DIR_C /d"; "0 ck2 EOB"; "2 ck3 FILE_C /d/f"; "0 ck4 EOF"]
  = scan_lines {| vars := initial; localFile_open := true |}
      ["1 ck1 DIR_C /d"; "0 ck2 EOB"].
Proof.
  refine (proj1 (page_scan_stops_at_sentinel {| vars := initial; localFile_open := true |}
                   ["1 ck1 DIR_C /d"] ["2 ck3 FILE_C /d/f"; "0 ck4 EOF"] "0 ck2 EOB" _)).
  left. reflexivity.
Defined.

(** *** The retries of the copy *)

Lemma int_add_small a b :
  - 2 ^ 31 ≤ a + b < 2 ^ 31 → int_add a b = a + b.
Proof.
  intros H. unfold int_add, wrap_int.
  rewrite Z.mod_small by lia. lia.
Qed.

Lemma scan_lines_retries lines : ∀ st,
  numRetryReads (vars (scan_lines st lines)) = numRetryReads (vars st).
Proof.
  induction lines as [|l lines IH]; intros st; simpl; [reflexivity|].
  destruct (localFile_open st); [|reflexivity].
  rewrite IH. unfold scan_line.
  destruct (read3 3 (iss l) EmptyString EmptyString) as [s c].
  destruct (String.eqb s "EOB"); [reflexivity|].
  destruct (String.eqb s "EOF"); reflexivity.
Qed.

Section Retries.
Variables snapDir snap1 snap2 : string.
Variable stream : nat → string → page_io.

Definition always_bad : Prop :=
  ∀ i name,
    (∃ calls, StreamReader.OpenStreamUnreliable (opens (stream i name)) = Some (0, calls)) ∧
    local_ok (stream i name) = true ∧ statusBad (stream i name) = true.

Lemma bad_reads_loop (k : nat) : ∀ fuel i st names,
  always_bad → eof st = false →
  numRetryReads st = MAX_RETRIES - Z.of_nat k → (k ≤ 10)%nat → (k < fuel)%nat →
  page_loop snapDir snap1 snap2 stream fuel i st names =
    Some (-1, names ++ repeat (diffFileName snapDir snap1 snap2 (startPoint st)) (S k)).
Proof.
  induction k as [|k IH]; intros fuel i st names Hbad He Hr Hk Hf;
    (destruct fuel as [|fuel]; [lia|]); simpl; rewrite He;
    destruct (Hbad i (diffFileName snapDir snap1 snap2 (startPoint st)))
      as ([calls Ho] & Hl & Hb);
    unfold read_page; rewrite Ho, Hl, Hb; simpl.
  - replace (numRetryReads st =? MAX_RETRIES) with true
      by (symmetry; apply Z.eqb_eq; lia).
    reflexivity.
  - replace (numRetryReads st =? MAX_RETRIES) with false
      by (symmetry; apply Z.eqb_neq; lia).
    rewrite IH; simpl; try assumption; try lia.
    + now rewrite <- app_assoc.
    + rewrite int_add_small; unfold MAX_RETRIES in *; lia.
Qed.

(** The retries of the copy are counted for the whole run.  When every
    read goes bad the first page is requested eleven times and the run fails;
    a page that is copied well leaves the counter as it is; and once ten bad
    reads have been counted the next bad read fails the run at once. *)
Theorem read_retry_budget (fuel : nat) :
  always_bad → (11 ≤ fuel)%nat →
  ReadRawDiff snapDir snap1 snap2 stream fuel
    = Some (-1, repeat (diffFileName snapDir snap1 snap2 "0") 11) ∧
  (∀ st io st', read_page st io = Again st' → statusBad io = false →
                numRetryReads st' = numRetryReads st) ∧
  (∀ st io, numRetryReads st = MAX_RETRIES → statusBad io = true →
            read_page st io = Return (-1)).
Proof.
  intros Hbad Hf. split; [|split].
  - unfold ReadRawDiff. rewrite (bad_reads_loop 10); try assumption; try reflexivity; lia.
  - intros st io st'. unfold read_page.
    destruct (StreamReader.OpenStreamUnreliable (opens io)) as [[[| |] c]|];
      try discriminate.
    destruct (local_ok io); simpl; [|discriminate].
    intros H Hb. rewrite Hb in H. injection H as <-.
    now rewrite scan_lines_retries.
  - intros st io Hr Hb. unfold read_page.
    destruct (StreamReader.OpenStreamUnreliable (opens io)) as [[[| |] c]|];
      try reflexivity.
    destruct (local_ok io); simpl; [|reflexivity].
    rewrite Hb, Hr. reflexivity.
Qed.

End Retries.

Definition bad_stream : nat → string → page_io :=
  fun _ _ => {| opens := fun _ => Opened; local_ok := true;
                data := "1 ck1 DIR"; statusBad := true |}.

Lemma read_retry_budget_witness :
  ReadRawDiff "/snap" "s1" "s2" bad_stream 20
  = Some (-1, repeat "/snap/s1^s2^0" 11).
Proof.
  refine (proj1 (read_retry_budget "/snap" "s1" "s2" bad_stream 20 _ _)); [|lia].
  intros i name. split; [exists 1%nat; reflexivity | split; reflexivity].
Defined.

(** *** A stream of pages *)

(** The second token of a line. *)
Definition second (line : string) : string := nth 1 (tokens line) EmptyString.

(** The running cookie after the records of a page: the second token of
    the last one, the cookie as it was when there is none. *)
Fixpoint cookie_after (c : string) (recs : list string) : string :=
  match recs with
  | [] => c
  | l :: rest => cookie_after (second l) rest
  end.

(** A page that is opened and copied well, made of the records [recs], a
    line whose third token is [sentinel], and anything after it. *)
Definition page_ok (sentinel : string) (io : page_io) (recs : list string) : Prop :=
  (∃ calls, StreamReader.OpenStreamUnreliable (opens io) = Some (0, calls)) ∧
  local_ok io = true ∧ statusBad io = false ∧
  Forall record_line recs ∧
  ∃ e post t1 t2 rest,
    getlines (data io) = recs ++ e :: post ∧ tokens e = t1 :: t2 :: sentinel :: rest.

Lemma scan_records recs : ∀ st rest,
  Forall record_line recs → localFile_open st = true →
  scan_lines st (recs ++ rest) =
    scan_lines {| vars := set_cookie (vars st) (cookie_after (startPoint (vars st)) recs);
                  localFile_open := true |} rest.
Proof.
  induction recs as [|l recs IH]; intros st rest Hall Ho.
  - destruct st as [[c r e n] o]. simpl in *. now subst o.
  - inversion Hall as [|? ? (t1 & t2 & t3 & r & Ht & Hb & Hf) Hall']; subst.
    simpl. rewrite Ho, (scan_line_record st l _ _ _ _ Ht Hb Hf).
    rewrite IH by assumption. simpl. unfold second. rewrite Ht. reflexivity.
Qed.

Lemma scan_line_EOF st line t1 t2 rest :
  tokens line = t1 :: t2 :: "EOF" :: rest →
  scan_line st line =
    {| vars := {| startPoint := startPoint (vars st);
                  readNum := int_add (readNum (vars st)) 1;
                  eof := true;
                  numRetryReads := numRetryReads (vars st) |};
       localFile_open := false |}.
Proof.
  intros H. unfold scan_line. now rewrite (read3_tokens _ _ _ _ _ H).
Qed.

Lemma read_page_ok sentinel st io recs :
  sentinel = "EOB" ∨ sentinel = "EOF" →
  page_ok sentinel io recs →
  read_page st io =
    Again {| startPoint := cookie_after (startPoint st) recs;
             readNum := int_add (readNum st) 1;
             eof := eof st || String.eqb sentinel "EOF";
             numRetryReads := numRetryReads st |}.
Proof.
  intros Hs ([calls Ho] & Hl & Hb & Hrecs & e & post & t1 & t2 & rest & Hlines & He).
  unfold read_page. rewrite Ho, Hl, Hb. simpl. rewrite Hlines.
  rewrite scan_records by (assumption || reflexivity). simpl.
  destruct Hs as [-> | ->].
  - rewrite (scan_line_EOB _ e _ _ _ He). rewrite scan_lines_closed by reflexivity.
    simpl. now rewrite orb_false_r.
  - rewrite (scan_line_EOF _ e _ _ _ He). rewrite scan_lines_closed by reflexivity.
    simpl. now rewrite orb_true_r.
Qed.

Lemma local_write_ok sentinel st io recs files :
  page_ok sentinel io recs → local_write st io files = <[readNum st := data io]> files.
Proof.
  intros ([calls Ho] & Hl & _). unfold local_write. now rewrite Ho, Hl.
Qed.

(** The cookies with which the pages are requested. *)
Fixpoint cookies (c : string) (pages : list (page_io * list string)) : list string :=
  match pages with
  | [] => [c]
  | p :: rest => c :: cookies (cookie_after c p.2) rest
  end.

Section Stream.
Variables snapDir snap1 snap2 : string.
Variable stream : nat → string → page_io.

Lemma pages_loop (init : list (page_io * list string)) :
  ∀ (fin : page_io * list string) fuel i st names files,
  (∀ j name p, (init ++ [fin]) !! j = Some p → stream (i + j)%nat name = p.1) →
  Forall (fun p => page_ok "EOB" p.1 p.2) init → page_ok "EOF" fin.1 fin.2 →
  eof st = false → 0 ≤ readNum st →
  readNum st + Z.of_nat (length init) + 1 < 2 ^ 31 →
  (length init < fuel)%nat →
  (∀ k, readNum st ≤ k → files !! k = None) →
  ∃ files',
    page_loop_fs snapDir snap1 snap2 stream fuel i st names files =
      Some (readNum st + Z.of_nat (length init) + 1,
            names ++ map (diffFileName snapDir snap1 snap2) (cookies (startPoint st) init),
            files') ∧
    ∀ k, files' !! k =
         if decide (readNum st ≤ k)
         then (fun p => data p.1) <$> (init ++ [fin]) !! Z.to_nat (k - readNum st)
         else files !! k.
Proof.
  induction init as [|p init IH];
    intros fin fuel i st names files Hstream Hinit Hfin He Hr Hbound Hf Hfresh;
    (destruct fuel as [|fuel]; [simpl in Hf; lia|]); simpl page_loop_fs; rewrite He.
  - assert (Hs : stream i (diffFileName snapDir snap1 snap2 (startPoint st)) = fin.1).
    { rewrite <- (Nat.add_0_r i). now apply Hstream. }
    rewrite Hs, (read_page_ok "EOF" st fin.1 fin.2) by auto.
    rewrite (local_write_ok "EOF" _ _ fin.2) by assumption.
    rewrite He. simpl in Hbound |- *. rewrite int_add_small by lia.
    exists (<[readNum st := data fin.1]> files). split.
    + destruct fuel; simpl; repeat f_equal; lia.
    + intros k. rewrite lookup_insert.
      destruct (decide (readNum st = k)) as [<-|Hne].
      * rewrite decide_True by lia. rewrite Z.sub_diag. reflexivity.
      * case_decide; [|reflexivity].
        rewrite Hfresh by assumption.
        destruct (Z.to_nat (k - readNum st)) as [|n] eqn:E; [lia|reflexivity].
  - assert (Hs : stream i (diffFileName snapDir snap1 snap2 (startPoint st)) = p.1).
    { rewrite <- (Nat.add_0_r i). now apply Hstream. }
    apply Forall_cons in Hinit as [Hp Hinit].
    rewrite Hs, (read_page_ok "EOB" st p.1 p.2) by auto.
    rewrite (local_write_ok "EOB" _ _ p.2) by assumption.
    rewrite He. simpl in Hbound, Hf |- *.
    rewrite int_add_small by lia.
    edestruct (IH fin fuel (S i)
                 {| startPoint := cookie_after (startPoint st) p.2;
                    readNum := readNum st + 1; eof := false;
                    numRetryReads := numRetryReads st |}
                 (names ++ [diffFileName snapDir snap1 snap2 (startPoint st)])
                 (<[readNum st := data p.1]> files)) as (files' & -> & Hfiles);
      try assumption; simpl; try lia.
    { intros j name q Hq. change (S (i + j))%nat with (S i + j)%nat.
      replace (S i + j)%nat with (i + S j)%nat by lia.
      now apply Hstream. }
    { intros k Hk. rewrite lookup_insert_ne by lia. apply Hfresh. lia. }
    exists files'. split.
    + rewrite <- app_assoc. simpl. do 3 f_equal. lia.
    + intros k. rewrite Hfiles. simpl. rewrite lookup_insert.
      destruct (decide (readNum st = k)) as [<-|Hne].
      * rewrite decide_False by lia. rewrite decide_True by lia.
        rewrite Z.sub_diag. reflexivity.
      * destruct (decide (readNum st + 1 ≤ k)).
        -- rewrite decide_True by lia.
           replace (Z.to_nat (k - readNum st)) with (S (Z.to_nat (k - (readNum st + 1))))
             by lia.
           reflexivity.
        -- rewrite decide_False by lia. reflexivity.
Qed.

(** The pages of a stream, each one opened and copied well and made of
    records followed by a sentinel line, [EOB] for all but the last and [EOF]
    for the last: the run returns their number, requests the first page with
    the cookie [0] and each further one with the second token of the last
    record read so far, and leaves page [i] in the raw file [i]. *)
Theorem paginated_stream (init : list (page_io * list string))
    (fin : page_io * list string) (fuel : nat) :
  (∀ j name p, (init ++ [fin]) !! j = Some p → stream j name = p.1) →
  Forall (fun p => page_ok "EOB" p.1 p.2) init → page_ok "EOF" fin.1 fin.2 →
  Z.of_nat (length init) + 1 < 2 ^ 31 →
  (length init < fuel)%nat →
  ∃ files,
    ReadRawDiff_fs snapDir snap1 snap2 stream fuel =
      Some (Z.of_nat (length init) + 1,
            map (diffFileName snapDir snap1 snap2) (cookies "0" init),
            files) ∧
    ∀ k, files !! k =
         if decide (0 ≤ k)
         then (fun p => data p.1) <$> (init ++ [fin]) !! Z.to_nat k
         else None.
Proof.
  intros Hstream Hinit Hfin Hbound Hf. unfold ReadRawDiff_fs.
  destruct (pages_loop init fin fuel 0 initial [] ∅ Hstream Hinit Hfin eq_refl)
    as (files & E & Hfiles); simpl; try lia.
  { intros k _. apply lookup_empty. }
  exists files. split; [exact E|].
  intros k. rewrite Hfiles. simpl. rewrite Z.sub_0_r, lookup_empty. reflexivity.
Qed.

(** A page none of whose lines is a sentinel is not counted, and the
    page after it is copied into the same raw file: with such a page followed
    by a last page, the run returns 1 and the raw directory holds the last
    page only. *)
Theorem unterminated_page_overwritten (io0 io1 : page_io) (recs1 : list string)
    (fuel : nat) :
  (∀ name, stream 0%nat name = io0) → (∀ name, stream 1%nat name = io1) →
  (∃ calls, StreamReader.OpenStreamUnreliable (opens io0) = Some (0, calls)) →
  local_ok io0 = true → statusBad io0 = false →
  Forall record_line (getlines (data io0)) →
  page_ok "EOF" io1 recs1 →
  (2 ≤ fuel)%nat →
  ReadRawDiff_fs snapDir snap1 snap2 stream fuel =
    Some (1,
          [diffFileName snapDir snap1 snap2 "0";
           diffFileName snapDir snap1 snap2 (cookie_after "0" (getlines (data io0)))],
          {[ 0 := data io1 ]}).
Proof.
  intros H0 H1 [calls Ho] Hl Hb Hrecs Hfin Hf.
  destruct fuel as [|[|fuel]]; try lia.
  unfold ReadRawDiff_fs. simpl page_loop_fs.
  change (eof initial) with false. cbv iota. rewrite H0.
  assert (E0 : read_page initial io0 =
               Again (set_cookie initial (cookie_after "0" (getlines (data io0))))).
  { unfold read_page. rewrite Ho, Hl, Hb. simpl.
    rewrite <- (app_nil_r (getlines (data io0))) at 1.
    rewrite scan_records by (assumption || reflexivity). reflexivity. }
  rewrite E0. simpl eof. cbv iota. simpl startPoint. rewrite H1.
  rewrite (read_page_ok "EOF" _ io1 recs1) by auto.
  unfold local_write at 2. rewrite Ho, Hl.
  rewrite (local_write_ok "EOF" _ _ recs1) by assumption.
  simpl. rewrite insert_insert_eq.
  destruct fuel; reflexivity.
Qed.

End Stream.

Definition page0 : page_io :=
  {| opens := fun _ => Opened; local_ok := true;
     data := unlines ["1 ck1 DIR_C /d"; "0 ck2 EOB"]; statusBad := false |}.
Definition page1 : page_io :=
  {| opens := fun _ => Opened; local_ok := true;
     data := unlines ["2 ck3 FILE_C /d/f"; "0 ck4 EOF"]; statusBad := false |}.
Definition page_open : page_io :=
  {| opens := fun _ => Opened; local_ok := true;
     data := unlines ["1 ck1 DIR_C /d"]; statusBad := false |}.
Definition two_page_stream (first : page_io) : nat → string → page_io :=
  fun i _ => match i with O => first | _ => page1 end.

Lemma page0_ok : page_ok "EOB" page0 ["1 ck1 DIR_C /d"].
Proof.
  split; [exists 1%nat; reflexivity|]. repeat split.
  - repeat constructor. exists "1", "ck1", "DIR_C", ["/d"].
    repeat split; discriminate || reflexivity.
  - exists "0 ck2 EOB", [], "0", "ck2", []. split; reflexivity.
Defined.

Lemma page1_ok : page_ok "EOF" page1 ["2 ck3 FILE_C /d/f"].
Proof.
  split; [exists 1%nat; reflexivity|]. repeat split.
  - repeat constructor. exists "2", "ck3", "FILE_C", ["/d/f"].
    repeat split; discriminate || reflexivity.
  - exists "0 ck4 EOF", [], "0", "ck4", []. split; reflexivity.
Defined.

Lemma paginated_stream_witness :
  ∃ files,
    ReadRawDiff_fs "/snap" "s1" "s2" (two_page_stream page0) 2 =
      Some (1 + 1, ["/snap/s1^s2^0"; "/snap/s1^s2^ck1"], files) ∧
    files !! 1 = Some (data page1).
Proof.
  destruct (paginated_stream "/snap" "s1" "s2" (two_page_stream page0)
              [(page0, ["1 ck1 DIR_C /d"])] (page1, ["2 ck3 FILE_C /d/f"]) 2)
    as (files & E & Hfiles).
  - intros [|[|j]] name p H; simpl in H; inversion H; reflexivity.
  - constructor; [exact page0_ok | constructor].
  - exact page1_ok.
  - simpl. lia.
  - simpl. lia.
  - exists files. split; [exact E | exact (Hfiles 1)].
Defined.

Lemma unterminated_page_overwritten_witness :
  ReadRawDiff_fs "/snap" "s1" "s2" (two_page_stream page_open) 2 =
    Some (1, ["/snap/s1^s2^0"; "/snap/s1^s2^ck1"], {[ 0 := data page1 ]}).
Proof.
  apply (unterminated_page_overwritten "/snap" "s1" "s2" (two_page_stream page_open)
           page_open page1 ["2 ck3 FILE_C /d/f"] 2).
  - reflexivity.
  - reflexivity.
  - exists 1%nat. reflexivity.
  - reflexivity.
  - reflexivity.
  - repeat constructor. exists "1", "ck1", "DIR_C", ["/d"].
    repeat split; discriminate || reflexivity.
  - exact page1_ok.
  - lia.
Defined.

End RawDirFacts.

(** ** Bucketizer: what the bucket files hold, level by level *)

Module BucketOrder.
Import Cxx CxxFacts Bucketizer BucketizerFacts.

(** The record lines of a sequence of raw files: for each file in turn,
    its lines before the first sentinel line. *)
Definition records (files : list string) : list string :=
  files ≫= (fun content => before_sentinel (getlines content)).

Lemma records_cons content files :
  records (content :: files) = before_sentinel (getlines content) ++ records files.
Proof. reflexivity. Qed.

Lemma files_by_level ok (files : list string) : ∀ b : BucketFileMap,
  live b → (∀ level, ok level = true) →
  Forall (fun content => Forall well_formed (upto_sentinel (getlines content))) files →
  ∃ b', bucketize_files ok b (map Some files) = (None, b') ∧ live b' ∧
        ∀ level, bucket_lines b' level =
                 bucket_lines b level ++
                 map payload (filter (fun l => line_level l = Some level) (records files)).
Proof.
  induction files as [|content files IH]; intros b Hl Hok Hwf.
  - exists b. repeat split; [assumption|]. intros level. simpl. now rewrite app_nil_r.
  - inversion Hwf as [|? ? Hc Hwf']; subst.
    destruct (lines_lossless ok (getlines content) b Hl Hok Hc) as (b1 & E1 & Hl1 & _).
    pose proof (lines_by_level ok (getlines content) b Hl Hok Hc) as H1.
    rewrite E1 in H1. simpl in H1.
    destruct (IH b1 Hl1 Hok Hwf') as (b' & E & Hl' & H').
    exists b'. simpl bucketize_files. rewrite E1. repeat split; try assumption.
    intros level. rewrite H', H1, records_cons, filter_app, map_app.
    now rewrite app_assoc.
Qed.

(** Over raw page files that all open, with every bucket file creatable
    and every line up to the first sentinel line of its file a record, the
    bucket file of a level holds the payloads of the records of that level,
    in the order in which the files and then the lines were read. *)
Theorem bucket_keeps_encounter_order mk ok raw readNum (files : list string) :
  mk = 0 → (∀ level, ok level = true) →
  map raw (seq 0 (Z.to_nat readNum)) = map Some files →
  Forall (fun content => Forall well_formed (upto_sentinel (getlines content))) files →
  ∃ b, BucketizeDiff mk ok raw ∅ readNum = (Returned true, b) ∧
       ∀ level, bucket_lines b level =
                map payload (filter (fun l => line_level l = Some level) (records files)).
Proof.
  intros -> Hok Hraw Hwf.
  assert (H0 : live ∅) by (intros level p; rewrite lookup_empty; discriminate).
  destruct (files_by_level ok files ∅ H0 Hok Hwf) as (b & E & _ & Hb).
  exists b. unfold BucketizeDiff. simpl. rewrite Hraw, E. split; [reflexivity|].
  intros level. rewrite Hb. unfold bucket_lines. now rewrite lookup_empty.
Qed.

Definition interleaved : list string :=
  [ unlines ["2 o1 FILE_C /a/b"; "1 o2 DIR_C /a"; "0 c EOB"];
    unlines ["2 o3 FILE_C /a/c"; "0 c EOF"] ].

Lemma interleaved_ok :
  Forall (fun content => Forall well_formed (upto_sentinel (getlines content))) interleaved.
Proof.
  repeat constructor.
  - exists "2", "o1", "FILE_C", ["/a/b"], 2. split; reflexivity.
  - exists "1", "o2", "DIR_C", ["/a"], 1. split; reflexivity.
  - exists "0", "c", "EOB", [], 0. split; reflexivity.
  - exists "2", "o3", "FILE_C", ["/a/c"], 2. split; reflexivity.
  - exists "0", "c", "EOF", [], 0. split; reflexivity.
Defined.

Lemma bucket_keeps_encounter_order_witness :
  ∃ b, BucketizeDiff 0 (fun _ => true) (fun i => interleaved !! i) ∅ 2 = (Returned true, b) ∧
       bucket_lines b 515 = [tab_join ["FILE_C"; "/a/b"]; tab_join ["FILE_C"; "/a/c"]].
Proof.
  destruct (bucket_keeps_encounter_order 0 (fun _ => true) (fun i => interleaved !! i) 2
              interleaved eq_refl (fun _ => eq_refl) eq_refl interleaved_ok)
    as (b & E & Hb).
  exists b. split; [exact E | exact (Hb 515)].
Defined.

(** *** Bucket files are only appended to *)

Lemma bucket_lines_write (b1 b2 : BucketFileMap) level str :
  write_line b1 level str = Some b2 →
  dom b2 = dom b1 ∧
  ∀ level', bucket_lines b1 level' `prefix_of` bucket_lines b2 level'.
Proof.
  unfold write_line. destruct (b1 !! level) as [[f|]|] eqn:E; try discriminate.
  intro_inj. split.
  - rewrite dom_insert_L. apply elem_of_dom_2 in E. set_solver.
  - intros level'. rewrite bucket_lines_insert. case_decide as Hd.
    + subst level'. unfold bucket_lines. rewrite E.
      destruct (is_open f); simpl; [now exists [str] | reflexivity].
    + reflexivity.
Qed.

Lemma grow_step ok (b : BucketFileMap) line :
  dom b ⊆ dom (bucketize_line ok b line).2 ∧
  ∀ level, bucket_lines b level `prefix_of` bucket_lines (bucketize_line ok b line).2 level.
Proof.
  rewrite bucketize_line_eq.
  destruct (line_level line) as [level|]; [|split; reflexivity].
  destruct (ensure ok b level) as [b1|] eqn:E; [|split; reflexivity].
  destruct (ensure_Some _ _ _ _ E) as (Hsame & Hd & _).
  assert (H1 : dom b ⊆ dom b1) by (rewrite Hd; set_solver).
  assert (H2 : ∀ l, bucket_lines b l `prefix_of` bucket_lines b1 l)
    by (intros l; now rewrite Hsame).
  destruct (is_sentinel (line_str line)); [split; assumption|].
  destruct (write_line b1 level (line_str line)) as [b2|] eqn:W; [|split; assumption].
  destruct (bucket_lines_write _ _ _ _ W) as [Hd2 Hp]. simpl. split.
  - now rewrite Hd2.
  - intros l. etransitivity; [apply H2 | apply Hp].
Qed.

Lemma grow_lines ok lines : ∀ b : BucketFileMap,
  dom b ⊆ dom (bucketize_lines ok b lines).2 ∧
  ∀ level, bucket_lines b level `prefix_of` bucket_lines (bucketize_lines ok b lines).2 level.
Proof.
  induction lines as [|l lines IH]; intros b; [split; reflexivity|].
  simpl. pose proof (grow_step ok b l) as [Hd Hp].
  destruct (bucketize_line ok b l) as [[| |h] b1]; simpl in *; try (split; assumption).
  destruct (IH b1) as [Hd1 Hp1]. split.
  - etransitivity; eassumption.
  - intros level. etransitivity; [apply Hp | apply Hp1].
Qed.

Lemma grow_files ok files : ∀ b : BucketFileMap,
  dom b ⊆ dom (bucketize_files ok b files).2 ∧
  ∀ level, bucket_lines b level `prefix_of` bucket_lines (bucketize_files ok b files).2 level.
Proof.
  induction files as [|[content|] files IH]; intros b; try (split; reflexivity).
  simpl. pose proof (grow_lines ok (getlines content) b) as [Hd Hp].
  destruct (bucketize_lines ok b (getlines content)) as [[h|] b1]; simpl in *;
    try (split; assumption).
  destruct (IH b1) as [Hd1 Hp1]. split.
  - etransitivity; eassumption.
  - intros level. etransitivity; [apply Hp | apply Hp1].
Qed.

(** However [BucketizeDiff] leaves (true, false, an uncaught exception),
    and whatever map it is handed, the map it leaves behind has every
    level the given map had, each bucket file holds the lines it held
    followed by the new ones, and no stream that was open has been closed:
    the function never removes, truncates or closes a bucket. *)
Theorem buckets_only_grow mk ok raw (b : BucketFileMap) readNum :
  let b' := (BucketizeDiff mk ok raw b readNum).2 in
  dom b ⊆ dom b' ∧
  (∀ level, bucket_lines b level `prefix_of` bucket_lines b' level) ∧
  (live b → live b').
Proof.
  unfold BucketizeDiff. destruct (negb (mk =? 0)).
  { simpl. repeat split; try reflexivity. auto. }
  pose proof (grow_files ok (map raw (seq 0 (Z.to_nat readNum))) b) as [Hd Hp].
  pose proof (live_files ok (map raw (seq 0 (Z.to_nat readNum))) b) as Hl.
  destruct (bucketize_files _ _ _) as [[[| |]|] b']; simpl in *; repeat split; assumption.
Qed.

(** *** A level that [stoi] cannot read *)

Lemma blank_line_level (line : string) : tokens line = [] → line_level line = None.
Proof.
  unfold tokens, line_level. simpl.
  destruct (extract_cases (iss line) EmptyString) as [| |w u Hg Hw Hne Hlen]; simpl;
    try reflexivity.
  discriminate.
Qed.

Lemma lines_halt ok (pre post : list string) (l : string) : ∀ b : BucketFileMap,
  live b → (∀ level, ok level = true) →
  Forall well_formed pre → Forall (fun r => is_sentinel (payload r) = false) pre →
  line_level l = None →
  (bucketize_lines ok b (pre ++ l :: post)).1 = Some Uncaught.
Proof.
  induction pre as [|r pre IH]; intros b Hl Hok Hwf Hns Hlev.
  - simpl. now rewrite bucketize_line_eq, Hlev.
  - inversion Hwf as [|? ? Hr Hwf']; subst. inversion Hns as [|? ? Hs Hns']; subst.
    destruct (step_well_formed ok b r Hl Hok Hr) as (b1 & Hl1 & H1).
    rewrite Hs in H1. destruct H1 as [E _]. simpl. rewrite E. now apply IH.
Qed.

(** [stoi] throws on a first token that is not a number, and nothing
    catches the exception: when the files read so far are made of records
    and a line whose level cannot be read comes after records only, the
    run is terminated.  A blank line is such a line. *)
Theorem unreadable_level_terminates mk ok raw readNum
    (before : list string) (content : string) (rest : list (option string))
    (pre post : list string) (l : string) :
  mk = 0 → (∀ level, ok level = true) →
  map raw (seq 0 (Z.to_nat readNum)) = map Some before ++ Some content :: rest →
  Forall (fun c => Forall well_formed (upto_sentinel (getlines c))) before →
  getlines content = pre ++ l :: post →
  Forall well_formed pre → Forall (fun r => is_sentinel (payload r) = false) pre →
  line_level l = None →
  (BucketizeDiff mk ok raw ∅ readNum).1 = Terminated ∧
  (∀ line, tokens line = [] → line_level line = None).
Proof.
  intros -> Hok Hraw Hbefore Hcontent Hwf Hns Hlev.
  split; [|exact blank_line_level].
  unfold BucketizeDiff. simpl. rewrite Hraw.
  assert (H0 : live ∅) by (intros level p; rewrite lookup_empty; discriminate).
  assert (H : ∀ b : BucketFileMap, live b →
            (bucketize_files ok b (map Some before ++ Some content :: rest)).1
            = Some Uncaught).
  { clear Hraw. induction before as [|c before IH]; intros b Hl.
    - simpl. rewrite Hcontent.
      pose proof (lines_halt ok pre post l b Hl Hok Hwf Hns Hlev) as Hh.
      destruct (bucketize_lines ok b (pre ++ l :: post)) as [[h|] b1]; simpl in *;
        congruence.
    - inversion Hbefore as [|? ? Hc Hb']; subst.
      destruct (lines_lossless ok (getlines c) b Hl Hok Hc) as (b1 & E1 & Hl1 & _).
      simpl. rewrite E1. now apply IH. }
  specialize (H ∅ H0).
  destruct (bucketize_files _ _ _) as [[[| |]|] b']; simpl in H |- *;
    congruence || reflexivity.
Qed.

Lemma unreadable_level_terminates_witness :
  (BucketizeDiff 0 (fun _ => true)
     (fun _ => Some (unlines ["1 o1 FILE_C /a"; ""; "0 c EOF"])) ∅ 1).1 = Terminated.
Proof.
  refine (proj1 (unreadable_level_terminates 0 (fun _ => true)
            (fun _ => Some (unlines ["1 o1 FILE_C /a"; ""; "0 c EOF"])) 1
            [] (unlines ["1 o1 FILE_C /a"; ""; "0 c EOF"]) []
            ["1 o1 FILE_C /a"] ["0 c EOF"] "" eq_refl (fun _ => eq_refl) eq_refl
            (List.Forall_nil _) eq_refl _ _ eq_refl)).
  - repeat constructor. exists "1", "o1", "FILE_C", ["/a"], 1. split; reflexivity.
  - repeat constructor.
Defined.

End BucketOrder.

(** ** Serializer: what is copied, and the map it leaves *)

Module SerializerMore.
Import Cxx Bucketizer BucketizerFacts Serializer SerializerFacts BucketOrder.

(** The levels of a bucket map in the order of iteration. *)
Definition levels (b : BucketFileMap) : list Z := (entries b).*1.

Lemma levels_sorted (b : BucketFileMap) : StronglySorted Z.lt (levels b).
Proof.
  unfold levels. pose proof (entries_sorted b) as H.
  induction H as [|x l Hs IH Hx]; [constructor|].
  rewrite fmap_cons. constructor; [exact IH|].
  rewrite Forall_fmap. eapply Forall_impl; [exact Hx|]. intros y Hy. exact Hy.
Qed.

Lemma elem_of_levels (b : BucketFileMap) level : level ∈ levels b ↔ level ∈ dom b.
Proof.
  unfold levels. rewrite list_elem_of_fmap, elem_of_dom. split.
  - intros ([l p] & -> & Hin). apply elem_of_entries in Hin. eauto.
  - intros [p Hp]. exists (level, p). split; [reflexivity|]. now apply elem_of_entries.
Qed.

Lemma filter_none {A} (P : A → Prop) `{∀ x, Decision (P x)} (l : list A) :
  Forall (fun x => ¬ P x) l → filter P l = [].
Proof.
  induction 1 as [|x l Hx _ IH]; [reflexivity|].
  now rewrite filter_cons_False.
Qed.

(** The chunks of a sorted list of open buckets one of which, at level
    [L0], is the first to be empty. *)
Lemma chunks_below (g : Z → list string) (L0 : Z) (its : list (Z * option fstream)) :
  StronglySorted key_lt its →
  Forall (fun e => ∃ f, e.2 = Some f ∧ readable f = g e.1) its →
  L0 ∈ its.*1 → g L0 = [] →
  (∀ L, L ∈ its.*1 → L < L0 → g L ≠ []) →
  concat (chunks its).*2 = concat (map g (filter (fun L => L < L0) its.*1)).
Proof.
  induction 1 as [|[L p] its Hs IH Hx]; intros Hf Hin H0 Hne.
  - inversion Hin.
  - inversion Hf as [|? ? (f & Hp & Hr) Hf']; subst. simpl in Hp, Hr. subst p.
    rewrite fmap_cons, filter_cons. simpl. case_decide as Hlt.
    + destruct (readable f) as [|c cs] eqn:Er.
      { exfalso. apply (Hne L); [left|assumption|congruence]. }
      simpl. rewrite <- Hr. simpl. do 2 f_equal.
      rewrite fmap_cons in Hin. simpl in Hin, Hlt.
      apply elem_of_cons in Hin as [Heq|Hin]; [lia|].
      apply IH; try assumption.
      intros L' HL'. apply Hne. now right.
    + assert (L = L0) as ->.
      { rewrite fmap_cons in Hin. simpl in Hin, Hlt.
        apply elem_of_cons in Hin as [Heq|Hin]; [congruence|].
        apply list_elem_of_fmap in Hin as (y & -> & Hy).
        rewrite Forall_forall in Hx. specialize (Hx y Hy). unfold key_lt in Hx.
        simpl in Hx. lia. }
      rewrite Hr, H0. simpl.
      assert (E : filter (fun L => L < L0) its.*1 = []); [|now rewrite E].
      apply filter_none. rewrite Forall_fmap.
      eapply Forall_impl; [exact Hx|]. intros y Hy. unfold key_lt in Hy. simpl in *. lia.
Qed.

(** The chunks of a list of open buckets none of which is empty. *)
Lemma chunks_all (g : Z → list string) (its : list (Z * option fstream)) :
  Forall (fun e => ∃ f, e.2 = Some f ∧ readable f = g e.1) its →
  (∀ L, L ∈ its.*1 → g L ≠ []) →
  concat (chunks its).*2 = concat (map g its.*1).
Proof.
  induction its as [|[L p] its IH]; intros Hf Hne; [reflexivity|].
  inversion Hf as [|? ? (f & Hp & Hr) Hf']; subst. simpl in Hp, Hr. subst p.
  rewrite fmap_cons. simpl.
  destruct (readable f) as [|c cs] eqn:Er.
  { exfalso. apply (Hne L); [left|congruence]. }
  rewrite <- Hr. simpl. do 2 f_equal. apply IH; [assumption|].
  intros L' HL'. apply Hne. now right.
Qed.

Lemma live_readable (b : BucketFileMap) :
  live b →
  Forall (fun e => ∃ f, e.2 = Some f ∧ readable f = bucket_lines b e.1) (entries b).
Proof.
  intros Hl. apply Forall_forall. intros [L p] Hin.
  apply elem_of_entries in Hin. destruct (Hl _ _ Hin) as (f & -> & Ho).
  exists f. split; [reflexivity|]. unfold readable, bucket_lines. simpl.
  now rewrite Hin, Ho.
Qed.

(** A bucket file without a line stops the copy: when the bucket of
    level [L0] is the first empty one, [serialized_diff] holds the bucket
    files of the levels below [L0], in ascending order, and nothing of the
    bucket files above it, although the function returns true and releases
    every bucket. *)
Theorem copy_stops_at_empty_bucket (b : BucketFileMap) (L0 : Z) :
  live b → L0 ∈ dom b → bucket_lines b L0 = [] →
  (∀ L, L ∈ dom b → L < L0 → bucket_lines b L ≠ []) →
  ∃ b', SerializeBuckets true b =
          (Returned true, b',
           Some (concat (map (bucket_lines b) (filter (fun L => L < L0) (levels b))))) ∧
        (∀ L, L ∈ dom b → b' !! L = Some None).
Proof.
  intros Hl Hin H0 Hne. unfold SerializeBuckets. simpl.
  destruct (serialize_loop_total (entries b) {| written := []; failbit := false |} b
              (live_entries b Hl)) as [[out b'] E].
  rewrite E. pose proof (serialize_loop_written _ _ _ _ _ E) as Hw. simpl in Hw.
  exists b'. split.
  - rewrite Hw. do 2 f_equal.
    apply (chunks_below (bucket_lines b) L0 (entries b)); try assumption.
    + apply entries_sorted.
    + now apply live_readable.
    + now apply elem_of_levels.
    + intros L HL. apply Hne. now apply elem_of_levels.
  - intros L HL. rewrite (serialize_loop_map _ _ _ _ _ E L).
    rewrite decide_True; [reflexivity|]. now apply elem_of_levels.
Qed.

Definition starved_buckets : BucketFileMap :=
  <[516 := Some {| is_open := true; contents := ["FILE_C"] |}]>
    (<[515 := Some {| is_open := true; contents := [] |}]>
       (<[514 := Some {| is_open := true; contents := ["DIR_C"] |}]> ∅)).

Lemma starved_buckets_live : live starved_buckets.
Proof.
  intros level p. unfold starved_buckets.
  rewrite !lookup_insert, lookup_empty.
  repeat case_decide; intros E; inversion E; subst; eauto.
Defined.

Lemma copy_stops_at_empty_bucket_witness :
  ∃ b', SerializeBuckets true starved_buckets =
          (Returned true, b',
           Some (concat (map (bucket_lines starved_buckets)
                           (filter (fun L => L < 515) (levels starved_buckets))))) ∧
        (∀ L, L ∈ dom starved_buckets → b' !! L = Some None).
Proof.
  apply (copy_stops_at_empty_bucket starved_buckets 515 starved_buckets_live).
  - unfold starved_buckets. set_solver.
  - reflexivity.
  - intros L HL Hlt. unfold starved_buckets in HL.
    rewrite !dom_insert_L, dom_empty_L in HL.
    assert (L = 514) as -> by (set_unfold; lia). discriminate.
Defined.

(** The released pointers stay in the map as null pointers, and the loop
    dereferences what it finds: when the function has succeeded on a map
    that was not empty, a second call on the map it left has undefined
    behaviour. *)
Theorem second_serialize_undefined (b : BucketFileMap) :
  live b → b ≠ ∅ →
  ∃ b' out, SerializeBuckets true b = (Returned true, b', Some out) ∧
            dom b' = dom b ∧
            SerializeBuckets true b' = (Undefined, b', None).
Proof.
  intros Hl Hne. unfold SerializeBuckets at 1. simpl.
  destruct (serialize_loop_total (entries b) {| written := []; failbit := false |} b
              (live_entries b Hl)) as [[out b'] E].
  rewrite E. exists b', (written out). split; [reflexivity|].
  pose proof (serialize_loop_map _ _ _ _ _ E) as Hmap.
  assert (Hb' : ∀ L p, b' !! L = Some p → L ∈ dom b ∧ p = None).
  { intros L p. rewrite Hmap. case_decide as Hd.
    - intros [= <-]. split; [now apply elem_of_levels | reflexivity].
    - intros Hp. exfalso. apply Hd. apply elem_of_levels. now apply elem_of_dom_2 in Hp. }
  assert (Hd : dom b' = dom b).
  { apply set_eq. intros L. rewrite !elem_of_dom. split.
    - intros [p Hp]. apply elem_of_dom. now apply (Hb' L p).
    - intros HL. exists None. rewrite Hmap. rewrite decide_True; [reflexivity|].
      apply elem_of_levels. now apply elem_of_dom. }
  split; [exact Hd|].
  unfold SerializeBuckets. simpl.
  destruct (entries b') as [|[L p] its] eqn:Ee.
  - exfalso. apply Hne. apply dom_empty_iff_L. rewrite <- Hd.
    apply set_eq. intros L. rewrite <- elem_of_levels. unfold levels. rewrite Ee.
    set_solver.
  - assert (Hin : (L, p) ∈ entries b') by (rewrite Ee; left).
    apply elem_of_entries in Hin. destruct (Hb' _ _ Hin) as [_ ->]. reflexivity.
Qed.

Lemma second_serialize_undefined_witness :
  ∃ b' out, SerializeBuckets true sample_buckets = (Returned true, b', Some out) ∧
            dom b' = dom sample_buckets ∧
            SerializeBuckets true b' = (Undefined, b', None).
Proof.
  apply (second_serialize_undefined sample_buckets sample_buckets_live).
  intros E. assert (H : sample_buckets !! 514 = None) by (rewrite E; apply lookup_empty).
  vm_compute in H. discriminate.
Defined.

(** *** Bucketizer and Serializer together *)

Lemma levels_seen_dom ok (files : list string) (b' : BucketFileMap) :
  bucketize_files ok ∅ (map Some files) = (None, b') →
  dom b' = list_to_set (levels_seen (map Some files)).
Proof.
  intros E. rewrite (files_dom ok _ ∅ b' E), dom_empty_L, union_empty_l_L. reflexivity.
Qed.

Lemma sorted_copy (b : BucketFileMap) (g : Z → list string) :
  live b → (∀ L, bucket_lines b L = g L) → (∀ L, L ∈ dom b → g L ≠ []) →
  ∃ b', SerializeBuckets true b = (Returned true, b', Some (levels b ≫= g)).
Proof.
  intros Hl Hg Hne. unfold SerializeBuckets. simpl.
  destruct (serialize_loop_total (entries b) {| written := []; failbit := false |} b
              (live_entries b Hl)) as [[out b'] Es].
  rewrite Es. pose proof (serialize_loop_written _ _ _ _ _ Es) as Hw. simpl in Hw.
  exists b'. rewrite Hw. do 2 f_equal.
  rewrite (chunks_all (bucket_lines b) (entries b)).
  - fold (levels b). induction (levels b) as [|L ls IH]; [reflexivity|].
    rewrite bind_cons, <- IH, <- Hg. reflexivity.
  - now apply live_readable.
  - intros L HL. rewrite Hg. apply Hne. now apply elem_of_levels.
Qed.

Lemma all_lines_by_level (b : BucketFileMap) (g : Z → list string) :
  live b → (∀ L, bucket_lines b L = g L) → all_bucket_lines b ≡ₚ levels b ≫= g.
Proof.
  intros Hl Hg. unfold all_bucket_lines, levels.
  assert (Hp : map_to_list b ≡ₚ entries b)
    by (unfold entries; now rewrite merge_sort_Permutation).
  rewrite Hp. clear Hp.
  assert (Hf : Forall (fun e => from_option contents [] e.2 = g e.1) (entries b)).
  { apply Forall_forall. intros [L p] Hin. apply elem_of_entries in Hin.
    destruct (Hl _ _ Hin) as (f & -> & _). simpl. rewrite <- Hg.
    unfold bucket_lines. now rewrite Hin. }
  induction Hf as [|e its He _ IH]; [reflexivity|].
  rewrite fmap_cons, !bind_cons, He, IH. reflexivity.
Qed.

Lemma payloads_of_records (files : list string) :
  concat (map (fun content => map payload (before_sentinel (getlines content))) files)
  = map payload (records files).
Proof.
  induction files as [|c cs IH]; [reflexivity|].
  rewrite records_cons, map_app, <- IH. reflexivity.
Qed.

Lemma level_with_record (recs : list string) (L : Z) :
  (∃ l, l ∈ recs ∧ line_level l = Some L) →
  map payload (filter (fun l => line_level l = Some L) recs) ≠ [].
Proof.
  intros (l & Hin & Hlev) Hnil. apply fmap_nil_inv in Hnil.
  assert (Hf : l ∈ filter (fun l => line_level l = Some L) recs)
    by (apply list_elem_of_filter; split; assumption).
  rewrite Hnil in Hf. inversion Hf.
Qed.

(** The two stages together sort the records by level and keep the order
    of arrival within a level: over raw files made of records, when every
    level met (the level of a sentinel line included) is the level of some
    record, [serialized_diff] holds, for each level in ascending order, the
    payloads of the records of that level in the order in which they were
    read. *)
Theorem serialized_is_stable_sort mk ok raw readNum (files : list string) :
  mk = 0 → (∀ level, ok level = true) →
  map raw (seq 0 (Z.to_nat readNum)) = map Some files →
  Forall (fun content => Forall well_formed (upto_sentinel (getlines content))) files →
  (∀ level, level ∈ levels_seen (map Some files) →
            ∃ l, l ∈ records files ∧ line_level l = Some level) →
  ∃ b b' ls,
    BucketizeDiff mk ok raw ∅ readNum = (Returned true, b) ∧
    SerializeBuckets true b =
      (Returned true, b',
       Some (ls ≫= (fun L => map payload
                       (filter (fun l => line_level l = Some L) (records files))))) ∧
    StronglySorted Z.lt ls ∧
    (∀ L, L ∈ ls ↔ L ∈ levels_seen (map Some files)).
Proof.
  intros -> Hok Hraw Hwf Hrec.
  assert (H0 : live ∅) by (intros level p; rewrite lookup_empty; discriminate).
  destruct (files_by_level ok files ∅ H0 Hok Hwf) as (b & E & Hl & Hb).
  assert (Hb' : ∀ level, bucket_lines b level =
                  map payload (filter (fun l => line_level l = Some level) (records files))).
  { intros level. rewrite Hb. unfold bucket_lines. now rewrite lookup_empty. }
  pose proof (levels_seen_dom ok files b E) as Hd.
  destruct (sorted_copy b
              (fun L => map payload (filter (fun l => line_level l = Some L) (records files)))
              Hl Hb') as [b' Es].
  { intros L HL. apply level_with_record, Hrec.
    rewrite Hd in HL. now apply elem_of_list_to_set in HL. }
  exists b, b', (levels b). unfold BucketizeDiff. simpl. rewrite Hraw, E.
  split; [reflexivity|]. split; [exact Es|]. split; [apply levels_sorted|].
  intros L. rewrite elem_of_levels, Hd. apply elem_of_list_to_set.
Qed.

Definition unsorted_page : list string :=
  [ unlines ["2 o1 FILE_C /a/b"; "1 o2 DIR_C /a"; "2 o3 FILE_C /a/c"; "1 c EOF"] ].

Lemma serialized_is_stable_sort_witness :
  ∃ b b' ls,
    BucketizeDiff 0 (fun _ => true) (fun i => unsorted_page !! i) ∅ 1 = (Returned true, b) ∧
    SerializeBuckets true b =
      (Returned true, b',
       Some (ls ≫= (fun L => map payload
                       (filter (fun l => line_level l = Some L) (records unsorted_page))))) ∧
    StronglySorted Z.lt ls ∧
    (∀ L, L ∈ ls ↔ L ∈ levels_seen (map Some unsorted_page)).
Proof.
  apply (serialized_is_stable_sort 0 (fun _ => true) (fun i => unsorted_page !! i) 1
           unsorted_page eq_refl (fun _ => eq_refl) eq_refl).
  - repeat constructor.
    + exists "2", "o1", "FILE_C", ["/a/b"], 2. split; reflexivity.
    + exists "1", "o2", "DIR_C", ["/a"], 1. split; reflexivity.
    + exists "2", "o3", "FILE_C", ["/a/c"], 2. split; reflexivity.
    + exists "1", "c", "EOF", [], 1. split; reflexivity.
  - intros level Hin. vm_compute in Hin.
    apply elem_of_cons in Hin as [->|Hin]; [exists "2 o1 FILE_C /a/b"; split;
      [vm_compute; left | reflexivity]|].
    apply elem_of_cons in Hin as [->|Hin]; [exists "1 o2 DIR_C /a"; split;
      [vm_compute; right; left | reflexivity]|].
    apply elem_of_cons in Hin as [->|Hin]; [exists "2 o1 FILE_C /a/b"; split;
      [vm_compute; left | reflexivity]|].
    apply elem_of_cons in Hin as [->|Hin]; [exists "1 o2 DIR_C /a"; split;
      [vm_compute; right; left | reflexivity]|].
    inversion Hin.
Defined.

(** *** The ordering claim on the whole pipeline *)

(** C2 (what the code does): [SerializeBuckets] walks the map in
    ascending order of level and means to copy every bucket file, but the
    copy of an empty one sets [failbit] on [serialized_diff] and the later
    copies insert nothing.  Over raw files made of records, when [L0] is the
    first level met that has no record (the level of a sentinel line), every
    record is in the bucket of its level, both functions return true, and
    [serialized_diff] holds, in ascending order of level, the records of the
    levels below [L0] only: the records of the levels above [L0] are in none
    of its lines, so for levels [L0 < L1 < L2] no record of either level
    appears at all. *)
Theorem serialized_order_stops_at_empty_bucket mk ok raw readNum (files : list string)
    (L0 : Z) :
  mk = 0 → (∀ level, ok level = true) →
  map raw (seq 0 (Z.to_nat readNum)) = map Some files →
  Forall (fun content => Forall well_formed (upto_sentinel (getlines content))) files →
  L0 ∈ levels_seen (map Some files) →
  (∀ l, l ∈ records files → line_level l ≠ Some L0) →
  (∀ L, L ∈ levels_seen (map Some files) → L < L0 →
        ∃ l, l ∈ records files ∧ line_level l = Some L) →
  ∃ b b' out,
    BucketizeDiff mk ok raw ∅ readNum = (Returned true, b) ∧
    (∀ L, bucket_lines b L =
          map payload (filter (fun l => line_level l = Some L) (records files))) ∧
    SerializeBuckets true b = (Returned true, b', Some out) ∧
    out = concat (map (bucket_lines b) (filter (fun L => L < L0) (levels b))) ∧
    StronglySorted Z.lt (levels b) ∧
    (∀ x, x ∈ out →
          ∃ r L, r ∈ records files ∧ line_level r = Some L ∧ L < L0 ∧ payload r = x).
Proof.
  intros -> Hok Hraw Hwf Hmet Hnone Hbelow.
  assert (H0 : live ∅) by (intros level p; rewrite lookup_empty; discriminate).
  destruct (files_by_level ok files ∅ H0 Hok Hwf) as (b & E & Hl & Hb).
  assert (Hb' : ∀ L, bucket_lines b L =
                  map payload (filter (fun l => line_level l = Some L) (records files))).
  { intros L. rewrite Hb. unfold bucket_lines. now rewrite lookup_empty. }
  pose proof (levels_seen_dom ok files b E) as Hd.
  assert (Hin0 : L0 ∈ levels b)
    by (apply elem_of_levels; rewrite Hd; now apply elem_of_list_to_set).
  assert (Hempty : bucket_lines b L0 = []).
  { rewrite Hb'. rewrite filter_none; [reflexivity|].
    apply Forall_forall. intros l Hin. now apply Hnone. }
  assert (Hfull : ∀ L, L ∈ levels b → L < L0 → bucket_lines b L ≠ []).
  { intros L HL Hlt. rewrite Hb'. apply level_with_record, Hbelow; [|exact Hlt].
    apply elem_of_levels in HL. rewrite Hd in HL. now apply elem_of_list_to_set in HL. }
  destruct (serialize_loop_total (entries b) {| written := []; failbit := false |} b
              (live_entries b Hl)) as [[o b'] Es].
  pose proof (serialize_loop_written _ _ _ _ _ Es) as Hw. simpl in Hw.
  assert (Hout : written o =
            concat (map (bucket_lines b) (filter (fun L => L < L0) (levels b)))).
  { rewrite Hw. apply (chunks_below (bucket_lines b) L0 (entries b)); try assumption.
    - apply entries_sorted.
    - now apply live_readable. }
  exists b, b', (written o).
  split; [unfold BucketizeDiff; simpl; now rewrite Hraw, E|]. split; [exact Hb'|].
  split; [unfold SerializeBuckets; simpl; now rewrite Es|].
  split; [exact Hout|]. split; [apply levels_sorted|].
  intros x Hx. rewrite Hout in Hx. apply list_elem_of_In, in_concat in Hx.
  destruct Hx as (c & Hc & Hxc). apply in_map_iff in Hc as (L & <- & HL).
  apply list_elem_of_In, list_elem_of_filter in HL as [Hlt _].
  rewrite Hb' in Hxc. apply in_map_iff in Hxc as (r & <- & Hr).
  apply list_elem_of_In, list_elem_of_filter in Hr as [Hlev Hr].
  exists r, L. auto.
Qed.

(** The page [5 o1 FILE_C /a], [7 o2 FILE_C /b], [0 c EOF]: the two
    records are in the buckets 518 and 520, and [serialized_diff] is empty. *)
Definition starved_page : list string :=
  [ unlines ["5 o1 FILE_C /a"; "7 o2 FILE_C /b"; "0 c EOF"] ].

Lemma serialized_order_stops_at_empty_bucket_witness :
  ∃ b b',
    BucketizeDiff 0 (fun _ => true) (fun i => starved_page !! i) ∅ 1 = (Returned true, b) ∧
    bucket_lines b 518 = [tab_join ["FILE_C"; "/a"]] ∧
    bucket_lines b 520 = [tab_join ["FILE_C"; "/b"]] ∧
    SerializeBuckets true b = (Returned true, b', Some []).
Proof.
  destruct (serialized_order_stops_at_empty_bucket 0 (fun _ => true)
              (fun i => starved_page !! i) 1 starved_page 513
              eq_refl (fun _ => eq_refl) eq_refl)
    as (b & b' & out & E & Hb & Es & _ & _ & Hin).
  - repeat constructor.
    + exists "5", "o1", "FILE_C", ["/a"], 5. split; reflexivity.
    + exists "7", "o2", "FILE_C", ["/b"], 7. split; reflexivity.
    + exists "0", "c", "EOF", [], 0. split; reflexivity.
  - vm_compute. right. right. left.
  - intros l Hl. vm_compute in Hl.
    apply elem_of_cons in Hl as [->|Hl]; [discriminate|].
    apply elem_of_cons in Hl as [->|Hl]; [discriminate|]. inversion Hl.
  - intros L HL Hlt. vm_compute in HL.
    apply elem_of_cons in HL as [->|HL]; [lia|].
    apply elem_of_cons in HL as [->|HL]; [lia|].
    apply elem_of_cons in HL as [->|HL]; [lia|]. inversion HL.
  - exists b, b'. split; [exact E|]. split; [exact (Hb 518)|]. split; [exact (Hb 520)|].
    destruct out as [|x out]; [exact Es|]. exfalso.
    destruct (Hin x ltac:(left)) as (r & L & Hr & Hlev & Hlt & _).
    vm_compute in Hr.
    apply elem_of_cons in Hr as [->|Hr];
      [vm_compute in Hlev; injection Hlev as <-; lia|].
    apply elem_of_cons in Hr as [->|Hr];
      [vm_compute in Hlev; injection Hlev as <-; lia|].
    inversion Hr.
Defined.

End SerializerMore.

(** ** Event Mapper: the record type, the stat fields, the documents *)

Module EventMore.
Import Cxx CxxFacts Json EventMapper EventMapperFacts BucketizerFacts.

(** *** [find] and [substr] on the first token *)

Definition lacks (c : ascii) (s : string) : Prop := ¬ In c (list_ascii_of_string s).

Lemma lacks_cons c d s : lacks c (String d s) → d ≠ c ∧ lacks c s.
Proof. unfold lacks. simpl. tauto. Qed.

Lemma find_from_found c e rest : ∀ i,
  lacks c e → find_from c (e +:+ String c rest) i = i + Z.of_nat (String.length e).
Proof.
  induction e as [|d e IH]; intros i Hl.
  - change (EmptyString +:+ String c rest) with (String c rest). simpl.
    rewrite Ascii.eqb_refl. lia.
  - apply lacks_cons in Hl as [Hd Hl]. rewrite append_cons. simpl find_from.
    apply Ascii.eqb_neq in Hd. rewrite Hd, IH by assumption. simpl String.length. lia.
Qed.

Lemma find_from_missing c s : ∀ i, lacks c s → find_from c s i = npos.
Proof.
  induction s as [|d s IH]; intros i Hl; [reflexivity|].
  apply lacks_cons in Hl as [Hd Hl]. simpl. apply Ascii.eqb_neq in Hd.
  now rewrite Hd, IH.
Qed.

Lemma take_all s : ∀ count, Z.of_nat (String.length s) ≤ count → take s count = s.
Proof.
  induction s as [|c s IH]; intros count H; [reflexivity|].
  cbn [String.length] in H. cbn [take].
  destruct (Z.leb_spec count 0); [lia|]. f_equal. apply IH. lia.
Qed.

Lemma take_prefix_at e s : ∀ n, n = Z.of_nat (String.length e) → take (e +:+ s) n = e.
Proof.
  induction e as [|c e IH]; intros n Hn.
  - change (EmptyString +:+ s) with s. subst n. destruct s; reflexivity.
  - rewrite append_cons. cbn [String.length] in Hn. cbn [take].
    destruct (Z.leb_spec n 0); [lia|]. f_equal. apply IH. lia.
Qed.

Lemma take_prefix e s : take (e +:+ s) (Z.of_nat (String.length e)) = e.
Proof. now apply take_prefix_at. Qed.

Lemma substr_suffix_at e s count : ∀ n,
  n = Z.of_nat (String.length e) → substr (e +:+ s) n count = Some (take s count).
Proof.
  induction e as [|c e IH]; intros n Hn.
  - change (EmptyString +:+ s) with s. subst n. destruct s; reflexivity.
  - rewrite append_cons. cbn [String.length] in Hn. cbn [substr].
    destruct (Z.leb_spec n 0); [lia|]. apply IH. lia.
Qed.

Lemma substr_suffix e s count :
  substr (e +:+ s) (Z.of_nat (String.length e)) count = Some (take s count).
Proof. now apply substr_suffix_at. Qed.

Lemma substr_0 s count : substr s 0 count = Some (take s count).
Proof. destruct s; reflexivity. Qed.

Lemma wrap_int_small z : - 2 ^ 31 ≤ z < 2 ^ 31 → wrap_int z = z.
Proof.
  intros H. unfold wrap_int. rewrite Z.mod_small; lia.
Qed.

Lemma length_append (a b : string) :
  String.length (a +:+ b) = (String.length a + String.length b)%nat.
Proof.
  induction a as [|c a IH]; [reflexivity|]. rewrite append_cons. simpl. now rewrite IH.
Qed.

(** The first token is cut at its first underscore: the entity type is
    what stands before it and the opType all that follows, further
    underscores included.  A token without an underscore is both its
    entity type and its opType ([find] gives [npos], which becomes [-1] as
    an [int]), and [substr] never throws. *)
Theorem split_op_cuts_at_first_underscore (e o : string) :
  lacks "_" e →
  Z.of_nat (String.length e + String.length o) + 1 < 2 ^ 31 →
  split_op (e +:+ String "_" o) = Some (e, o) ∧
  split_op e = Some (e, e).
Proof.
  intros Hl Hlen. split.
  - unfold split_op, find. rewrite find_from_found by assumption. cbv zeta.
    assert (E1 : int_of_size_t (0 + Z.of_nat (String.length e))
                 = Z.of_nat (String.length e)).
    { unfold int_of_size_t. apply wrap_int_small. lia. }
    rewrite E1.
    assert (E2 : size_t_of_int (Z.of_nat (String.length e)) = Z.of_nat (String.length e)).
    { unfold size_t_of_int. apply Z.mod_small. lia. }
    assert (E3 : size_t_of_int (int_add (Z.of_nat (String.length e)) 1)
                 = Z.of_nat (String.length e) + 1).
    { unfold size_t_of_int, int_add. rewrite wrap_int_small by lia.
      apply Z.mod_small. lia. }
    rewrite E2, E3, substr_0, take_prefix.
    replace (e +:+ String "_" o) with ((e +:+ String "_" EmptyString) +:+ o)
      by (rewrite append_assoc; reflexivity).
    replace (Z.of_nat (String.length e) + 1)
      with (Z.of_nat (String.length (e +:+ String "_" EmptyString)))
      by (rewrite length_append; simpl; lia).
    rewrite substr_suffix, take_all; [reflexivity|].
    rewrite !length_append. simpl. lia.
  - unfold split_op, find. rewrite find_from_missing by assumption. cbv zeta.
    change (int_of_size_t npos) with (-1).
    change (size_t_of_int (-1)) with (2 ^ 64 - 1).
    change (size_t_of_int (int_add (-1) 1)) with 0.
    rewrite !substr_0, !take_all; [reflexivity | lia | lia].
Qed.

Lemma split_op_cuts_at_first_underscore_witness :
  split_op "FILE_C_M" = Some ("FILE", "C_M") ∧ split_op "FILE" = Some ("FILE", "FILE").
Proof.
  apply (split_op_cuts_at_first_underscore "FILE" "C_M").
  - unfold lacks. simpl. intros [H|[H|[H|[H|[]]]]]; discriminate.
  - simpl. lia.
Defined.

(** *** Records that are described with [lstat], and those that are not *)

Section Stat.
Variable lstat : string → option stat.
Variable snapDir : string.

(** A creation or modification of a file or directory is reported
    whether or not [lstat] succeeds on [snapDir/../../path]: when it
    succeeds the event carries the path, the size and the three times of
    the live file; when it fails the event is still emitted, with its type
    and flags but without a path. *)
Theorem stat_failure_keeps_event (line op path : string) (rest : list string)
    (entrytype optype : string) :
  tokens line = op :: path :: rest →
  split_op op = Some (entrytype, optype) →
  entrytype = "FILE" ∨ entrytype = "DIR" →
  optype ≠ "DELETE" → optype ≠ "RENAME" →
  ∃ item,
    map_line lstat snapDir line = Returned (Some item) ∧
    field "type" item =
      Some (JsonString (if String.eqb entrytype "FILE" then "file" else "dir")) ∧
    match lstat (snapDir +:+ "/../../" +:+ path) with
    | Some s =>
        field "path" item = Some (JsonString path) ∧
        field "size" item = Some (JsonNumber (st_size s)) ∧
        field "atime" item = Some (time_map (st_atim s)) ∧
        field "ctime" item = Some (time_map (st_ctim s)) ∧
        field "mtime" item = Some (time_map (st_mtim s))
    | None =>
        field "path" item = None ∧ field "size" item = None ∧
        field "atime" item = None ∧ field "ctime" item = None ∧
        field "mtime" item = None
    end.
Proof.
  intros Ht Hs He Hd Hr. unfold map_line. rewrite Ht. cbv zeta.
  change ((op :: path :: rest) !! 0%nat) with (Some op).
  change ((op :: path :: rest) !! 1%nat) with (Some path).
  cbv beta iota. rewrite Hs.
  apply String.eqb_neq in Hd, Hr. rewrite Hd, Hr, !flag_true.
  unfold MakeStatsJsonMap. cbv zeta.
  destruct He as [-> | ->]; simpl;
    destruct (lstat _);
    (eexists; split; [reflexivity|]); repeat split; reflexivity.
Qed.

(** A record [SYM_RENAME] is not reported as a rename: it takes the
    branch of the symlink changes, is described with [lstat] and becomes an
    event of type [symlink] with [created] false, without [path_old],
    [path_new] or [target]. *)
Theorem symlink_rename_reported_as_change (line path : string) (rest : list string) :
  tokens line = "SYM_RENAME" :: path :: rest →
  ∃ item,
    map_line lstat snapDir line = Returned (Some item) ∧
    field "type" item = Some (JsonString "symlink") ∧
    field "created" item = Some (JsonBool false) ∧
    field "path_old" item = None ∧ field "path_new" item = None ∧
    field "target" item = None ∧
    field "path" item =
      match lstat (snapDir +:+ "/../../" +:+ path) with
      | Some _ => Some (JsonString path)
      | None => None
      end.
Proof.
  intros Ht. unfold map_line. rewrite Ht. cbv zeta.
  change (("SYM_RENAME" :: path :: rest) !! 0%nat) with (Some "SYM_RENAME").
  change (("SYM_RENAME" :: path :: rest) !! 1%nat) with (Some path).
  cbv beta iota.
  change (split_op "SYM_RENAME") with (Some ("SYM", "RENAME")).
  cbv beta iota. rewrite !flag_true.
  unfold MakeStatsJsonMap. cbv zeta. simpl.
  destruct (lstat _); (eexists; split; [reflexivity|]); repeat split; reflexivity.
Qed.

End Stat.

Lemma stat_failure_keeps_event_witness :
  ∃ item,
    map_line (fun _ => None) "/snap" "DIR_CM /a" = Returned (Some item) ∧
    field "type" item = Some (JsonString "dir") ∧
    field "path" item = None.
Proof.
  destruct (stat_failure_keeps_event (fun _ => None) "/snap" "DIR_CM /a" "DIR_CM" "/a" []
              "DIR" "CM" eq_refl eq_refl (or_intror eq_refl))
    as (item & E & Ht & Hp & _); [discriminate | discriminate |].
  exists item. repeat split; assumption.
Defined.

Lemma symlink_rename_reported_as_change_witness :
  ∃ item,
    map_line (fun _ => None) "/snap" "SYM_RENAME /a/l /a/m" = Returned (Some item) ∧
    field "type" item = Some (JsonString "symlink") ∧
    field "path_new" item = None.
Proof.
  destruct (symlink_rename_reported_as_change (fun _ => None) "/snap"
              "SYM_RENAME /a/l /a/m" "/a/l" ["/a/m"] eq_refl)
    as (item & E & Ht & _ & _ & Hn & _).
  exists item. repeat split; assumption.
Defined.

(** Deletions, renames of files and directories, and records of an
    entity type other than [FILE], [DIR] and [SYM] are mapped without a
    look at the file system: the result is the same for any [lstat] and any
    snapshot directory.  The records of another entity type give no event. *)
Theorem records_mapped_without_stat (lstat lstat' : string → option stat)
    (snapDir snapDir' line op path : string) (rest : list string)
    (entrytype optype : string) :
  tokens line = op :: path :: rest →
  split_op op = Some (entrytype, optype) →
  optype = "DELETE" ∨
  (optype = "RENAME" ∧ entrytype ≠ "SYM") ∨
  (entrytype ≠ "FILE" ∧ entrytype ≠ "DIR" ∧ entrytype ≠ "SYM") →
  map_line lstat snapDir line = map_line lstat' snapDir' line ∧
  (entrytype ≠ "FILE" → entrytype ≠ "DIR" → entrytype ≠ "SYM" →
   map_line lstat snapDir line = Returned None).
Proof.
  intros Ht Hs Hc. unfold map_line. rewrite Ht. cbv zeta.
  change ((op :: path :: rest) !! 0%nat) with (Some op).
  change ((op :: path :: rest) !! 1%nat) with (Some path).
  cbv beta iota. rewrite Hs.
  destruct (String.eqb_spec entrytype "FILE") as [Ef|Ef],
           (String.eqb_spec entrytype "DIR") as [Ed|Ed],
           (String.eqb_spec entrytype "SYM") as [Es|Es],
           (String.eqb_spec optype "DELETE") as [Od|Od],
           (String.eqb_spec optype "RENAME") as [Or|Or];
    cbn [orb]; (split; [try reflexivity | try congruence; try reflexivity]);
    try (exfalso; destruct Hc as [?|[[? ?]|(? & ? & ?)]]; congruence).
Qed.

Lemma records_mapped_without_stat_witness :
  map_line (fun _ => None) "/s" "BLK_C /dev/b" =
    map_line (fun _ => Some (mk_stat 1 (mk_timespec 0 0) (mk_timespec 0 0) (mk_timespec 0 0)))
             "/t" "BLK_C /dev/b" ∧
  map_line (fun _ => None) "/s" "BLK_C /dev/b" = Returned None.
Proof.
  destruct (records_mapped_without_stat (fun _ => None)
              (fun _ => Some (mk_stat 1 (mk_timespec 0 0) (mk_timespec 0 0) (mk_timespec 0 0)))
              "/s" "/t" "BLK_C /dev/b" "BLK_C" "/dev/b" [] "BLK" "C" eq_refl eq_refl)
    as [H1 H2].
  - right. right. repeat split; discriminate.
  - split; [exact H1 | apply H2; discriminate].
Defined.

(** *** From the bucket files to the Event Mapper *)

Definition clean_token (t : string) : Prop :=
  t ≠ EmptyString ∧ ∀ c, In c (list_ascii_of_string t) → isspace c = false.

Lemma word_token t : ∀ c s,
  (∀ d, In d (list_ascii_of_string t) → isspace d = false) → isspace c = true →
  word (t +:+ String c s) = (t, String c s).
Proof.
  induction t as [|d t IH]; intros c s Ht Hc.
  - change (EmptyString +:+ String c s) with (String c s). simpl. now rewrite Hc.
  - rewrite append_cons. simpl. rewrite (Ht d) by (now left).
    rewrite IH; [reflexivity | | assumption]. intros x Hx. apply Ht. now right.
Qed.

Lemma word_token_end t :
  (∀ d, In d (list_ascii_of_string t) → isspace d = false) → word t = (t, EmptyString).
Proof.
  induction t as [|d t IH]; intros Ht; [reflexivity|].
  simpl. rewrite (Ht d) by (now left).
  rewrite IH; [reflexivity|]. intros x Hx. apply Ht. now right.
Qed.

Lemma skipws_token t s : clean_token t → skipws (t +:+ s) = t +:+ s.
Proof.
  intros [Hne Ht]. destruct t as [|d t]; [congruence|].
  rewrite append_cons. simpl. now rewrite (Ht d) by (now left).
Qed.

Lemma extract_token t c s tok :
  clean_token t → isspace c = true →
  extract (iss (t +:+ String c s)) tok =
    ({| ibuf := String c s; ieof := false; ifail := false |}, t).
Proof.
  intros Hc Hs. unfold extract. simpl good. cbv iota. simpl ibuf.
  rewrite skipws_token by assumption.
  destruct Hc as [Hne Ht]. destruct t as [|d t]; [congruence|].
  rewrite append_cons. rewrite <- append_cons.
  rewrite (word_token (String d t) c s Ht Hs).
  rewrite append_cons. reflexivity.
Qed.

Lemma extract_token_end t tok :
  clean_token t →
  extract (iss t) tok = ({| ibuf := EmptyString; ieof := true; ifail := false |}, t).
Proof.
  intros [Hne Ht]. unfold extract. simpl good. cbv iota. simpl ibuf.
  destruct t as [|d t]; [congruence|].
  assert (E : skipws (String d t) = String d t).
  { simpl. now rewrite (Ht d) by (now left). }
  rewrite E, (word_token_end (String d t) Ht). reflexivity.
Qed.

Lemma read_all_skip fuel c s tok :
  isspace c = true →
  read_all fuel {| ibuf := String c s; ieof := false; ifail := false |} tok
  = read_all fuel (iss s) tok.
Proof.
  intros Hc. destruct fuel as [|fuel]; [reflexivity|].
  simpl read_all. unfold extract. simpl. now rewrite Hc.
Qed.

Lemma read_all_tab_join ts : ∀ fuel tok,
  Forall clean_token ts → (String.length (tab_join ts) < fuel)%nat →
  read_all fuel (iss (tab_join ts)) tok = ts.
Proof.
  induction ts as [|t ts IH]; intros fuel tok Hc Hf.
  - destruct fuel; [lia|]. reflexivity.
  - inversion Hc as [|? ? Ht Hts]; subst.
    destruct fuel as [|fuel]; [lia|].
    destruct ts as [|t2 ts].
    + simpl tab_join. simpl read_all. rewrite extract_token_end by assumption.
      simpl. f_equal. destruct fuel; reflexivity.
    + change (tab_join (t :: t2 :: ts))
        with (t +:+ String tab EmptyString +:+ tab_join (t2 :: ts)) in *.
      change (String tab EmptyString +:+ tab_join (t2 :: ts))
        with (String tab (tab_join (t2 :: ts))) in *.
      simpl read_all. rewrite extract_token by (assumption || reflexivity).
      simpl. f_equal. rewrite read_all_skip by reflexivity.
      apply IH; [assumption|].
      rewrite length_append in Hf. cbn [String.length] in Hf. lia.
Qed.

(** *** The numbering of the documents *)

#[local] Arguments map_line : simpl never.

Section Documents.
Variable lstat : string → option stat.
Variable json_open_ok : Z → bool.
Variable snapDir : string.

Lemma int_add_1 count : 0 ≤ count < 2 ^ 31 - 1 → int_add count 1 = count + 1.
Proof. intros H. unfold int_add. apply wrap_int_small. lia. Qed.

Lemma batch_loop_numbers fuel : ∀ lines count docs,
  (∀ k, json_open_ok k = true) →
  (length lines < fuel)%nat → Forall (in_bounds lstat snapDir) lines →
  0 ≤ count → count + Z.of_nat (length lines) < 2 ^ 31 - 1 →
  ∃ newdocs,
    batch_loop lstat json_open_ok snapDir fuel lines count docs
      = Some (Returned true, docs ++ newdocs) ∧
    ∀ i d, newdocs !! i = Some d → d.1 = count + Z.of_nat i.
Proof.
  induction fuel as [|fuel IH]; intros lines count docs Hok Hf Hb H0 Hmax; [lia|].
  cbn [batch_loop].
  destruct (fill_batch_spec lstat snapDir lines [] Hb) as
    (batch & rest & done & -> & Hb' & E & Hle & Ht & Hfalse); [simpl; lia|].
  rewrite Hok. destruct done.
  - destruct (0 <? length batch)%nat.
    + exists [(count, JsonArray batch)]. split; [reflexivity|].
      intros [|i] d Hd; simpl in Hd; [|discriminate].
      injection Hd as <-. simpl. lia.
    + exists []. rewrite app_nil_r. split; [reflexivity|]. intros i d Hd. discriminate.
  - destruct (Hfalse eq_refl) as [Hlen Hshort].
    specialize (Hshort ltac:(simpl; lia)).
    rewrite Hlen. cbn [Nat.ltb Nat.leb]. rewrite int_add_1 by lia.
    destruct (IH rest (count + 1) (docs ++ [(count, JsonArray batch)]) Hok)
      as (newdocs & -> & Hnum); [lia | assumption | lia | lia |].
    exists ((count, JsonArray batch) :: newdocs).
    split; [now rewrite <- app_assoc|].
    intros [|i] d Hd; simpl in Hd.
    + injection Hd as <-. simpl. lia.
    + rewrite (Hnum i d Hd). lia.
Qed.

(** The documents are numbered from 0 without a gap: when every line is
    processed and every document can be created, the [i]-th document
    written is [i.json]. *)
Theorem documents_numbered_from_zero (content : string) :
  Forall (in_bounds lstat snapDir) (getlines content) →
  (∀ k, json_open_ok k = true) →
  Z.of_nat (length (getlines content)) < 2 ^ 31 - 1 →
  ∃ docs,
    GenerateJSON lstat json_open_ok snapDir (Some content) = Some (Returned true, docs) ∧
    ∀ i d, docs !! i = Some d → d.1 = Z.of_nat i.
Proof.
  intros Hb Hok Hlen. unfold GenerateJSON.
  destruct (batch_loop_numbers (S (length (getlines content))) (getlines content) 0 [] Hok)
    as (docs & -> & Hnum); [lia | assumption | lia | lia |].
  exists docs. split; [reflexivity|]. intros i d Hd. rewrite (Hnum i d Hd). lia.
Qed.

Lemma batch_loop_refused (k : nat) : ∀ fuel lines count docs,
  (∀ j, count ≤ j < count + Z.of_nat k → json_open_ok j = true) →
  json_open_ok (count + Z.of_nat k) = false →
  (1000 * k < length (items lstat snapDir lines))%nat →
  (length lines < fuel)%nat → Forall (in_bounds lstat snapDir) lines →
  0 ≤ count → count + Z.of_nat k < 2 ^ 31 - 1 →
  ∃ newdocs,
    batch_loop lstat json_open_ok snapDir fuel lines count docs
      = Some (Returned false, docs ++ newdocs) ∧
    length newdocs = k ∧
    concat (map doc_items newdocs) = firstn (1000 * k)%nat (items lstat snapDir lines).
Proof.
  induction k as [|k IH]; intros fuel lines count docs Hok Hno HN Hf Hb H0 Hmax;
    (destruct fuel as [|fuel]; [lia|]); cbn [batch_loop];
    destruct (fill_batch_spec lstat snapDir lines [] Hb) as
      (batch & rest & done & -> & Hb' & E & Hle & Ht & Hfalse); try (simpl; lia);
    simpl in E.
  - assert (Hpos : (0 < length batch)%nat).
    { destruct done.
      - destruct (Ht eq_refl) as [-> _]. simpl in E. rewrite app_nil_r in E.
        rewrite <- E. lia.
      - destruct (Hfalse eq_refl) as [-> _]. lia. }
    apply Nat.ltb_lt in Hpos. rewrite Hpos.
    replace (count + Z.of_nat 0) with count in Hno by lia. rewrite Hno.
    exists []. rewrite app_nil_r. repeat split.
  - destruct done.
    { destruct (Ht eq_refl) as [-> Hlt]. simpl in E. rewrite app_nil_r in E.
      rewrite <- E in Hlt. lia. }
    destruct (Hfalse eq_refl) as [Hlen Hshort].
    specialize (Hshort ltac:(simpl; lia)).
    rewrite Hlen. cbn [Nat.ltb Nat.leb].
    rewrite (Hok count) by lia. rewrite int_add_1 by lia.
    destruct (IH fuel rest (count + 1) (docs ++ [(count, JsonArray batch)]))
      as (newdocs & -> & Hk & Hcat).
    + intros j Hj. apply Hok. lia.
    + replace (count + 1 + Z.of_nat k) with (count + Z.of_nat (S k)) by lia. exact Hno.
    + rewrite E, length_app, Hlen in HN. lia.
    + lia.
    + assumption.
    + lia.
    + lia.
    + exists ((count, JsonArray batch) :: newdocs).
      split; [now rewrite <- app_assoc|]. split; [simpl; now rewrite Hk|].
      simpl concat. rewrite Hcat, E.
      change (doc_items (count, JsonArray batch)) with batch.
      replace (1000 * S k)%nat with (length batch + 1000 * k)%nat by lia.
      now rewrite take_app_add.
Qed.

(** When the document [k.json] cannot be created although events are
    left for it, the function returns false; the [k] documents before it
    have been written and hold the first [1000 * k] events, and the events
    left are in no document. *)
Theorem json_open_failure_keeps_earlier_documents (content : string) (k : nat) :
  let lines := getlines content in
  Forall (in_bounds lstat snapDir) lines →
  (∀ j, 0 ≤ j < Z.of_nat k → json_open_ok j = true) →
  json_open_ok (Z.of_nat k) = false →
  (1000 * k < length (items lstat snapDir lines))%nat →
  Z.of_nat k < 2 ^ 31 - 1 →
  ∃ docs,
    GenerateJSON lstat json_open_ok snapDir (Some content) = Some (Returned false, docs) ∧
    length docs = k ∧
    concat (map doc_items docs) = firstn (1000 * k)%nat (items lstat snapDir lines).
Proof.
  intros lines Hb Hok Hno HN Hk. unfold GenerateJSON. fold lines.
  destruct (batch_loop_refused k (S (length lines)) lines 0 [])
    as (docs & -> & Hlen & Hcat); try assumption; try lia.
  exists docs. repeat split; assumption.
Qed.

End Documents.

Lemma documents_numbered_from_zero_witness :
  ∃ docs,
    GenerateJSON (fun _ => None) (fun _ => true) "snap" (Some sample_serialized)
      = Some (Returned true, docs) ∧
    ∀ i d, docs !! i = Some d → d.1 = Z.of_nat i.
Proof.
  apply (documents_numbered_from_zero (fun _ => None) (fun _ => true) "snap"
           sample_serialized).
  - repeat constructor; eexists; reflexivity.
  - reflexivity.
  - vm_compute. reflexivity.
Defined.

Lemma json_open_failure_keeps_earlier_documents_witness :
  ∃ docs,
    GenerateJSON (fun _ => None) (fun _ => false) "snap" (Some sample_serialized)
      = Some (Returned false, docs) ∧
    length docs = 0%nat.
Proof.
  destruct (json_open_failure_keeps_earlier_documents (fun _ => None) (fun _ => false)
              "snap" sample_serialized 0) as (docs & E & Hlen & _).
  - repeat constructor; eexists; reflexivity.
  - intros j Hj. simpl in Hj. lia.
  - reflexivity.
  - vm_compute. lia.
  - simpl. lia.
  - exists docs. split; assumption.
Defined.

End EventMore.

(** ** The stages together *)

Module DriverFacts.
Import Cxx CxxFacts DirChecks Pagination PaginationFacts RawDir RawDirFacts.
Import Bucketizer BucketizerFacts Serializer SerializerFacts BucketOrder SerializerMore.
Import Json EventMapper EventMapperFacts EventMore Driver.

(** *** The two readers of a raw page *)

Lemma in_append c (a b : string) :
  In c (list_ascii_of_string (a +:+ b)) ↔
  In c (list_ascii_of_string a) ∨ In c (list_ascii_of_string b).
Proof.
  induction a as [|d a IH].
  - change (EmptyString +:+ b) with b. simpl. tauto.
  - rewrite append_cons. simpl. rewrite IH. tauto.
Qed.

Lemma tab_join_two_has_tab a b r : In tab (list_ascii_of_string (tab_join (a :: b :: r))).
Proof.
  change (tab_join (a :: b :: r))
    with (a +:+ String tab EmptyString +:+ tab_join (b :: r)).
  apply in_append. right. apply in_append. left. now left.
Qed.

Lemma not_sentinel_with_tab s : In tab (list_ascii_of_string s) → is_sentinel s = false.
Proof.
  intros Hin. destruct (is_sentinel s) eqn:E; [|reflexivity].
  apply is_sentinel_spec in E as [-> | ->]; simpl in Hin;
    repeat (destruct Hin as [Hin|Hin]; [discriminate|]); destruct Hin.
Qed.

(** The Pagination Driver ends a page at a line whose third token is a
    sentinel, whatever follows it on the line; the Bucketizer compares the
    whole payload.  So a line with a sentinel as third token and a further
    token closes the page for the first and is a record for the second,
    which files its payload in the bucket of its level and goes on with the
    rest of the raw file.  The two agree when the sentinel is the last
    token. *)
Theorem stages_disagree_on_sentinels (st : scan) ok (b : BucketFileMap)
    (e t1 t2 s : string) (r : list string) (n : Z) :
  tokens e = t1 :: t2 :: s :: r → s = "EOB" ∨ s = "EOF" →
  stoi t1 = Some n → (∀ level, ok level = true) → live b →
  (localFile_open (scan_line st e) = false ∧
   readNum (vars (scan_line st e)) = int_add (readNum (vars st)) 1) ∧
  (r = [] → (bucketize_line ok b e).1 = SeekEnd) ∧
  (r ≠ [] →
   (bucketize_line ok b e).1 = NextLine ∧
   bucket_lines (bucketize_line ok b e).2 (int_add n 513) =
     bucket_lines b (int_add n 513) ++ [payload e]).
Proof.
  intros Ht Hs Hn Hok Hl.
  assert (Hwf : well_formed e) by (exists t1, t2, s, r, n; now split).
  assert (Hlev : line_level e = Some (int_add n 513)).
  { unfold line_level. destruct (line_parts e t1 t2 s r Ht) as [-> _]. now rewrite Hn. }
  assert (Hp : payload e = tab_join (s :: r)) by (unfold payload; now rewrite Ht).
  split; [|split].
  - unfold scan_line. rewrite (read3_tokens e t1 t2 s r Ht).
    destruct Hs as [-> | ->]; simpl; auto.
  - intros ->. destruct (step_well_formed ok b e Hl Hok Hwf) as (b' & _ & H).
    assert (E : is_sentinel (payload e) = true)
      by (rewrite Hp; apply is_sentinel_spec; exact Hs).
    rewrite E in H. destruct H as [-> _]. reflexivity.
  - intros Hr. destruct r as [|t4 r]; [congruence|].
    assert (E : is_sentinel (payload e) = false)
      by (rewrite Hp; apply not_sentinel_with_tab, tab_join_two_has_tab).
    destruct (step_well_formed ok b e Hl Hok Hwf) as (b' & _ & H).
    pose proof (step_by_level ok b e Hl Hok Hwf (int_add n 513)) as Hb.
    rewrite E in H, Hb. destruct H as [Hstep _]. split; [now rewrite Hstep|].
    rewrite Hb. now rewrite decide_True.
Qed.

Lemma stages_disagree_on_sentinels_witness :
  localFile_open (scan_line {| vars := initial; localFile_open := true |} "1 c EOF extra")
    = false ∧
  (bucketize_line (fun _ => true) ∅ "1 c EOF extra").1 = NextLine.
Proof.
  destruct (stages_disagree_on_sentinels {| vars := initial; localFile_open := true |}
              (fun _ => true) ∅ "1 c EOF extra" "1" "c" "EOF" ["extra"] 1
              eq_refl (or_intror eq_refl) eq_refl (fun _ => eq_refl))
    as ([H1 _] & _ & H3).
  - intros level p. rewrite lookup_empty. discriminate.
  - split; [exact H1|]. apply H3. discriminate.
Defined.

(** *** Raw lines with fewer than three tokens *)

Lemma read_all_not_good fuel ls s : good ls = false → read_all fuel ls s = [].
Proof.
  intros Hg. destruct fuel as [|fuel]; [reflexivity|].
  simpl. unfold extract. now rewrite Hg.
Qed.

Lemma output_line_not_good ls s : good ls = false → output_line ls s = s.
Proof.
  intros Hg. unfold output_line, read_rest. now rewrite read_all_not_good.
Qed.

(** On a line with one or two tokens the first extraction gives the
    first token and the reconstructed line is the last token. *)
Lemma line_str_short line :
  (0 < length (tokens line) < 3)%nat →
  (extract (iss line) EmptyString).2 = hd EmptyString (tokens line) ∧
  line_str line = default EmptyString (last (tokens line)).
Proof.
  unfold tokens, line_str. intros Hlen.
  destruct (read_all _ _ _) as [|t1 [|t2 [|t3 rest]]] eqn:H; simpl in Hlen; try lia.
  - apply read_all_cons in H as (l1 & f1 & _ & E1 & _ & L1 & H); [|simpl; lia].
    apply read_all_empty in H as (l2 & E2 & G2); [|assumption].
    destruct (extract_not_good l2 t1 G2) as (l3 & E3 & G3).
    rewrite E1, E2, E3. simpl. split; [reflexivity|]. now apply output_line_not_good.
  - apply read_all_cons in H as (l1 & f1 & _ & E1 & _ & L1 & H); [|simpl; lia].
    apply read_all_cons in H as (l2 & f2 & _ & E2 & _ & L2 & H); [|assumption].
    apply read_all_empty in H as (l3 & E3 & G3); [|assumption].
    rewrite E1, E2, E3. simpl. split; [reflexivity|]. now apply output_line_not_good.
Qed.

Lemma tokens_of_token t : clean_token t → tokens t = [t].
Proof.
  intros Ht. unfold tokens.
  apply (read_all_tab_join [t]); [constructor; [exact Ht | constructor] | simpl; lia].
Qed.

(** A raw line with one or two tokens, the first of which is a level, is
    not rejected by the Bucketizer: its last token is filed as the payload
    (the objectId when there are two tokens, the level itself when there is
    one).  The line of the bucket file then has a single token, and the
    Event Mapper indexes its token list out of bounds on it. *)
Theorem short_line_reaches_mapper ok (b : BucketFileMap) (line : string) (n : Z) :
  live b → (∀ level, ok level = true) →
  (0 < length (tokens line) < 3)%nat →
  stoi (hd EmptyString (tokens line)) = Some n →
  let t := default EmptyString (last (tokens line)) in
  t ≠ "EOB" → t ≠ "EOF" →
  (bucketize_line ok b line).1 = NextLine ∧
  bucket_lines (bucketize_line ok b line).2 (int_add n 513) =
    bucket_lines b (int_add n 513) ++ [t] ∧
  ∀ lstat snapDir, map_line lstat snapDir t = Undefined.
Proof.
  intros Hl Hok Hlen Hn t H1 H2.
  destruct (line_str_short line Hlen) as [Hfirst Hstr]. fold t in Hstr.
  assert (Hlev : line_level line = Some (int_add n 513))
    by (unfold line_level; now rewrite Hfirst, Hn).
  assert (Hns : is_sentinel t = false).
  { unfold is_sentinel. apply String.eqb_neq in H1, H2. now rewrite H1, H2. }
  rewrite bucketize_line_eq, Hlev, Hstr, Hns.
  destruct (ensure_all_ok ok b (int_add n 513) Hok) as [b1 E]. rewrite E.
  destruct (ensure_Some _ _ _ _ E) as (Hsame & Hd & _ & Hl1 & _).
  specialize (Hl1 Hl).
  destruct (write_line_live b1 (int_add n 513) t Hl1) as [b2 W].
  { apply elem_of_dom. rewrite Hd. set_solver. }
  rewrite W. destruct (write_line_Some _ _ _ _ W) as (_ & _ & H3).
  destruct (H3 Hl1) as (_ & Hb2 & _). simpl.
  split; [reflexivity|]. split.
  - rewrite Hb2, decide_True by reflexivity. now rewrite Hsame.
  - intros lstat snapDir. apply map_line_short.
    assert (Ht : clean_token t).
    { apply (tokens_ok line). unfold t.
      destruct (last (tokens line)) as [x|] eqn:Elast.
      - apply list_elem_of_In. apply last_Some in Elast as [l' ->].
        apply elem_of_app. right. now left.
      - apply last_None in Elast. rewrite Elast in Hlen. simpl in Hlen. lia. }
    rewrite (tokens_of_token t Ht). simpl. lia.
Qed.

Lemma short_line_reaches_mapper_witness :
  (bucketize_line (fun _ => true) ∅ "1 o1").1 = NextLine ∧
  bucket_lines (bucketize_line (fun _ => true) ∅ "1 o1").2 514 = ["o1"] ∧
  map_line (fun _ => None) "/snap" "o1" = Undefined.
Proof.
  destruct (short_line_reaches_mapper (fun _ => true) ∅ "1 o1" 1) as (H1 & H2 & H3).
  - intros level p. rewrite lookup_empty. discriminate.
  - reflexivity.
  - vm_compute. lia.
  - reflexivity.
  - discriminate.
  - discriminate.
  - split; [exact H1|]. split; [exact H2 | apply H3].
Defined.

(** What [BucketizeDiff] writes is [outputLine.str()], and the token loop
    of [GenerateJSON] reads it back as follows: for a raw line of three
    tokens or more, the tokens after level and objectId; for a raw line of
    one or two tokens, its last token alone.  That line is appended to the
    bucket of the level unless it is a sentinel. *)
Theorem written_line_read_back ok (b : BucketFileMap) (line : string) (level : Z) :
  live b → (∀ l, ok l = true) → line_level line = Some level →
  tokens (line_str line) =
    match tokens line with
    | _ :: _ :: t3 :: rest => t3 :: rest
    | [_; t2] => [t2]
    | [t1] => [t1]
    | [] => []
    end ∧
  (is_sentinel (line_str line) = false →
   (bucketize_line ok b line).1 = NextLine ∧
   bucket_lines (bucketize_line ok b line).2 level =
     bucket_lines b level ++ [line_str line]) ∧
  (is_sentinel (line_str line) = true →
   (bucketize_line ok b line).1 = SeekEnd ∧
   ∀ L, bucket_lines (bucketize_line ok b line).2 L = bucket_lines b L).
Proof.
  intros Hl Hok Hlev. split; [|split].
  - destruct (tokens line) as [|t1 [|t2 [|t3 rest]]] eqn:Ht.
    + rewrite (blank_line_level line Ht) in Hlev. discriminate.
    + destruct (line_str_short line) as [_ ->]; [rewrite Ht; simpl; lia|].
      rewrite Ht. simpl. apply tokens_of_token, (tokens_ok line).
      rewrite Ht. now left.
    + destruct (line_str_short line) as [_ ->]; [rewrite Ht; simpl; lia|].
      rewrite Ht. simpl. apply tokens_of_token, (tokens_ok line).
      rewrite Ht. right. now left.
    + destruct (line_parts line t1 t2 t3 rest Ht) as [_ ->].
      unfold tokens at 1. apply (read_all_tab_join (t3 :: rest)); [|lia].
      apply List.Forall_forall. intros t Hin. apply (tokens_ok line).
      rewrite Ht. right. right. exact Hin.
  - intros Hns. rewrite bucketize_line_eq, Hlev, Hns.
    destruct (ensure_all_ok ok b level Hok) as [b1 E]. rewrite E.
    destruct (ensure_Some _ _ _ _ E) as (Hsame & Hd & _ & Hl1 & _).
    specialize (Hl1 Hl).
    destruct (write_line_live b1 level (line_str line) Hl1) as [b2 W].
    { apply elem_of_dom. rewrite Hd. set_solver. }
    rewrite W. destruct (write_line_Some _ _ _ _ W) as (_ & _ & H3).
    destruct (H3 Hl1) as (_ & Hb2 & _). simpl.
    split; [reflexivity|]. rewrite Hb2, decide_True by reflexivity. now rewrite Hsame.
  - intros Hs. rewrite bucketize_line_eq, Hlev, Hs.
    destruct (ensure_all_ok ok b level Hok) as [b1 E]. rewrite E.
    destruct (ensure_Some _ _ _ _ E) as (Hsame & _). simpl.
    split; [reflexivity | exact Hsame].
Qed.

Lemma written_line_read_back_witness :
  tokens (line_str "5 o1 FILE_RENAME /a /b") = ["FILE_RENAME"; "/a"; "/b"] ∧
  bucket_lines (bucketize_line (fun _ => true) ∅ "5 o1 FILE_RENAME /a /b").2 518
    = [line_str "5 o1 FILE_RENAME /a /b"].
Proof.
  destruct (written_line_read_back (fun _ => true) ∅ "5 o1 FILE_RENAME /a /b" 518)
    as (H1 & H2 & _).
  - intros level p. rewrite lookup_empty. discriminate.
  - reflexivity.
  - reflexivity.
  - split; [exact H1|]. now destruct (H2 eq_refl) as [_ ->].
Defined.

(** *** What a successful run needed *)

(** A run that has left otherwise than by [return 0]. *)
Ltac failed_run :=
  let E := fresh "E" in
  let H := fresh "H" in
  intros E H; injection E as <-; simpl in H;
  first [ discriminate H
        | injection H as <-; split; [now right | discriminate] ].

(** [GetSnapshotDiff] returns 0 or 1, and 0 only when the result
    directory was an empty directory, the log was opened, the snapshot
    directory was a directory, and the directories [raw], [parallel_diff]
    and [serialized_json] were all created: the last one also when no JSON
    output is asked for, in which case no document is written. *)
Theorem success_needs_every_directory (w : world) (fuel : nat)
    (snapDir snap1 snap2 : string) (genJsonOutput : bool) (r : report) (s : Z) :
  GetSnapshotDiff w fuel snapDir snap1 snap2 genJsonOutput = Some r →
  status r = Returned s →
  (s = 0 ∨ s = 1) ∧
  (s = 0 →
   IsDir (result_stat w) = true ∧ IsDirEmpty (result_dir w) = Returned true ∧
   log_open_ok w = true ∧ IsDir (snap_stat w) = true ∧
   mkdir_raw w = 0 ∧ mkdir_buckets w = 0 ∧ serial_create_ok w = true ∧
   mkdir_json w = 0 ∧
   (genJsonOutput = false → json_documents r = [])).
Proof.
  unfold GetSnapshotDiff, stop.
  destruct (IsDir (result_stat w)); simpl.
  2:{ failed_run. }
  destruct (IsDirEmpty (result_dir w)) as [[|]| |]; simpl;
    try failed_run.
  destruct (log_open_ok w); simpl;
    try failed_run.
  destruct (IsDir (snap_stat w)); simpl;
    try failed_run.
  destruct (Z.eqb_spec (mkdir_raw w) 0) as [Hraw|Hraw]; simpl;
    try failed_run.
  destruct (ReadRawDiff_fs snapDir snap1 snap2 (stream w) fuel) as [[[readNum names] files]|];
    [|discriminate].
  destruct (readNum <? 0);
    try failed_run.
  unfold BucketizeDiff.
  destruct (Z.eqb_spec (mkdir_buckets w) 0) as [Hb|Hb]; simpl;
    try failed_run.
  match goal with
  | |- context [bucketize_files ?a ?c ?d] =>
      destruct (bucketize_files a c d) as [[[| |]|] buckets]
  end;
    try failed_run.
  unfold SerializeBuckets.
  destruct (serial_create_ok w); simpl;
    try failed_run.
  match goal with
  | |- context [serialize_loop ?a ?c ?d] =>
      destruct (serialize_loop a c d) as [[out b']|]
  end;
    try failed_run.
  destruct (Z.eqb_spec (mkdir_json w) 0) as [Hj|Hj]; simpl;
    try failed_run.
  destruct genJsonOutput.
  - match goal with
    | |- context [GenerateJSON ?a ?c ?d ?e] =>
        destruct (GenerateJSON a c d e) as [[[[|]| |] docs]|]
    end; try failed_run; try discriminate.
    intros [= <-] [= <-]. split; [now left|].
    intros _. repeat split; try assumption. discriminate.
  - intros [= <-] [= <-]. split; [now left|].
    intros _. repeat split; assumption || reflexivity.
Qed.

(** *** A stream of pages, from the upstream to the documents *)

(** A line that both readers take for a record. *)
Definition both_record (l : string) : Prop :=
  ∃ t1 t2 t3 rest n,
    tokens l = t1 :: t2 :: t3 :: rest ∧ stoi t1 = Some n ∧ t3 ≠ "EOB" ∧ t3 ≠ "EOF".

(** A page that is opened and copied well, made of such records and of a
    line of three tokens, the last of which is the sentinel. *)
Definition exact_page (s : string) (p : page_io * list string) : Prop :=
  (∃ calls, StreamReader.OpenStreamUnreliable (opens p.1) = Some (0, calls)) ∧
  local_ok p.1 = true ∧ statusBad p.1 = false ∧
  Forall both_record p.2 ∧
  ∃ e post t1 t2 n,
    getlines (data p.1) = p.2 ++ e :: post ∧ tokens e = [t1; t2; s] ∧ stoi t1 = Some n.

(** An environment in which nothing fails. *)
Definition cooperative (w : world) : Prop :=
  IsDir (result_stat w) = true ∧ IsDirEmpty (result_dir w) = Returned true ∧
  log_open_ok w = true ∧ IsDir (snap_stat w) = true ∧
  mkdir_raw w = 0 ∧ mkdir_buckets w = 0 ∧ (∀ level, bucket_open_ok w level = true) ∧
  serial_create_ok w = true ∧ mkdir_json w = 0 ∧ serial_open_ok w = true ∧
  (∀ k, json_open_ok w k = true).

Lemma both_record_split l :
  both_record l → record_line l ∧ well_formed l ∧ is_sentinel (payload l) = false.
Proof.
  intros (t1 & t2 & t3 & rest & n & Ht & Hn & H1 & H2). split; [|split].
  - exists t1, t2, t3, rest. auto.
  - exists t1, t2, t3, rest, n. auto.
  - unfold payload. rewrite Ht. simpl drop. destruct rest as [|t4 rest].
    + simpl. unfold is_sentinel.
      apply String.eqb_neq in H1, H2. now rewrite H1, H2.
    + apply not_sentinel_with_tab, tab_join_two_has_tab.
Qed.

Lemma sentinel_split recs e post :
  Forall (fun l => is_sentinel (payload l) = false) recs →
  is_sentinel (payload e) = true →
  before_sentinel (recs ++ e :: post) = recs ∧
  upto_sentinel (recs ++ e :: post) = recs ++ [e].
Proof.
  intros Hrecs He. induction Hrecs as [|l recs Hl _ IH]; simpl.
  - unfold is_sentinel in He. now rewrite He.
  - unfold is_sentinel in Hl. rewrite Hl. destruct IH as [-> ->]. now split.
Qed.

Lemma exact_page_both s p :
  s = "EOB" ∨ s = "EOF" → exact_page s p →
  page_ok s p.1 p.2 ∧
  Forall well_formed (upto_sentinel (getlines (data p.1))) ∧
  before_sentinel (getlines (data p.1)) = p.2.
Proof.
  intros Hs (Ho & Hl & Hb & Hrecs & e & post & t1 & t2 & n & Hlines & He & Hn).
  assert (Hns : Forall (fun l => is_sentinel (payload l) = false) p.2).
  { eapply Forall_impl; [exact Hrecs|]. intros l Hl'. now apply both_record_split. }
  assert (Hse : is_sentinel (payload e) = true).
  { unfold payload. rewrite He. simpl. now apply is_sentinel_spec. }
  destruct (sentinel_split p.2 e post Hns Hse) as [Hbefore Hupto].
  split; [|split].
  - split; [exact Ho|]. repeat split; try assumption.
    + eapply Forall_impl; [exact Hrecs|]. intros l Hl'. now apply both_record_split.
    + exists e, post, t1, t2, []. now split.
  - rewrite Hlines, Hupto. apply Forall_app. split.
    + eapply Forall_impl; [exact Hrecs|]. intros l Hl'. now apply both_record_split.
    + repeat constructor. exists t1, t2, s, [], n. now split.
  - now rewrite Hlines.
Qed.

(** *** [getline] on what was written line by line *)

Lemma getlines_from_line l : ∀ cur nonempty rest,
  lacks newline l →
  getlines_from cur nonempty (l +:+ String newline rest) =
    (cur +:+ l) :: getlines_from EmptyString false rest.
Proof.
  induction l as [|c l IH]; intros cur nonempty rest Hl.
  - change (EmptyString +:+ String newline rest) with (String newline rest).
    simpl. f_equal. clear. induction cur as [|d cur IH]; [reflexivity|].
    rewrite append_cons. now f_equal.
  - apply lacks_cons in Hl as [Hc Hl]. rewrite append_cons. cbn [getlines_from].
    apply Ascii.eqb_neq in Hc. rewrite Hc. rewrite IH by assumption.
    now rewrite append_assoc.
Qed.

Lemma getlines_unlines ls : Forall (lacks newline) ls → getlines (unlines ls) = ls.
Proof.
  unfold getlines. induction 1 as [|l ls Hl _ IH]; [reflexivity|].
  simpl unlines. rewrite getlines_from_line by assumption. now rewrite IH.
Qed.

Lemma tab_join_lacks_newline ts :
  Forall clean_token ts → lacks newline (tab_join ts).
Proof.
  induction 1 as [|t ts [_ Ht] Hts IH]; [intros []|].
  destruct ts as [|t2 ts].
  - simpl. intros Hin. specialize (Ht _ Hin). discriminate.
  - change (tab_join (t :: t2 :: ts))
      with (t +:+ String tab EmptyString +:+ tab_join (t2 :: ts)).
    intros Hin. apply in_append in Hin as [Hin|Hin].
    + specialize (Ht _ Hin). discriminate.
    + apply in_append in Hin as [Hin|Hin]; [|now apply IH].
      simpl in Hin. destruct Hin as [Hin|[]]. discriminate.
Qed.

Lemma payload_lacks_newline l : lacks newline (payload l).
Proof.
  apply tab_join_lacks_newline. apply List.Forall_forall. intros t Hin.
  apply (tokens_ok l). apply list_elem_of_In. apply list_elem_of_In in Hin.
  exact (sublist_subseteq _ _ (sublist_drop _ _) _ Hin).
Qed.

(** *** The raw files that the Bucketizer finds *)

Lemma raw_files_read (pages : list (page_io * list string)) (files : gmap Z string) :
  (∀ k, files !! k =
        if decide (0 ≤ k) then (fun p => data p.1) <$> pages !! Z.to_nat k else None) →
  map (fun i : nat => files !! Z.of_nat i) (seq 0 (length pages))
  = map Some (map (fun p => data p.1) pages).
Proof.
  intros Hfiles. apply list_eq. intros i.
  rewrite !list_lookup_fmap.
  destruct (decide (i < length pages)%nat) as [Hi|Hi].
  - rewrite lookup_seq_lt by assumption. simpl.
    rewrite Hfiles, decide_True by lia. rewrite Nat2Z.id.
    destruct (lookup_lt_is_Some_2 pages i Hi) as [p ->]. reflexivity.
  - rewrite lookup_seq_ge by lia. rewrite lookup_ge_None_2 by lia. reflexivity.
Qed.

(** The run from end to end.  When nothing fails in the environment and
    the upstream serves pages of records, each ended by a line whose last
    token is the sentinel, [EOB] for all but the last and [EOF] for the
    last, and when the level of every sentinel line is also the level of a
    record and the Event Mapper can index every payload, then
    [GetSnapshotDiff] returns 0, [serialized_diff] holds the payloads of all
    the records sorted by level, in the order of arrival within a level, and
    the JSON documents hold, in that order, the events of these lines. *)
Theorem snapshot_diff_end_to_end (w : world) (fuel : nat) (snapDir snap1 snap2 : string)
    (init : list (page_io * list string)) (fin : page_io * list string) :
  let pages := init ++ [fin] in
  let recs := pages ≫= snd in
  cooperative w →
  (∀ j name p, pages !! j = Some p → stream w j name = p.1) →
  Forall (exact_page "EOB") init → exact_page "EOF" fin →
  (∀ L, L ∈ levels_seen (map Some (map (fun p => data p.1) pages)) →
        ∃ l, l ∈ recs ∧ line_level l = Some L) →
  Forall (in_bounds (lstat w) snapDir) (map payload recs) →
  Z.of_nat (length init) + 1 < 2 ^ 31 → (length init < fuel)%nat →
  ∃ ls docs,
    let out := ls ≫= (fun L => map payload (filter (fun l => line_level l = Some L) recs)) in
    GetSnapshotDiff w fuel snapDir snap1 snap2 true =
      Some {| status := Returned 0; serialized_diff := Some out; json_documents := docs |} ∧
    StronglySorted Z.lt ls ∧
    out ≡ₚ map payload recs ∧
    concat (map doc_items docs) = items (lstat w) snapDir out ∧
    ∀ prog resultDir,
      main w fuel [prog; snapDir; snap1; snap2; resultDir] = Some (Returned 0).
Proof.
  intros pages recs (H1 & H2 & H3 & H4 & H5 & H6 & Hbok & H8 & H9 & H10 & Hjok)
         Hstream Hinit Hfin Hlevels Hbounds Hmax Hfuel.
  (* the pages are read and stored *)
  assert (Hpages : Forall (fun p => page_ok "EOB" p.1 p.2) init).
  { eapply Forall_impl; [exact Hinit|]. intros p Hp.
    now apply (exact_page_both "EOB" p (or_introl eq_refl)). }
  assert (Hfin' : page_ok "EOF" fin.1 fin.2)
    by now apply (exact_page_both "EOF" fin (or_intror eq_refl)).
  destruct (pages_loop snapDir snap1 snap2 (stream w) init fin fuel 0 initial [] ∅
              Hstream Hpages Hfin' eq_refl)
    as (files & Eread & Hfiles);
    [simpl; lia | simpl; lia | assumption | intros k _; apply lookup_empty |].
  assert (Hfiles' : ∀ k, files !! k =
            if decide (0 ≤ k) then (fun p => data p.1) <$> pages !! Z.to_nat k else None).
  { intros k. rewrite Hfiles. simpl. rewrite Z.sub_0_r, lookup_empty. reflexivity. }
  (* the raw files are those pages *)
  set (contents := map (fun p : page_io * list string => data p.1) pages).
  assert (Hall : Forall (fun p => ∃ s, (s = "EOB" ∨ s = "EOF") ∧ exact_page s p) pages).
  { apply Forall_app. split.
    - eapply Forall_impl; [exact Hinit|]. intros p Hp. exists "EOB". split; [now left | exact Hp].
    - constructor; [|constructor]. exists "EOF". split; [now right | exact Hfin]. }
  assert (Hwf : Forall (fun c => Forall well_formed (upto_sentinel (getlines c))) contents).
  { unfold contents. rewrite Forall_fmap. eapply Forall_impl; [exact Hall|].
    intros p (s & Hs & Hp). now apply (exact_page_both s p Hs). }
  assert (Hrecs : records contents = recs).
  { unfold contents, recs. clear -Hall.
    induction Hall as [|p ps (s & Hs & Hp) _ IH]; [reflexivity|].
    cbn [map]. rewrite records_cons, bind_cons, IH. f_equal.
    now apply (exact_page_both s p Hs). }
  assert (Hraw : map (fun i : nat => files !! Z.of_nat i)
                   (seq 0 (Z.to_nat (Z.of_nat (length init) + 1)))
                 = map Some contents).
  { replace (Z.to_nat (Z.of_nat (length init) + 1)) with (length pages)
      by (unfold pages; rewrite length_app; simpl; lia).
    now apply raw_files_read. }
  (* bucketized and serialized *)
  assert (H0 : live ∅) by (intros level p; rewrite lookup_empty; discriminate).
  destruct (files_by_level (bucket_open_ok w) contents ∅ H0 Hbok Hwf)
    as (b & Eb & Hl & Hb).
  assert (Hb' : ∀ L, bucket_lines b L =
                  map payload (filter (fun l => line_level l = Some L) recs)).
  { intros L. rewrite Hb, Hrecs. unfold bucket_lines. now rewrite lookup_empty. }
  pose proof (levels_seen_dom (bucket_open_ok w) contents b Eb) as Hd.
  destruct (sorted_copy b
              (fun L => map payload (filter (fun l => line_level l = Some L) recs))
              Hl Hb') as [b' Es].
  { intros L HL. apply level_with_record, Hlevels.
    rewrite Hd in HL. now apply elem_of_list_to_set in HL. }
  set (out := levels b ≫=
                (fun L => map payload (filter (fun l => line_level l = Some L) recs))).
  fold out in Es.
  (* nothing is lost *)
  assert (Hperm : out ≡ₚ map payload recs).
  { destruct (files_lossless (bucket_open_ok w) contents ∅ H0 Hbok Hwf)
      as (b2 & Eb2 & _ & Hperm).
    rewrite Eb in Eb2. injection Eb2 as <-.
    unfold out. rewrite <- (all_lines_by_level b _ Hl Hb'), Hperm.
    rewrite payloads_of_records, Hrecs. reflexivity. }
  (* the events *)
  assert (Hgl : getlines (unlines out) = out).
  { apply getlines_unlines. apply Forall_forall. intros x Hx.
    rewrite Hperm in Hx. apply list_elem_of_fmap in Hx as (l & -> & _).
    apply payload_lacks_newline. }
  assert (Hin : Forall (in_bounds (lstat w) snapDir) out).
  { apply Forall_forall. intros x Hx. rewrite Hperm in Hx.
    rewrite Forall_forall in Hbounds. now apply Hbounds. }
  destruct (batch_loop_spec (lstat w) (json_open_ok w) snapDir (S (length out)) out 0 []
              Hjok) as (docs & Edocs & _ & Hcat); [lia | assumption |].
  exists (levels b), docs. cbv zeta. fold out.
  assert (Erun : GetSnapshotDiff w fuel snapDir snap1 snap2 true =
            Some {| status := Returned 0; serialized_diff := Some out;
                    json_documents := docs |});
    [|split; [exact Erun|]; split; [apply levels_sorted|]; split; [assumption|];
      split; [assumption|]; intros prog resultDir; unfold main; now rewrite Erun].
  assert (Eg : GenerateJSON (lstat w) (json_open_ok w) snapDir (Some (unlines out))
               = Some (Returned true, docs))
    by (unfold GenerateJSON; cbv zeta; rewrite Hgl; exact Edocs).
  assert (Ebk : BucketizeDiff (mkdir_buckets w) (bucket_open_ok w)
                  (fun i : nat => files !! Z.of_nat i) ∅ (Z.of_nat (length init) + 1)
                = (Returned true, b)).
  { unfold BucketizeDiff. rewrite H6. cbn [Z.eqb negb]. now rewrite Hraw, Eb. }
  cbn [readNum initial] in Eread. rewrite Z.add_0_l in Eread.
  unfold GetSnapshotDiff, ReadRawDiff_fs. rewrite H1, H2, H3, H4, H5, Eread.
  cbn [Z.eqb negb].
  destruct (Z.ltb_spec (Z.of_nat (length init) + 1) 0) as [Hneg|_]; [lia|].
  rewrite Ebk, H8, Es, H9, H10. cbn [Z.eqb negb].
  change (unlines <$> Some out) with (Some (unlines out)).
  rewrite Eg. reflexivity.
Qed.

(** A run over two pages, in an environment in which nothing fails. *)
Definition first_page : page_io :=
  {| opens := fun _ => Opened; local_ok := true;
     data := unlines ["2 ck1 FILE_C /a/b"; "1 ck2 DIR_C /a"; "1 ck3 EOB"];
     statusBad := false |}.
Definition last_page : page_io :=
  {| opens := fun _ => Opened; local_ok := true;
     data := unlines ["2 ck4 FILE_C /a/c"; "2 ck5 EOF"]; statusBad := false |}.

Definition quiet_world : world :=
  {| result_stat := Some (S_IFDIR + 493);
     result_dir := Some ["."; ".."];
     log_open_ok := true;
     snap_stat := Some (S_IFDIR + 493);
     mkdir_raw := 0;
     stream := fun i _ => match i with O => first_page | _ => last_page end;
     mkdir_buckets := 0;
     bucket_open_ok := fun _ => true;
     serial_create_ok := true;
     mkdir_json := 0;
     serial_open_ok := true;
     lstat := fun _ => None;
     json_open_ok := fun _ => true |}.

Lemma quiet_world_cooperative : cooperative quiet_world.
Proof. repeat split. Defined.

Lemma first_page_exact :
  exact_page "EOB" (first_page, ["2 ck1 FILE_C /a/b"; "1 ck2 DIR_C /a"]).
Proof.
  split; [exists 1%nat; reflexivity|]. repeat split.
  - constructor; [|constructor; [|constructor]].
    + exists "2", "ck1", "FILE_C", ["/a/b"], 2. repeat split; discriminate.
    + exists "1", "ck2", "DIR_C", ["/a"], 1. repeat split; discriminate.
  - exists "1 ck3 EOB", [], "1", "ck3", 1. repeat split.
Defined.

Lemma last_page_exact : exact_page "EOF" (last_page, ["2 ck4 FILE_C /a/c"]).
Proof.
  split; [exists 1%nat; reflexivity|]. repeat split.
  - constructor; [|constructor].
    exists "2", "ck4", "FILE_C", ["/a/c"], 2. repeat split; discriminate.
  - exists "2 ck5 EOF", [], "2", "ck5", 2. repeat split.
Defined.

Lemma snapshot_diff_end_to_end_witness :
  ∃ ls docs,
    GetSnapshotDiff quiet_world 2 "/snap" "s1" "s2" true =
      Some {| status := Returned 0;
              serialized_diff :=
                Some (ls ≫= (fun L => map payload
                        (filter (fun l => line_level l = Some L)
                           ["2 ck1 FILE_C /a/b"; "1 ck2 DIR_C /a"; "2 ck4 FILE_C /a/c"])));
              json_documents := docs |} ∧
    StronglySorted Z.lt ls.
Proof.
  destruct (snapshot_diff_end_to_end quiet_world 2 "/snap" "s1" "s2"
              [(first_page, ["2 ck1 FILE_C /a/b"; "1 ck2 DIR_C /a"])]
              (last_page, ["2 ck4 FILE_C /a/c"]) quiet_world_cooperative)
    as (ls & docs & E & Hs & _).
  - intros [|[|j]] name p H; simpl in H; inversion H; reflexivity.
  - constructor; [exact first_page_exact | constructor].
  - exact last_page_exact.
  - intros L Hin. vm_compute in Hin.
    apply elem_of_cons in Hin as [->|Hin];
      [exists "2 ck1 FILE_C /a/b"; split; [vm_compute; left | reflexivity]|].
    apply elem_of_cons in Hin as [->|Hin];
      [exists "1 ck2 DIR_C /a"; split; [vm_compute; right; left | reflexivity]|].
    apply elem_of_cons in Hin as [->|Hin];
      [exists "1 ck2 DIR_C /a"; split; [vm_compute; right; left | reflexivity]|].
    apply elem_of_cons in Hin as [->|Hin];
      [exists "2 ck1 FILE_C /a/b"; split; [vm_compute; left | reflexivity]|].
    apply elem_of_cons in Hin as [->|Hin];
      [exists "2 ck1 FILE_C /a/b"; split; [vm_compute; left | reflexivity]|].
    inversion Hin.
  - repeat constructor; eexists; reflexivity.
  - simpl. lia.
  - simpl. lia.
  - exists ls, docs. split; [exact E | exact Hs].
Defined.

Lemma success_needs_every_directory_witness :
  (0 = 0 ∨ 0 = 1) ∧
  (0 = 0 →
   IsDir (result_stat quiet_world) = true ∧
   IsDirEmpty (result_dir quiet_world) = Returned true ∧
   log_open_ok quiet_world = true ∧ IsDir (snap_stat quiet_world) = true ∧
   mkdir_raw quiet_world = 0 ∧ mkdir_buckets quiet_world = 0 ∧
   serial_create_ok quiet_world = true ∧ mkdir_json quiet_world = 0 ∧
   (false = false →
    json_documents
      {| status := Returned 0;
         serialized_diff :=
           Some [tab_join ["DIR_C"; "/a"]; tab_join ["FILE_C"; "/a/b"];
                 tab_join ["FILE_C"; "/a/c"]];
         json_documents := [] |} = [])).
Proof.
  apply (success_needs_every_directory quiet_world 2 "/snap" "s1" "s2" false
           {| status := Returned 0;
              serialized_diff :=
                Some [tab_join ["DIR_C"; "/a"]; tab_join ["FILE_C"; "/a/b"];
                      tab_join ["FILE_C"; "/a/c"]];
              json_documents := [] |} 0).
  - vm_compute. reflexivity.
  - reflexivity.
Defined.

End DriverFacts.
